(** * rpi-dngn: a shallow embedding of [game.py]

    The game is a single Python module: an [AnimatedTile] and an
    [AnimatedSprite] class, the [Player] and [Enemy] entities, the
    [LevelLoader] that owns the level and, at module level, the [update]
    hook of Pygame Zero.  Every method is embedded as a
    computation in a small state-and-exception monad [M S A]: [S] is the
    object the method mutates ([self]), the [World] carries what the process
    reads from and writes to the outside (the two clocks, the files, the
    audio back end, standard output), and a Python exception is the
    [Raise] outcome, which keeps the mutations made before it.

    Conventions.
    - Python [int] is [Z]; Python [float] is idealised as a rational [Q]
      (no rounding, no NaN): times are seconds in [Q].
    - [time.time()] and [pygame.time.get_ticks()] are read from the world:
      each call takes the next reading of the corresponding clock.
    - the two-valued strings ["right"]/["left"] and ["moving"]/["idle"],
      which the code only ever assigns from literals, are enumerations;
      strings that come from the map file stay strings.
    - a [print] appends one [LogLine] to the [console]; the constructor names the
      message and carries the interpolated values.
    - drawing ([draw], [get_current_frame], [get_sword_offset],
      [draw_debug_collision]) reads the state and writes to the screen
      only; of it, [get_current_frame], [Enemy.draw] and [UI.draw] are
      embedded, with the screen as the state.  [Player.draw] decides the
      blinking by a float division and is left out, and with it the draw
      methods that call it. *)

From Stdlib Require Import ZArith QArith Qround Lqa Lia String Ascii List Bool.
From stdpp Require Import base option list strings gmap.

Open Scope Z_scope.

(** ** Python values, exceptions and outcomes *)

(** The subclasses of [Exception] that the code and its libraries raise. *)
Inductive exn : Type :=
| IndexError
| KeyError
| ValueError
| TypeError
| AttributeError
| FileNotFoundError
| PygameError.

Inductive result (A : Type) : Type :=
| Ok (a : A)
| Raise (e : exn).
Arguments Ok {A} a.
Arguments Raise {A} e.

(** Values of the free-form properties of a placed map object. *)
Inductive pyval : Type :=
| PInt (z : Z)
| PFloat (q : Q)
| PBool (b : bool)
| PStr (s : string).

(** Truthiness of a property value ([if music_file:]). *)
Definition truthy (v : pyval) : bool :=
  match v with
  | PInt z => negb (z =? 0)
  | PFloat q => negb (Qeq_bool q 0)
  | PBool b => b
  | PStr s => negb (String.eqb s EmptyString)
  end.

(** [v == s] for a string literal [s]. *)
Definition py_eq_str (v : pyval) (s : string) : bool :=
  match v with
  | PStr s' => String.eqb s' s
  | _ => false
  end.

(** ** Surfaces of the rendering back end

    A surface is described by how it was obtained; its size decides whether
    [subsurface] succeeds. *)
Inductive Surface : Type :=
| Loaded (path : string) (w h : Z)
| TileImage (gid : Z) (w h : Z)
| Subsurface (parent : Surface) (x y w h : Z)
| Canvas (w h : Z)
| Blitted (dst src : Surface) (pos : Z * Z).

Fixpoint surface_size (s : Surface) : Z * Z :=
  match s with
  | Loaded _ w h => (w, h)
  | TileImage _ w h => (w, h)
  | Subsurface _ _ _ w h => (w, h)
  | Canvas w h => (w, h)
  | Blitted dst _ _ => surface_size dst
  end.

(** [surface.subsurface(x, y, w, h)]: pygame raises [ValueError] when the
    rectangle is not inside the surface. *)
Definition subsurface (s : Surface) (x y w h : Z) : result Surface :=
  let '(sw, sh) := surface_size s in
  if (0 <=? x) && (0 <=? y) && (0 <=? w) && (0 <=? h)
     && (x + w <=? sw) && (y + h <=? sh)
  then Ok (Subsurface s x y w h)
  else Raise ValueError.

(** [pygame.Surface((w, h))]: pygame rejects a negative size. *)
Definition new_surface (w h : Z) : result Surface :=
  if (w <? 0) || (h <? 0) then Raise PygameError else Ok (Canvas w h).

(** [surface.blit(src, pos)]. *)
Definition blit (src : Surface) (pos : Z * Z) (dst : Surface) : Surface :=
  Blitted dst src pos.

(** ** The tile map handed over by pytmx *)

(** One entry of a tile's animation: [frame.gid], [frame.duration] (ms). *)
Module AnimationFrame.
Record t := { gid : Z; duration : Z }.
End AnimationFrame.

(** A placed object: [obj.name], [obj.x], [obj.y], [obj.properties].
    pytmx serves [getattr(obj, k)] from [properties] for a custom key. *)
Record TiledObject := {
  obj_name : option string;
  obj_x : Q;
  obj_y : Q;
  obj_properties : gmap string pyval }.

(** A layer: a tile layer has [data] and iterates as [(x, y, gid)] triples;
    an object group iterates as its objects; an image layer is not
    iterable and has no [data]. *)
Inductive Layer : Type :=
| TileLayer (name : string) (data : list (Z * Z * Z))
| ObjectGroup (name : string) (objects : list TiledObject)
| ImageLayer (name : string).

Definition layer_name (l : Layer) : string :=
  match l with
  | TileLayer n _ | ObjectGroup n _ | ImageLayer n => n
  end.

(** [hasattr(layer, "data")]. *)
Definition has_data (l : Layer) : bool :=
  match l with TileLayer _ _ => true | _ => false end.

(** The loaded map: dimensions, layers and the two per-gid queries the game
    uses.  [get_tile_properties_by_gid] is kept to the one entry the game
    reads: [Some fs] when the properties exist and hold ["frames"]. *)
Record TiledMap := {
  tmx_width : Z;
  tmx_height : Z;
  tilewidth : Z;
  tileheight : Z;
  layers : list Layer;
  get_tile_image_by_gid : Z -> result (option Surface);
  get_tile_properties_by_gid : Z -> result (option (list AnimationFrame.t)) }.

(** ** Console output: one constructor per [print] of the source, and one
    for [traceback.print_exc()] *)
Inductive LogLine : Type :=
| LoadingAnimationData (gid : Z)
| TileProperties (props : option (list AnimationFrame.t))
| FoundAnimationFrames (n : Z)
| ProcessingFrame (i : Z) (gid : Z) (dur : Z)
| AddedFrame (i : Z) (dur : Q)
| WarnNoFrameSurface (gid : Z)
| LoadedAnimationFrames (n : Z)
| NoAnimationFrames
| AddedStaticTile
| ErrorNoStaticTile
| ErrorLoadingAnimation (gid : Z) (e : exn)
| Traceback (e : exn)
| WarnAnimationNotFound (name : string)
| PlayerTookDamage (damage health max_health : Z)
| DebugMode (on : bool)
| PlayerHitByEnemy
| GameOver
| ErrorLoadingLevel (level_name : string) (e : exn)
| WarnCollidersNotFound
| CreatedCollisionGrid (w h : Z)
| WarnLayerNotFound (name : string)
| WarnEntitiesNotFound
| CreatedPlayer (x y : Q)
| CreatedEnemy (x y : Q) (enemy_type enemy_movement blocks : pyval)
| FoundMusicSetting (music : pyval)
| NoMusicProperty
| UnknownEntityType (name : string)
| PlayingMusic (music : pyval)
| WarnMusicNotFound (music : pyval)
| ErrorLoadingMusic (music : pyval) (e : exn)
| WarnAnimatedNotFound
| LoadedAnimatedTiles (n : Z).

(** Commands sent to the audio back end. *)
Inductive AudioCmd : Type :=
| MusicStop
| MusicPlay (name : pyval)
| SoundPlay (name : string).

(** ** The world outside the process *)
Record World := {
  wall_clock : nat -> Q;             (* coming readings of time.time() *)
  tick_clock : nat -> Z;             (* coming readings of get_ticks() *)
  image_files : string -> result Surface;   (* pygame.image.load *)
  tmx_files : string -> result TiledMap;    (* pytmx.load_pygame *)
  ogg_exists : pyval -> bool;        (* os.path.exists("music/<v>.ogg") *)
  audio_backend : AudioCmd -> result unit;  (* does the command succeed *)
  audio : list AudioCmd;             (* commands issued so far *)
  console : list LogLine }.            (* lines written to stdout/stderr *)

(** ** The monad of methods *)

Definition M (S A : Type) : Type := S -> World -> result A * S * World.

#[global] Instance M_ret {S} : MRet (M S) :=
  fun A (a : A) s w => (Ok a, s, w).

#[global] Instance M_bind {S} : MBind (M S) :=
  fun A B (f : A -> M S B) (m : M S A) s w =>
    match m s w with
    | (Ok a, s', w') => f a s' w'
    | (Raise e, s', w') => (Raise e, s', w')
    end.

Definition raise {S A} (e : exn) : M S A := fun s w => (Raise e, s, w).

(** Lift an outcome computed without effects. *)
Definition lift {S A} (r : result A) : M S A := fun s w => (r, s, w).

Definition get {S} : M S S := fun s w => (Ok s, s, w).
Definition modify {S} (f : S -> S) : M S unit := fun s w => (Ok tt, f s, w).

(** [try: body  except Exception as e: handler e]. *)
Definition try_except {S A} (body : M S A) (handler : exn -> M S A) : M S A :=
  fun s w =>
    match body s w with
    | (Ok a, s', w') => (Ok a, s', w')
    | (Raise e, s', w') => handler e s' w'
    end.

(** Run a method of a component object held in a field of [self]. *)
Definition zoom {S T A} (view : S -> T) (update : T -> S -> S) (m : M T A)
  : M S A :=
  fun s w =>
    match m (view s) w with
    | (r, t', w') => (r, update t' s, w')
    end.

(** Run the rest of a constructor on the object under construction and
    return the finished object. *)
Definition construct {S T} (o : T) (m : M T unit) : M S T :=
  fun s w =>
    match m o w with
    | (Ok _, o', w') => (Ok o', s, w')
    | (Raise e, _, w') => (Raise e, s, w')
    end.

(** The world after one reading of a clock. *)
Definition wall_read (w : World) : World :=
  {| wall_clock := fun n => wall_clock w (Datatypes.S n);
     tick_clock := tick_clock w;
     image_files := image_files w;
     tmx_files := tmx_files w;
     ogg_exists := ogg_exists w;
     audio_backend := audio_backend w;
     audio := audio w;
     console := console w |}.

Definition tick_read (w : World) : World :=
  {| wall_clock := wall_clock w;
     tick_clock := fun n => tick_clock w (Datatypes.S n);
     image_files := image_files w;
     tmx_files := tmx_files w;
     ogg_exists := ogg_exists w;
     audio_backend := audio_backend w;
     audio := audio w;
     console := console w |}.

(** The world after a line is printed, and after an audio command. *)
Definition printed (l : LogLine) (w : World) : World :=
  {| wall_clock := wall_clock w;
     tick_clock := tick_clock w;
     image_files := image_files w;
     tmx_files := tmx_files w;
     ogg_exists := ogg_exists w;
     audio_backend := audio_backend w;
     audio := audio w;
     console := console w ++ [l] |}.

Definition sounded (c : AudioCmd) (w : World) : World :=
  {| wall_clock := wall_clock w;
     tick_clock := tick_clock w;
     image_files := image_files w;
     tmx_files := tmx_files w;
     ogg_exists := ogg_exists w;
     audio_backend := audio_backend w;
     audio := audio w ++ [c];
     console := console w |}.

(** [time.time()]. *)
Definition time_time {S} : M S Q :=
  fun s w => (Ok (wall_clock w O), s, wall_read w).

(** [pygame.time.get_ticks()]. *)
Definition get_ticks {S} : M S Z :=
  fun s w => (Ok (tick_clock w O), s, tick_read w).

(** [print(...)]. *)
Definition print {S} (l : LogLine) : M S unit :=
  fun s w => (Ok tt, s, printed l w).

(** A call into the audio back end: recorded, and it may raise. *)
Definition audio_call {S} (c : AudioCmd) : M S unit :=
  fun s w => (audio_backend w c, s, sounded c w).

(** [pygame.image.load(path)]. *)
Definition image_load {S} (path : string) : M S Surface :=
  fun s w => (image_files w path, s, w).

(** [pytmx.load_pygame(path)]. *)
Definition load_pygame {S} (path : string) : M S TiledMap :=
  fun s w => (tmx_files w path, s, w).

(** [for x in xs: body x]. *)
Fixpoint for_each {S A} (xs : list A) (body : A -> M S unit) : M S unit :=
  match xs with
  | [] => mret tt
  | x :: xs' => body x ;; for_each xs' body
  end.

(** [len(xs)]. *)
Definition len {A} (xs : list A) : Z := Z.of_nat (length xs).

(** [x >= y] and [x < y] on floats. *)
Definition Qge_bool (x y : Q) : bool := Qle_bool y x.
Definition Qlt_bool (x y : Q) : bool := negb (Qle_bool y x).

(** ** Constants *)
Definition WIDTH : Z := 320.
Definition HEIGHT : Z := 240.
Definition TILE_SIZE : Z := 16.
Definition MOVEMENT_COOLDOWN : Q := 0.15.
Definition LEVEL_SEQUENCE : list string := ["level-1"%string].

(** [xs[i]]: a negative index counts from the end, and an index outside
    the list is an [IndexError]. *)
Definition py_index {A} (xs : list A) (i : Z) : result A :=
  let j := if i <? 0 then i + len xs else i in
  if j <? 0 then Raise IndexError
  else match xs !! Z.to_nat j with
       | Some x => Ok x
       | None => Raise IndexError
       end.

(** [range(n)]. *)
Definition range (n : Z) : list Z := map Z.of_nat (seq 0 (Z.to_nat n)).

(** ** class AnimatedSprite *)
Module AnimatedSprite.

(** One entry of the [animations] dict: ["frames"], ["duration"] and the
    optional ["loop"]. *)
Record AnimData := {
  frames : list (Z * Z);
  duration : Q;
  loop : option bool }.

Record t := {
  tile_size : Z;
  spritesheet : Surface;
  animations : gmap string AnimData;
  current_animation : option string;
  current_frame : Z;
  last_frame_time : Q;
  animation_finished : bool;
  frame_cache : gmap string (list Surface) }.

Definition set_current_animation (v : option string) (s : t) : t :=
  {| tile_size := tile_size s; spritesheet := spritesheet s;
     animations := animations s; current_animation := v;
     current_frame := current_frame s;
     last_frame_time := last_frame_time s;
     animation_finished := animation_finished s;
     frame_cache := frame_cache s |}.

Definition set_current_frame (v : Z) (s : t) : t :=
  {| tile_size := tile_size s; spritesheet := spritesheet s;
     animations := animations s;
     current_animation := current_animation s;
     current_frame := v;
     last_frame_time := last_frame_time s;
     animation_finished := animation_finished s;
     frame_cache := frame_cache s |}.

Definition set_last_frame_time (v : Q) (s : t) : t :=
  {| tile_size := tile_size s; spritesheet := spritesheet s;
     animations := animations s;
     current_animation := current_animation s;
     current_frame := current_frame s;
     last_frame_time := v;
     animation_finished := animation_finished s;
     frame_cache := frame_cache s |}.

Definition set_animation_finished (v : bool) (s : t) : t :=
  {| tile_size := tile_size s; spritesheet := spritesheet s;
     animations := animations s;
     current_animation := current_animation s;
     current_frame := current_frame s;
     last_frame_time := last_frame_time s;
     animation_finished := v;
     frame_cache := frame_cache s |}.

Definition set_frame_cache (v : gmap string (list Surface)) (s : t) : t :=
  {| tile_size := tile_size s; spritesheet := spritesheet s;
     animations := animations s;
     current_animation := current_animation s;
     current_frame := current_frame s;
     last_frame_time := last_frame_time s;
     animation_finished := animation_finished s;
     frame_cache := v |}.

(** [not self.current_animation]: [None] and the empty string are falsy. *)
Definition no_animation (o : option string) : bool :=
  match o with
  | None => true
  | Some n => String.eqb n EmptyString
  end.

(** The frames of one animation, cut out of the sheet in order. *)
Fixpoint cut_frames (sheet : Surface) (size : Z) (cells : list (Z * Z))
  : result (list Surface) :=
  match cells with
  | [] => Ok []
  | (row, col) :: rest =>
      match subsurface sheet (col * size) (row * size) size size with
      | Raise e => Raise e
      | Ok frame =>
          match cut_frames sheet size rest with
          | Raise e => Raise e
          | Ok fs => Ok (frame :: fs)
          end
      end
  end.

(** [_cache_frames]: the dict is walked in the order of [map_to_list];
    the resulting cache does not depend on that order. *)
Definition _cache_frames : M t unit :=
  self ← get;
  for_each (map_to_list (animations self)) (fun '(anim_name, anim_data) =>
    modify (fun s => set_frame_cache (<[anim_name := []]> (frame_cache s)) s);;
    fs ← lift (cut_frames (spritesheet self) (tile_size self)
                 (frames anim_data));
    modify (fun s => set_frame_cache (<[anim_name := fs]> (frame_cache s)) s)).

(** [__init__(spritesheet_path, tile_size, animations)]. *)
Definition __init__ {S} (spritesheet_path : string) (size : Z)
    (anims : gmap string AnimData) : M S t :=
  sheet ← image_load spritesheet_path;
  construct
    {| tile_size := size; spritesheet := sheet; animations := anims;
       current_animation := None; current_frame := 0;
       last_frame_time := 0; animation_finished := false;
       frame_cache := ∅ |}
    _cache_frames.

(** [play_animation(animation_name, reset)]. *)
Definition play_animation (animation_name : string) (reset : bool)
  : M t unit :=
  self ← get;
  match animations self !! animation_name with
  | None => print (WarnAnimationNotFound animation_name)
  | Some _ =>
      if negb (bool_decide (current_animation self = Some animation_name))
         || reset
      then
        modify (set_current_animation (Some animation_name));;
        modify (set_current_frame 0);;
        now ← time_time;
        modify (set_last_frame_time now);;
        modify (set_animation_finished false)
      else mret tt
  end.

(** [update()]. *)
Definition update : M t unit :=
  self ← get;
  if no_animation (current_animation self) || animation_finished self
  then mret tt
  else
    current_time ← time_time;
    anim_data ← lift (match current_animation self ≫=
                             (fun n => animations self !! n) with
                      | Some d => Ok d
                      | None => Raise KeyError
                      end);
    if Qge_bool (current_time - last_frame_time self) (duration anim_data)
    then
      modify (fun s => set_current_frame (current_frame s + 1) s);;
      modify (set_last_frame_time current_time);;
      self ← get;
      if current_frame self >=? len (frames anim_data) then
        if default true (loop anim_data) then
          modify (set_current_frame 0)
        else
          modify (set_current_frame (len (frames anim_data) - 1));;
          modify (set_animation_finished true)
      else mret tt
    else mret tt.


(** [get_current_frame()]. *)
Definition get_current_frame (self : t) : result (option Surface) :=
  if no_animation (current_animation self) then Ok None
  else
    match current_animation self ≫= (fun n => frame_cache self !! n) with
    | Some cached =>
        match py_index cached (current_frame self) with
        | Ok frame => Ok (Some frame)
        | Raise e => Raise e
        end
    | None => Ok None
    end.

End AnimatedSprite.

(** ** Shared by the entities *)

(** [facing_direction]: ["right"] or ["left"]. *)
Inductive Facing : Type := right | left.

(** [pygame.Rect(x, y, w, h)]. *)
Record Rect := { rect_x : Z; rect_y : Z; rect_w : Z; rect_h : Z }.

(** [a.colliderect(b)], as pygame computes it: rectangles that only touch
    do not collide, and a rectangle of zero width or height collides with
    nothing. *)
Definition colliderect (a b : Rect) : bool :=
  if (rect_w a =? 0) || (rect_h a =? 0) || (rect_w b =? 0) || (rect_h b =? 0)
  then false
  else
    (Z.min (rect_x a) (rect_x a + rect_w a)
       <? Z.max (rect_x b) (rect_x b + rect_w b))
    && (Z.min (rect_y a) (rect_y a + rect_h a)
          <? Z.max (rect_y b) (rect_y b + rect_h b))
    && (Z.max (rect_x a) (rect_x a + rect_w a)
          >? Z.min (rect_x b) (rect_x b + rect_w b))
    && (Z.max (rect_y a) (rect_y a + rect_h a)
          >? Z.min (rect_y b) (rect_y b + rect_h b)).

(** [(v // TILE_SIZE) * TILE_SIZE] on a float coordinate of the map. *)
Definition snap_to_grid (v : Q) : Z :=
  Qfloor (v / inject_Z TILE_SIZE) * TILE_SIZE.

(** ** class Player *)
Module Player.

Record t := {
  x : Z;
  y : Z;
  last_move_time : Q;
  facing_direction : Facing;
  is_moving : bool;
  movement_timer : Q;
  is_attacking : bool;
  attack_start_time : Q;
  attack_duration : Q;
  is_hurt : bool;
  hurt_start_time : Q;
  hurt_duration : Q;
  invincibility_duration : Q;
  is_invincible : bool;
  invincibility_start_time : Q;
  max_health : Z;
  current_health : Z;
  sprite : AnimatedSprite.t;
  sword_sprite : AnimatedSprite.t }.

Definition set_x (v : Z) (s : t) : t :=
  {| x := v; y := y s; last_move_time := last_move_time s;
     facing_direction := facing_direction s; is_moving := is_moving s;
     movement_timer := movement_timer s; is_attacking := is_attacking s;
     attack_start_time := attack_start_time s;
     attack_duration := attack_duration s; is_hurt := is_hurt s;
     hurt_start_time := hurt_start_time s;
     hurt_duration := hurt_duration s;
     invincibility_duration := invincibility_duration s;
     is_invincible := is_invincible s;
     invincibility_start_time := invincibility_start_time s;
     max_health := max_health s; current_health := current_health s;
     sprite := sprite s; sword_sprite := sword_sprite s |}.

Definition set_y (v : Z) (s : t) : t :=
  {| x := x s; y := v; last_move_time := last_move_time s;
     facing_direction := facing_direction s; is_moving := is_moving s;
     movement_timer := movement_timer s; is_attacking := is_attacking s;
     attack_start_time := attack_start_time s;
     attack_duration := attack_duration s; is_hurt := is_hurt s;
     hurt_start_time := hurt_start_time s;
     hurt_duration := hurt_duration s;
     invincibility_duration := invincibility_duration s;
     is_invincible := is_invincible s;
     invincibility_start_time := invincibility_start_time s;
     max_health := max_health s; current_health := current_health s;
     sprite := sprite s; sword_sprite := sword_sprite s |}.

Definition set_last_move_time (v : Q) (s : t) : t :=
  {| x := x s; y := y s; last_move_time := v;
     facing_direction := facing_direction s; is_moving := is_moving s;
     movement_timer := movement_timer s; is_attacking := is_attacking s;
     attack_start_time := attack_start_time s;
     attack_duration := attack_duration s; is_hurt := is_hurt s;
     hurt_start_time := hurt_start_time s;
     hurt_duration := hurt_duration s;
     invincibility_duration := invincibility_duration s;
     is_invincible := is_invincible s;
     invincibility_start_time := invincibility_start_time s;
     max_health := max_health s; current_health := current_health s;
     sprite := sprite s; sword_sprite := sword_sprite s |}.

Definition set_facing_direction (v : Facing) (s : t) : t :=
  {| x := x s; y := y s; last_move_time := last_move_time s;
     facing_direction := v; is_moving := is_moving s;
     movement_timer := movement_timer s; is_attacking := is_attacking s;
     attack_start_time := attack_start_time s;
     attack_duration := attack_duration s; is_hurt := is_hurt s;
     hurt_start_time := hurt_start_time s;
     hurt_duration := hurt_duration s;
     invincibility_duration := invincibility_duration s;
     is_invincible := is_invincible s;
     invincibility_start_time := invincibility_start_time s;
     max_health := max_health s; current_health := current_health s;
     sprite := sprite s; sword_sprite := sword_sprite s |}.

Definition set_is_moving (v : bool) (s : t) : t :=
  {| x := x s; y := y s; last_move_time := last_move_time s;
     facing_direction := facing_direction s; is_moving := v;
     movement_timer := movement_timer s; is_attacking := is_attacking s;
     attack_start_time := attack_start_time s;
     attack_duration := attack_duration s; is_hurt := is_hurt s;
     hurt_start_time := hurt_start_time s;
     hurt_duration := hurt_duration s;
     invincibility_duration := invincibility_duration s;
     is_invincible := is_invincible s;
     invincibility_start_time := invincibility_start_time s;
     max_health := max_health s; current_health := current_health s;
     sprite := sprite s; sword_sprite := sword_sprite s |}.

Definition set_movement_timer (v : Q) (s : t) : t :=
  {| x := x s; y := y s; last_move_time := last_move_time s;
     facing_direction := facing_direction s; is_moving := is_moving s;
     movement_timer := v; is_attacking := is_attacking s;
     attack_start_time := attack_start_time s;
     attack_duration := attack_duration s; is_hurt := is_hurt s;
     hurt_start_time := hurt_start_time s;
     hurt_duration := hurt_duration s;
     invincibility_duration := invincibility_duration s;
     is_invincible := is_invincible s;
     invincibility_start_time := invincibility_start_time s;
     max_health := max_health s; current_health := current_health s;
     sprite := sprite s; sword_sprite := sword_sprite s |}.

Definition set_is_attacking (v : bool) (s : t) : t :=
  {| x := x s; y := y s; last_move_time := last_move_time s;
     facing_direction := facing_direction s; is_moving := is_moving s;
     movement_timer := movement_timer s; is_attacking := v;
     attack_start_time := attack_start_time s;
     attack_duration := attack_duration s; is_hurt := is_hurt s;
     hurt_start_time := hurt_start_time s;
     hurt_duration := hurt_duration s;
     invincibility_duration := invincibility_duration s;
     is_invincible := is_invincible s;
     invincibility_start_time := invincibility_start_time s;
     max_health := max_health s; current_health := current_health s;
     sprite := sprite s; sword_sprite := sword_sprite s |}.

Definition set_attack_start_time (v : Q) (s : t) : t :=
  {| x := x s; y := y s; last_move_time := last_move_time s;
     facing_direction := facing_direction s; is_moving := is_moving s;
     movement_timer := movement_timer s; is_attacking := is_attacking s;
     attack_start_time := v; attack_duration := attack_duration s;
     is_hurt := is_hurt s; hurt_start_time := hurt_start_time s;
     hurt_duration := hurt_duration s;
     invincibility_duration := invincibility_duration s;
     is_invincible := is_invincible s;
     invincibility_start_time := invincibility_start_time s;
     max_health := max_health s; current_health := current_health s;
     sprite := sprite s; sword_sprite := sword_sprite s |}.

Definition set_is_hurt (v : bool) (s : t) : t :=
  {| x := x s; y := y s; last_move_time := last_move_time s;
     facing_direction := facing_direction s; is_moving := is_moving s;
     movement_timer := movement_timer s; is_attacking := is_attacking s;
     attack_start_time := attack_start_time s;
     attack_duration := attack_duration s; is_hurt := v;
     hurt_start_time := hurt_start_time s;
     hurt_duration := hurt_duration s;
     invincibility_duration := invincibility_duration s;
     is_invincible := is_invincible s;
     invincibility_start_time := invincibility_start_time s;
     max_health := max_health s; current_health := current_health s;
     sprite := sprite s; sword_sprite := sword_sprite s |}.

Definition set_hurt_start_time (v : Q) (s : t) : t :=
  {| x := x s; y := y s; last_move_time := last_move_time s;
     facing_direction := facing_direction s; is_moving := is_moving s;
     movement_timer := movement_timer s; is_attacking := is_attacking s;
     attack_start_time := attack_start_time s;
     attack_duration := attack_duration s; is_hurt := is_hurt s;
     hurt_start_time := v; hurt_duration := hurt_duration s;
     invincibility_duration := invincibility_duration s;
     is_invincible := is_invincible s;
     invincibility_start_time := invincibility_start_time s;
     max_health := max_health s; current_health := current_health s;
     sprite := sprite s; sword_sprite := sword_sprite s |}.

Definition set_is_invincible (v : bool) (s : t) : t :=
  {| x := x s; y := y s; last_move_time := last_move_time s;
     facing_direction := facing_direction s; is_moving := is_moving s;
     movement_timer := movement_timer s; is_attacking := is_attacking s;
     attack_start_time := attack_start_time s;
     attack_duration := attack_duration s; is_hurt := is_hurt s;
     hurt_start_time := hurt_start_time s;
     hurt_duration := hurt_duration s;
     invincibility_duration := invincibility_duration s;
     is_invincible := v;
     invincibility_start_time := invincibility_start_time s;
     max_health := max_health s; current_health := current_health s;
     sprite := sprite s; sword_sprite := sword_sprite s |}.

Definition set_invincibility_start_time (v : Q) (s : t) : t :=
  {| x := x s; y := y s; last_move_time := last_move_time s;
     facing_direction := facing_direction s; is_moving := is_moving s;
     movement_timer := movement_timer s; is_attacking := is_attacking s;
     attack_start_time := attack_start_time s;
     attack_duration := attack_duration s; is_hurt := is_hurt s;
     hurt_start_time := hurt_start_time s;
     hurt_duration := hurt_duration s;
     invincibility_duration := invincibility_duration s;
     is_invincible := is_invincible s; invincibility_start_time := v;
     max_health := max_health s; current_health := current_health s;
     sprite := sprite s; sword_sprite := sword_sprite s |}.

Definition set_current_health (v : Z) (s : t) : t :=
  {| x := x s; y := y s; last_move_time := last_move_time s;
     facing_direction := facing_direction s; is_moving := is_moving s;
     movement_timer := movement_timer s; is_attacking := is_attacking s;
     attack_start_time := attack_start_time s;
     attack_duration := attack_duration s; is_hurt := is_hurt s;
     hurt_start_time := hurt_start_time s;
     hurt_duration := hurt_duration s;
     invincibility_duration := invincibility_duration s;
     is_invincible := is_invincible s;
     invincibility_start_time := invincibility_start_time s;
     max_health := max_health s; current_health := v; sprite := sprite s;
     sword_sprite := sword_sprite s |}.

Definition set_sprite (v : AnimatedSprite.t) (s : t) : t :=
  {| x := x s; y := y s; last_move_time := last_move_time s;
     facing_direction := facing_direction s; is_moving := is_moving s;
     movement_timer := movement_timer s; is_attacking := is_attacking s;
     attack_start_time := attack_start_time s;
     attack_duration := attack_duration s; is_hurt := is_hurt s;
     hurt_start_time := hurt_start_time s;
     hurt_duration := hurt_duration s;
     invincibility_duration := invincibility_duration s;
     is_invincible := is_invincible s;
     invincibility_start_time := invincibility_start_time s;
     max_health := max_health s; current_health := current_health s;
     sprite := v; sword_sprite := sword_sprite s |}.

Definition set_sword_sprite (v : AnimatedSprite.t) (s : t) : t :=
  {| x := x s; y := y s; last_move_time := last_move_time s;
     facing_direction := facing_direction s; is_moving := is_moving s;
     movement_timer := movement_timer s; is_attacking := is_attacking s;
     attack_start_time := attack_start_time s;
     attack_duration := attack_duration s; is_hurt := is_hurt s;
     hurt_start_time := hurt_start_time s;
     hurt_duration := hurt_duration s;
     invincibility_duration := invincibility_duration s;
     is_invincible := is_invincible s;
     invincibility_start_time := invincibility_start_time s;
     max_health := max_health s; current_health := current_health s;
     sprite := sprite s; sword_sprite := v |}.


Definition player_animations : gmap string AnimatedSprite.AnimData :=
  list_to_map
    [ ("idle_right"%string,
       {| AnimatedSprite.frames := [(0, 0); (0, 1); (0, 2)];
          AnimatedSprite.duration := 0.6;
          AnimatedSprite.loop := Some true |});
      ("idle_left"%string,
       {| AnimatedSprite.frames := [(1, 0); (1, 1); (1, 2)];
          AnimatedSprite.duration := 0.6;
          AnimatedSprite.loop := Some true |});
      ("walk_right"%string,
       {| AnimatedSprite.frames := [(2, 0); (2, 1); (2, 2); (2, 3)];
          AnimatedSprite.duration := 0.6;
          AnimatedSprite.loop := Some true |});
      ("walk_left"%string,
       {| AnimatedSprite.frames := [(3, 0); (3, 1); (3, 2); (3, 3)];
          AnimatedSprite.duration := 0.6;
          AnimatedSprite.loop := Some true |});
      ("hurt_right"%string,
       {| AnimatedSprite.frames := [(4, 1); (4, 2); (4, 3); (4, 4); (4, 5)];
          AnimatedSprite.duration := 0.6;
          AnimatedSprite.loop := Some false |});
      ("hurt_left"%string,
       {| AnimatedSprite.frames := [(5, 1); (5, 2); (5, 3); (5, 4); (5, 5)];
          AnimatedSprite.duration := 0.6;
          AnimatedSprite.loop := Some false |}) ].

Definition sword_animations : gmap string AnimatedSprite.AnimData :=
  list_to_map
    [ ("attack_left"%string,
       {| AnimatedSprite.frames := [(0, 0); (0, 1); (0, 2); (0, 3); (0, 4)];
          AnimatedSprite.duration := 0.1;
          AnimatedSprite.loop := Some false |});
      ("attack_right"%string,
       {| AnimatedSprite.frames := [(2, 0); (2, 1); (2, 2); (2, 3); (2, 4)];
          AnimatedSprite.duration := 0.1;
          AnimatedSprite.loop := Some false |}) ].

(** A method of [self.sprite], and of [self.sword_sprite]. *)
Definition on_sprite {A} (m : M AnimatedSprite.t A) : M t A :=
  zoom sprite set_sprite m.

Definition on_sword_sprite {A} (m : M AnimatedSprite.t A) : M t A :=
  zoom sword_sprite set_sword_sprite m.

(** [__init__(x, y)]. *)
Definition __init__ {S} (x0 y0 : Q) : M S t :=
  sp ← AnimatedSprite.__init__ "images/player.png" TILE_SIZE
         player_animations;
  sw ← AnimatedSprite.__init__ "images/weapons_animated.png" 48
         sword_animations;
  construct
    {| x := snap_to_grid x0; y := snap_to_grid y0;
       last_move_time := 0; facing_direction := right;
       is_moving := false; movement_timer := 0;
       is_attacking := false; attack_start_time := 0;
       attack_duration := 0.5;
       is_hurt := false; hurt_start_time := 0; hurt_duration := 1.0;
       invincibility_duration := 1.5;
       is_invincible := false; invincibility_start_time := 0;
       max_health := 3; current_health := 3;
       sprite := sp; sword_sprite := sw |}
    (on_sprite (AnimatedSprite.play_animation "idle_right" true)).

(** [start_attack()]. *)
Definition start_attack : M t bool :=
  self ← get;
  if is_attacking self || is_hurt self then mret false
  else
    modify (set_is_attacking true);;
    now ← time_time;
    modify (set_attack_start_time now);;
    audio_call (SoundPlay "sword_2");;
    self ← get;
    match facing_direction self with
    | right =>
        on_sword_sprite (AnimatedSprite.play_animation "attack_right" true)
    | left =>
        on_sword_sprite (AnimatedSprite.play_animation "attack_left" true)
    end;;
    mret true.

(** [take_damage(damage=1)]. *)
Definition take_damage (damage : Z) : M t bool :=
  self ← get;
  if is_invincible self || is_hurt self then mret false
  else
    modify (fun s => set_current_health (current_health s - damage) s);;
    self ← get;
    (if current_health self <? 0 then modify (set_current_health 0)
     else mret tt);;
    modify (set_is_hurt true);;
    now ← time_time;
    modify (set_hurt_start_time now);;
    modify (set_is_invincible true);;
    now ← time_time;
    modify (set_invincibility_start_time now);;
    modify (set_is_attacking false);;
    self ← get;
    match facing_direction self with
    | right => on_sprite (AnimatedSprite.play_animation "hurt_right" true)
    | left => on_sprite (AnimatedSprite.play_animation "hurt_left" true)
    end;;
    self ← get;
    print (PlayerTookDamage damage (current_health self) (max_health self));;
    mret true.

(** [is_dead()]. *)
Definition is_dead (self : t) : bool := current_health self <=? 0.

(** [get_rect()]. *)
Definition get_rect (self : t) : Rect :=
  {| rect_x := x self; rect_y := y self;
     rect_w := TILE_SIZE; rect_h := TILE_SIZE |}.

(** [update()], from [# Update invincibility state] to the end: what runs
    when the hurt branch does not return early. *)
Definition update_states (current_time : Q) : M t unit :=
  self ← get;
  (if is_invincible self then
     if Qge_bool (current_time - invincibility_start_time self)
          (invincibility_duration self)
     then modify (set_is_invincible false)
     else mret tt
   else mret tt);;
  self ← get;
  (if is_attacking self then
     if Qge_bool (current_time - attack_start_time self)
          (attack_duration self)
     then modify (set_is_attacking false)
     else on_sword_sprite AnimatedSprite.update
   else mret tt);;
  self ← get;
  (if is_moving self then modify (set_movement_timer (current_time + 0.3))
   else mret tt);;
  self ← get;
  let show_walking := Qlt_bool current_time (movement_timer self) in
  (if negb (is_attacking self) && negb (is_hurt self) then
     match show_walking, facing_direction self with
     | true, right =>
         on_sprite (AnimatedSprite.play_animation "walk_right" false)
     | true, left =>
         on_sprite (AnimatedSprite.play_animation "walk_left" false)
     | false, right =>
         on_sprite (AnimatedSprite.play_animation "idle_right" false)
     | false, left =>
         on_sprite (AnimatedSprite.play_animation "idle_left" false)
     end
   else mret tt);;
  on_sprite AnimatedSprite.update;;
  modify (set_is_moving false).

(** [update()]. *)
Definition update : M t unit :=
  current_time ← time_time;
  self ← get;
  if is_hurt self then
    if Qge_bool (current_time - hurt_start_time self) (hurt_duration self)
    then
      modify (set_is_hurt false);;
      update_states current_time
    else on_sprite AnimatedSprite.update
  else update_states current_time.

(** [can_move(current_time)]. *)
Definition can_move (self : t) (current_time : Q) : bool :=
  if is_attacking self || is_hurt self then false
  else Qge_bool (current_time - last_move_time self) MOVEMENT_COOLDOWN.

(** [move(dx, dy, level_width, level_height, current_time)]. *)
Definition move (dx dy level_width level_height : Z) (current_time : Q)
  : M t bool :=
  self ← get;
  if negb (can_move self current_time) then mret false
  else if negb (dx =? 0) && negb (dy =? 0) then mret false
  else
    (if dx >? 0 then modify (set_facing_direction right)
     else if dx <? 0 then modify (set_facing_direction left)
     else mret tt);;
    self ← get;
    let new_x := x self + dx * TILE_SIZE in
    let new_y := y self + dy * TILE_SIZE in
    moved ←
      (if negb (dx =? 0) then
         if (new_x >=? 0) && (new_x <=? level_width - TILE_SIZE)
         then modify (set_x new_x);; mret true
         else mret false
       else if negb (dy =? 0) then
         if (new_y >=? 0) && (new_y <=? level_height - TILE_SIZE)
         then modify (set_y new_y);; mret true
         else mret false
       else mret false);
    if moved : bool then
      modify (set_last_move_time current_time);;
      modify (set_is_moving true);;
      mret true
    else mret false.

End Player.

(** ** class Enemy *)

(** [movement_state]: ["moving"] or ["idle"]. *)
Inductive MovementState : Type := moving | idle.

Module Enemy.

Record t := {
  x : Z;
  y : Z;
  enemy_type : pyval;
  enemy_movement : pyval;
  blocks : Z;
  start_x : Z;
  start_y : Z;
  facing_direction : Facing;
  movement_state : MovementState;
  blocks_moved : Z;
  idle_start_time : Q;
  idle_duration : Q;
  last_move_time : Q;
  move_cooldown : Q;
  sprite : AnimatedSprite.t }.

Definition set_x (v : Z) (s : t) : t :=
  {| x := v; y := y s; enemy_type := enemy_type s;
     enemy_movement := enemy_movement s; blocks := blocks s;
     start_x := start_x s; start_y := start_y s;
     facing_direction := facing_direction s;
     movement_state := movement_state s; blocks_moved := blocks_moved s;
     idle_start_time := idle_start_time s;
     idle_duration := idle_duration s;
     last_move_time := last_move_time s;
     move_cooldown := move_cooldown s; sprite := sprite s |}.

Definition set_y (v : Z) (s : t) : t :=
  {| x := x s; y := v; enemy_type := enemy_type s;
     enemy_movement := enemy_movement s; blocks := blocks s;
     start_x := start_x s; start_y := start_y s;
     facing_direction := facing_direction s;
     movement_state := movement_state s; blocks_moved := blocks_moved s;
     idle_start_time := idle_start_time s;
     idle_duration := idle_duration s;
     last_move_time := last_move_time s;
     move_cooldown := move_cooldown s; sprite := sprite s |}.

Definition set_facing_direction (v : Facing) (s : t) : t :=
  {| x := x s; y := y s; enemy_type := enemy_type s;
     enemy_movement := enemy_movement s; blocks := blocks s;
     start_x := start_x s; start_y := start_y s; facing_direction := v;
     movement_state := movement_state s; blocks_moved := blocks_moved s;
     idle_start_time := idle_start_time s;
     idle_duration := idle_duration s;
     last_move_time := last_move_time s;
     move_cooldown := move_cooldown s; sprite := sprite s |}.

Definition set_movement_state (v : MovementState) (s : t) : t :=
  {| x := x s; y := y s; enemy_type := enemy_type s;
     enemy_movement := enemy_movement s; blocks := blocks s;
     start_x := start_x s; start_y := start_y s;
     facing_direction := facing_direction s; movement_state := v;
     blocks_moved := blocks_moved s;
     idle_start_time := idle_start_time s;
     idle_duration := idle_duration s;
     last_move_time := last_move_time s;
     move_cooldown := move_cooldown s; sprite := sprite s |}.

Definition set_blocks_moved (v : Z) (s : t) : t :=
  {| x := x s; y := y s; enemy_type := enemy_type s;
     enemy_movement := enemy_movement s; blocks := blocks s;
     start_x := start_x s; start_y := start_y s;
     facing_direction := facing_direction s;
     movement_state := movement_state s; blocks_moved := v;
     idle_start_time := idle_start_time s;
     idle_duration := idle_duration s;
     last_move_time := last_move_time s;
     move_cooldown := move_cooldown s; sprite := sprite s |}.

Definition set_idle_start_time (v : Q) (s : t) : t :=
  {| x := x s; y := y s; enemy_type := enemy_type s;
     enemy_movement := enemy_movement s; blocks := blocks s;
     start_x := start_x s; start_y := start_y s;
     facing_direction := facing_direction s;
     movement_state := movement_state s; blocks_moved := blocks_moved s;
     idle_start_time := v; idle_duration := idle_duration s;
     last_move_time := last_move_time s;
     move_cooldown := move_cooldown s; sprite := sprite s |}.

Definition set_last_move_time (v : Q) (s : t) : t :=
  {| x := x s; y := y s; enemy_type := enemy_type s;
     enemy_movement := enemy_movement s; blocks := blocks s;
     start_x := start_x s; start_y := start_y s;
     facing_direction := facing_direction s;
     movement_state := movement_state s; blocks_moved := blocks_moved s;
     idle_start_time := idle_start_time s;
     idle_duration := idle_duration s; last_move_time := v;
     move_cooldown := move_cooldown s; sprite := sprite s |}.

Definition set_sprite (v : AnimatedSprite.t) (s : t) : t :=
  {| x := x s; y := y s; enemy_type := enemy_type s;
     enemy_movement := enemy_movement s; blocks := blocks s;
     start_x := start_x s; start_y := start_y s;
     facing_direction := facing_direction s;
     movement_state := movement_state s; blocks_moved := blocks_moved s;
     idle_start_time := idle_start_time s;
     idle_duration := idle_duration s;
     last_move_time := last_move_time s;
     move_cooldown := move_cooldown s; sprite := v |}.


Definition enemy_animations : gmap string AnimatedSprite.AnimData :=
  list_to_map
    [ ("idle_right"%string,
       {| AnimatedSprite.frames := [(0, 0); (0, 1)];
          AnimatedSprite.duration := 0.6;
          AnimatedSprite.loop := Some true |});
      ("idle_left"%string,
       {| AnimatedSprite.frames := [(1, 0); (1, 1)];
          AnimatedSprite.duration := 0.6;
          AnimatedSprite.loop := Some true |});
      ("walk_right"%string,
       {| AnimatedSprite.frames := [(2, 0); (2, 1); (2, 2)];
          AnimatedSprite.duration := 0.4;
          AnimatedSprite.loop := Some true |});
      ("walk_left"%string,
       {| AnimatedSprite.frames := [(3, 0); (3, 1); (3, 2)];
          AnimatedSprite.duration := 0.4;
          AnimatedSprite.loop := Some true |}) ].

Definition on_sprite {A} (m : M AnimatedSprite.t A) : M t A :=
  zoom sprite set_sprite m.

(** [__init__(x, y, enemy_type, enemy_movement, blocks)]. *)
Definition __init__ {S} (x0 y0 : Q) (etype emovement : pyval) (nblocks : Z)
  : M S t :=
  sp ← AnimatedSprite.__init__ "images/enemy_rat.png" TILE_SIZE
         enemy_animations;
  construct
    {| x := snap_to_grid x0; y := snap_to_grid y0;
       enemy_type := etype; enemy_movement := emovement;
       blocks := nblocks;
       start_x := snap_to_grid x0; start_y := snap_to_grid y0;
       facing_direction := right; movement_state := moving;
       blocks_moved := 0;
       idle_start_time := 0; idle_duration := 3.0;
       last_move_time := 0; move_cooldown := 0.3;
       sprite := sp |}
    (on_sprite (AnimatedSprite.play_animation "walk_right" true)).

(** [get_rect()]. *)
Definition get_rect (self : t) : Rect :=
  {| rect_x := x self; rect_y := y self;
     rect_w := TILE_SIZE; rect_h := TILE_SIZE |}.

(** The four places that pick an animation by movement type and facing:
    [right_name] when facing right, [left_name] when facing left, nothing
    when the movement type is neither ["horizontal"] nor ["vertical"]. *)
Definition play_facing (right_name left_name : string) (reset : bool)
  : M t unit :=
  self ← get;
  if py_eq_str (enemy_movement self) "horizontal" then
    match facing_direction self with
    | right => on_sprite (AnimatedSprite.play_animation right_name reset)
    | left => on_sprite (AnimatedSprite.play_animation left_name reset)
    end
  else if py_eq_str (enemy_movement self) "vertical" then
    match facing_direction self with
    | right => on_sprite (AnimatedSprite.play_animation right_name reset)
    | left => on_sprite (AnimatedSprite.play_animation left_name reset)
    end
  else mret tt.

(** [update(level_loader=None)].  The loader is used for one thing, its
    [is_position_blocked] query, so that query is what is passed. *)
Definition update (level_loader : option (Z -> Z -> result bool))
  : M t unit :=
  current_time ← time_time;
  self ← get;
  match movement_state self with
  | moving =>
      if Qge_bool (current_time - last_move_time self) (move_cooldown self)
      then
        let dx :=
          if py_eq_str (enemy_movement self) "horizontal" then
            match facing_direction self with right => 1 | left => -1 end
          else 0 in
        let dy :=
          if py_eq_str (enemy_movement self) "horizontal" then 0
          else if py_eq_str (enemy_movement self) "vertical" then
            match facing_direction self with right => 1 | left => -1 end
          else 0 in
        let new_x := x self + dx * TILE_SIZE in
        let new_y := y self + dy * TILE_SIZE in
        can_move ←
          match level_loader with
          | Some is_position_blocked =>
              blocked ← lift (is_position_blocked new_x new_y);
              mret (negb blocked)
          | None => mret true
          end;
        if can_move : bool then
          modify (set_x new_x);;
          modify (set_y new_y);;
          modify (fun s => set_blocks_moved (blocks_moved s + 1) s);;
          modify (set_last_move_time current_time);;
          self ← get;
          if blocks_moved self >=? blocks self then
            modify (set_movement_state idle);;
            modify (set_idle_start_time current_time);;
            modify (set_blocks_moved 0);;
            play_facing "idle_right" "idle_left" true
          else mret tt
        else
          modify (set_movement_state idle);;
          modify (set_idle_start_time current_time);;
          modify (set_blocks_moved 0);;
          play_facing "idle_right" "idle_left" true
      else play_facing "walk_right" "walk_left" false
  | idle =>
      if Qge_bool (current_time - idle_start_time self) (idle_duration self)
      then
        modify (fun s =>
          set_facing_direction
            (match facing_direction s with right => left | left => right end)
            s);;
        modify (set_movement_state moving);;
        modify (set_last_move_time current_time);;
        play_facing "walk_right" "walk_left" true
      else mret tt
  end;;
  on_sprite AnimatedSprite.update.

(** [draw(screen, camera_x, camera_y)]: the state is the screen. *)
Definition draw (self : t) (camera_x camera_y : Z) : M Surface unit :=
  let screen_x := x self - camera_x in
  let screen_y := y self - camera_y in
  current_frame ← lift (AnimatedSprite.get_current_frame (sprite self));
  match current_frame with
  | Some frame => modify (blit frame (screen_x, screen_y))
  | None => mret tt
  end.

End Enemy.

(** ** class AnimatedTile *)
Module AnimatedTile.

Record t := {
  x : Z;
  y : Z;
  tile_gid : Z;
  tmx_data : TiledMap;
  current_frame : Z;
  last_frame_time : Q;
  frames : list Surface;
  frame_duration : Q }.

Definition set_current_frame (v : Z) (s : t) : t :=
  {| x := x s; y := y s; tile_gid := tile_gid s; tmx_data := tmx_data s;
     current_frame := v; last_frame_time := last_frame_time s;
     frames := frames s; frame_duration := frame_duration s |}.

Definition set_last_frame_time (v : Q) (s : t) : t :=
  {| x := x s; y := y s; tile_gid := tile_gid s; tmx_data := tmx_data s;
     current_frame := current_frame s; last_frame_time := v;
     frames := frames s; frame_duration := frame_duration s |}.

Definition set_frames (v : list Surface) (s : t) : t :=
  {| x := x s; y := y s; tile_gid := tile_gid s; tmx_data := tmx_data s;
     current_frame := current_frame s;
     last_frame_time := last_frame_time s; frames := v;
     frame_duration := frame_duration s |}.

Definition set_frame_duration (v : Q) (s : t) : t :=
  {| x := x s; y := y s; tile_gid := tile_gid s; tmx_data := tmx_data s;
     current_frame := current_frame s;
     last_frame_time := last_frame_time s; frames := frames s;
     frame_duration := v |}.


(** The loop over [enumerate(animation_frames)]. *)
Fixpoint load_frames (i : Z) (animation_frames : list AnimationFrame.t)
  : M t unit :=
  match animation_frames with
  | [] => mret tt
  | frame :: rest =>
      print (ProcessingFrame i (AnimationFrame.gid frame) (AnimationFrame.duration frame));;
      self ← get;
      frame_surface ←
        lift (get_tile_image_by_gid (tmx_data self) (AnimationFrame.gid frame));
      match frame_surface with
      | Some surf =>
          modify (fun s => set_frames (frames s ++ [surf]) s);;
          modify (set_frame_duration
                    (inject_Z (AnimationFrame.duration frame) / 1000));;
          self ← get;
          print (AddedFrame i (frame_duration self))
      | None => print (WarnNoFrameSurface (AnimationFrame.gid frame))
      end;;
      load_frames (i + 1) rest
  end.

(** [_load_animation_data()], from [# If no animation found] to the end
    of the [try] body. *)
Definition load_static_tile : M t unit :=
  print NoAnimationFrames;;
  self ← get;
  static_tile ← lift (get_tile_image_by_gid (tmx_data self) (tile_gid self));
  match static_tile with
  | Some surf => modify (set_frames [surf]);; print AddedStaticTile
  | None => print ErrorNoStaticTile
  end.

(** [_load_animation_data()]. *)
Definition _load_animation_data : M t unit :=
  try_except
    (self ← get;
     print (LoadingAnimationData (tile_gid self));;
     tile_props ←
       lift (get_tile_properties_by_gid (tmx_data self) (tile_gid self));
     print (TileProperties tile_props);;
     match tile_props with
     | Some animation_frames =>
         print (FoundAnimationFrames (len animation_frames));;
         load_frames 0 animation_frames;;
         self ← get;
         match frames self with
         | _ :: _ => print (LoadedAnimationFrames (len (frames self)))
         | [] => load_static_tile
         end
     | None => load_static_tile
     end)
    (fun e =>
       self ← get;
       print (ErrorLoadingAnimation (tile_gid self) e);;
       print (Traceback e);;
       static_tile ←
         lift (get_tile_image_by_gid (tmx_data self) (tile_gid self));
       match static_tile with
       | Some surf => modify (set_frames [surf])
       | None => mret tt
       end).

(** [__init__(x, y, tile_gid, tmx_data)]. *)
Definition __init__ {S} (x0 y0 gid : Z) (tmx : TiledMap) : M S t :=
  now ← time_time;
  construct
    {| x := x0; y := y0; tile_gid := gid; tmx_data := tmx;
       current_frame := 0; last_frame_time := now;
       frames := []; frame_duration := 0.5 |}
    _load_animation_data.

(** [update()]. *)
Definition update : M t unit :=
  self ← get;
  if len (frames self) <=? 1 then mret tt
  else
    current_time ← time_time;
    if Qge_bool (current_time - last_frame_time self) (frame_duration self)
    then
      modify (set_current_frame
                ((current_frame self + 1) `mod` len (frames self)));;
      modify (set_last_frame_time current_time)
    else mret tt.

(** [get_current_frame()]. *)
Definition get_current_frame (self : t) : result (option Surface) :=
  match frames self with
  | [] => Ok None
  | _ :: _ =>
      match py_index (frames self) (current_frame self) with
      | Ok frame => Ok (Some frame)
      | Raise e => Raise e
      end
  end.

End AnimatedTile.

(** [toggle_debug_mode()]: the state is the global [DEBUG_MODE_ON]. *)
Definition toggle_debug_mode : M bool unit :=
  modify negb;;
  on ← get;
  print (DebugMode on).

(** ** Built-ins used by the loader *)

(** [str.lower()], on the ASCII letters. *)
Definition lower_ascii (c : ascii) : ascii :=
  let n := nat_of_ascii c in
  if (65 <=? n)%nat && (n <=? 90)%nat then ascii_of_nat (n + 32) else c.

Fixpoint lower (s : string) : string :=
  match s with
  | EmptyString => EmptyString
  | String c r => String (lower_ascii c) (lower r)
  end.

(** [int(v)].  On a string: blanks around, an optional sign, then decimal
    digits with single underscores between them; anything else is a
    [ValueError].  Only the ASCII blanks and digits are read as such. *)
Definition is_space (c : ascii) : bool :=
  let n := nat_of_ascii c in
  ((9 <=? n)%nat && (n <=? 13)%nat) || ((28 <=? n)%nat && (n <=? 32)%nat).

Definition digit_value (c : ascii) : option Z :=
  let n := nat_of_ascii c in
  if (48 <=? n)%nat && (n <=? 57)%nat then Some (Z.of_nat (n - 48)) else None.

Fixpoint lstrip (s : string) : string :=
  match s with
  | String c r => if is_space c then lstrip r else s
  | EmptyString => EmptyString
  end.

Fixpoint rstrip (s : string) : string :=
  match s with
  | String c r =>
      match rstrip r with
      | EmptyString => if is_space c then EmptyString else String c EmptyString
      | r' => String c r'
      end
  | EmptyString => EmptyString
  end.

Fixpoint digits (acc : Z) (after_digit : bool) (s : string) : option Z :=
  match s with
  | EmptyString => if after_digit then Some acc else None
  | String c r =>
      match digit_value c with
      | Some d => digits (acc * 10 + d) true r
      | None =>
          if Ascii.eqb c "_" && after_digit then digits acc false r else None
      end
  end.

Definition int_of_str (s : string) : option Z :=
  match rstrip (lstrip s) with
  | String "-" r => Z.opp <$> digits 0 false r
  | String "+" r => digits 0 false r
  | r => digits 0 false r
  end.

Definition py_int (v : pyval) : result Z :=
  match v with
  | PInt z => Ok z
  | PFloat q => Ok (if Qle_bool 0 q then Qfloor q else Qceiling q)
  | PBool b => Ok (if b then 1 else 0)
  | PStr s =>
      match int_of_str s with
      | Some z => Ok z
      | None => Raise ValueError
      end
  end.

(** [os.path.join(a, b)] of [posixpath]: an absolute [b] replaces [a]. *)
Definition ends_with_slash (s : string) : bool :=
  match String.length s with
  | O => false
  | Datatypes.S n => String.eqb (String.substring n 1 s) "/"
  end.

Definition path_join (a b : string) : string :=
  if String.prefix "/" b then b
  else if String.eqb a EmptyString || ends_with_slash a then (a ++ b)%string
  else (a ++ "/" ++ b)%string.

(** [os.path.exists(os.path.join("music", f"{v}.ogg"))]. *)
Definition music_file_exists {S} (v : pyval) : M S bool :=
  fun s w => (Ok (ogg_exists w v), s, w).

(** Each element of a list of objects is mutated in turn by [m]; an
    exception stops the walk and keeps what was mutated so far. *)
Fixpoint traverse {T} (m : M T unit) (l : list T) (w : World)
  : result unit * list T * World :=
  match l with
  | [] => (Ok tt, [], w)
  | o :: rest =>
      match m o w with
      | (Ok _, o', w') =>
          match traverse m rest w' with
          | (r, rest', w'') => (r, o' :: rest', w'')
          end
      | (Raise e, o', w') => (Raise e, o' :: rest, w')
      end
  end.

(** ** class UI *)
Module UI.

Record t := {
ui_spritesheet : Surface;
full_heart : Surface;
heart_start_x : Z;
heart_start_y : Z;
heart_spacing : Z }.

(** [__init__()]. *)
Definition __init__ {S} : M S t :=
  sheet ← image_load "images/ui_hud.png";
  heart ← lift (subsurface sheet 0 0 TILE_SIZE TILE_SIZE);
  mret {| ui_spritesheet := sheet; full_heart := heart;
          heart_start_x := 16; heart_start_y := 16;
          heart_spacing := TILE_SIZE |}.

(** [draw(screen, player)]: the state is the screen. *)
Definition draw (self : t) (player : Player.t) : M Surface unit :=
  for_each (range (Player.max_health player)) (fun i =>
    let heart_x := heart_start_x self + i * heart_spacing self in
    let heart_y := heart_start_y self in
    if i <? Player.current_health player
    then modify (blit (full_heart self) (heart_x, heart_y))
    else mret tt).

End UI.

(** ** class LevelLoader *)

(** The objects kept in [entities]. *)
Inductive Entity : Type :=
| a_player (p : Player.t)
| an_enemy (e : Enemy.t).

Module LevelLoader.

(** [entities] is the list that owns the entity objects.  [player] is the
    second reference to one of them: it is kept as the position of that
    object in [entities], so that a mutation through either reference is
    seen through the other.  The code assigns [player] only the object it
    has just appended, and [None] when it empties the list; a position that
    does not hold a player is read as no player. *)
Record t := {
  level_sequence : list string;
  current_level_index : nat;
  tmx_data : option TiledMap;
  bg_surface : option Surface;
  camera_x : Z;
  camera_y : Z;
  entities : list Entity;
  player : option nat;
  collision_grid : list (list bool);
  animated_tiles : list AnimatedTile.t;
  ui : UI.t }.

Definition set_current_level_index (v : nat) (s : t) : t :=
  {| level_sequence := level_sequence s; current_level_index := v;
     tmx_data := tmx_data s; bg_surface := bg_surface s;
     camera_x := camera_x s; camera_y := camera_y s;
     entities := entities s; player := player s;
     collision_grid := collision_grid s;
     animated_tiles := animated_tiles s; ui := ui s |}.

Definition set_tmx_data (v : option TiledMap) (s : t) : t :=
  {| level_sequence := level_sequence s;
     current_level_index := current_level_index s; tmx_data := v;
     bg_surface := bg_surface s; camera_x := camera_x s;
     camera_y := camera_y s; entities := entities s; player := player s;
     collision_grid := collision_grid s;
     animated_tiles := animated_tiles s; ui := ui s |}.

Definition set_bg_surface (v : option Surface) (s : t) : t :=
  {| level_sequence := level_sequence s;
     current_level_index := current_level_index s;
     tmx_data := tmx_data s; bg_surface := v; camera_x := camera_x s;
     camera_y := camera_y s; entities := entities s; player := player s;
     collision_grid := collision_grid s;
     animated_tiles := animated_tiles s; ui := ui s |}.

Definition set_entities (v : list Entity) (s : t) : t :=
  {| level_sequence := level_sequence s;
     current_level_index := current_level_index s;
     tmx_data := tmx_data s; bg_surface := bg_surface s;
     camera_x := camera_x s; camera_y := camera_y s; entities := v;
     player := player s; collision_grid := collision_grid s;
     animated_tiles := animated_tiles s; ui := ui s |}.

Definition set_player (v : option nat) (s : t) : t :=
  {| level_sequence := level_sequence s;
     current_level_index := current_level_index s;
     tmx_data := tmx_data s; bg_surface := bg_surface s;
     camera_x := camera_x s; camera_y := camera_y s;
     entities := entities s; player := v;
     collision_grid := collision_grid s;
     animated_tiles := animated_tiles s; ui := ui s |}.

Definition set_collision_grid (v : list (list bool)) (s : t) : t :=
  {| level_sequence := level_sequence s;
     current_level_index := current_level_index s;
     tmx_data := tmx_data s; bg_surface := bg_surface s;
     camera_x := camera_x s; camera_y := camera_y s;
     entities := entities s; player := player s; collision_grid := v;
     animated_tiles := animated_tiles s; ui := ui s |}.

Definition set_animated_tiles (v : list AnimatedTile.t) (s : t) : t :=
  {| level_sequence := level_sequence s;
     current_level_index := current_level_index s;
     tmx_data := tmx_data s; bg_surface := bg_surface s;
     camera_x := camera_x s; camera_y := camera_y s;
     entities := entities s; player := player s;
     collision_grid := collision_grid s; animated_tiles := v;
     ui := ui s |}.


(** The object behind [self.player]. *)
Definition the_player (self : t) : option Player.t :=
  match player self with
  | Some i =>
      match entities self !! i with
      | Some (a_player p) => Some p
      | _ => None
      end
  | None => None
  end.

(** A method call [self.player.m(...)]; on [None] Python raises
    [AttributeError]. *)
Definition on_player {A} (m : M Player.t A) : M t A :=
  fun s w =>
    match player s, the_player s with
    | Some i, Some p =>
        match m p w with
        | (r, p', w') => (r, set_entities (<[i := a_player p']> (entities s)) s, w')
        end
    | _, _ => (Raise AttributeError, s, w)
    end.

(** [is_tile_blocked(tile_x, tile_y)]. *)
Definition is_tile_blocked (self : t) (tile_x tile_y : Z) : result bool :=
  if (tile_x <? 0) || (tile_y <? 0)
     || (tile_y >=? len (collision_grid self))
  then Ok true
  else
    match collision_grid self !! 0%nat with
    | None => Raise IndexError
    | Some row0 =>
        if tile_x >=? len row0 then Ok true
        else
          match collision_grid self !! Z.to_nat tile_y with
          | None => Raise IndexError
          | Some row =>
              match row !! Z.to_nat tile_x with
              | None => Raise IndexError
              | Some b => Ok b
              end
          end
    end.

(** [is_position_blocked(pixel_x, pixel_y)]. *)
Definition is_position_blocked (self : t) (pixel_x pixel_y : Z)
  : result bool :=
  let tile_x := pixel_x `div` TILE_SIZE in
  let tile_y := pixel_y `div` TILE_SIZE in
  is_tile_blocked self tile_x tile_y.

(** The loop of [check_player_enemy_collisions()] over [self.entities]:
    it ends at the first enemy whose rectangle meets the player's. *)
Fixpoint collision_loop (player_rect : Rect) (es : list Entity) : M t unit :=
  match es with
  | [] => mret tt
  | an_enemy e :: rest =>
      let enemy_rect := Enemy.get_rect e in
      if colliderect player_rect enemy_rect then
        hit ← on_player (Player.take_damage 1);
        if hit : bool then
          print PlayerHitByEnemy;;
          self ← get;
          match the_player self with
          | Some p => if Player.is_dead p then print GameOver else mret tt
          | None => raise AttributeError
          end
        else mret tt
      else collision_loop player_rect rest
  | a_player _ :: rest => collision_loop player_rect rest
  end.

(** [check_player_enemy_collisions()]. *)
Definition check_player_enemy_collisions : M t unit :=
  self ← get;
  match the_player self with
  | None => mret tt
  | Some p =>
      if Player.is_invincible p then mret tt
      else
        let player_rect := Player.get_rect p in
        collision_loop player_rect (entities self)
  end.

(** The first layer with the given name, asked to have [data] or not. *)
Definition find_layer (name : string) (with_data : bool) (tmx : TiledMap)
  : option Layer :=
  find (fun l => String.eqb (layer_name l) name
                 && (negb with_data || has_data l))
       (layers tmx).

(** What iterating a tile layer yields. *)
Definition layer_cells (l : Layer) : list (Z * Z * Z) :=
  match l with
  | TileLayer _ data => data
  | _ => []
  end.

(** [_create_collision_grid()]. *)
Definition _create_collision_grid : M t unit :=
  self ← get;
  match tmx_data self with
  | None => mret tt
  | Some tmx =>
      let grid_width := tmx_width tmx in
      let grid_height := tmx_height tmx in
      modify (set_collision_grid
                (replicate (Z.to_nat grid_height)
                   (replicate (Z.to_nat grid_width) false)));;
      match find_layer "colliders" true tmx with
      | None => print WarnCollidersNotFound
      | Some colliders_layer =>
          for_each (layer_cells colliders_layer) (fun '(x, y, gid) =>
            if negb (gid =? 0) then
              if (0 <=? y) && (y <? grid_height)
                 && (0 <=? x) && (x <? grid_width)
              then
                modify (fun s =>
                  set_collision_grid
                    (alter (<[Z.to_nat x := true]>) (Z.to_nat y)
                       (collision_grid s)) s)
              else mret tt
            else mret tt);;
          print (CreatedCollisionGrid grid_width grid_height)
      end
  end.

(** [_render_background()]. *)
Definition _render_background : M t unit :=
  self ← get;
  match tmx_data self with
  | None => mret tt
  | Some tmx =>
      let level_width := tmx_width tmx * tilewidth tmx in
      let level_height := tmx_height tmx * tileheight tmx in
      surf ← lift (new_surface level_width level_height);
      modify (set_bg_surface (Some surf));;
      for_each ["background"%string; "colliders"%string] (fun name =>
        match find_layer name true tmx with
        | None => print (WarnLayerNotFound name)
        | Some layer =>
            for_each (layer_cells layer) (fun '(x, y, gid) =>
              if negb (gid =? 0) then
                tile ← lift (get_tile_image_by_gid tmx gid);
                match tile with
                | Some img =>
                    modify (fun s =>
                      set_bg_surface
                        (blit img (x * tilewidth tmx, y * tileheight tmx)
                           <$> bg_surface s) s)
                | None => mret tt
                end
              else mret tt)
        end)
  end.

(** [_load_level_music(music_filename)]. *)
Definition _load_level_music (music_filename : pyval) : M t unit :=
  try_except
    (audio_call MusicStop;;
     found ← music_file_exists music_filename;
     if found : bool then
       audio_call (MusicPlay music_filename);;
       print (PlayingMusic music_filename)
     else print (WarnMusicNotFound music_filename))
    (fun e => print (ErrorLoadingMusic music_filename e)).

(** The body of the loop of [_load_entities()] for one placed object. *)
Definition load_entity (obj : TiledObject) : M t unit :=
  let entity_name :=
    match obj_name obj with
    | Some n => if String.eqb n EmptyString then EmptyString else lower n
    | None => EmptyString
    end in
  let props := obj_properties obj in
  if String.eqb entity_name "player" then
    p ← Player.__init__ (obj_x obj) (obj_y obj);
    modify (fun s => set_entities (entities s ++ [a_player p]) s);;
    modify (fun s => set_player (Some (length (entities s) - 1)%nat) s);;
    print (CreatedPlayer (obj_x obj) (obj_y obj))
  else if String.eqb entity_name "enemy" then
    let enemy_type := default (PStr "rat") (props !! "enemy_type") in
    let enemy_movement :=
      default (PStr "horizontal") (props !! "enemy_movement") in
    let blocks := default (PInt 2) (props !! "blocks") in
    let '(enemy_type, enemy_movement, blocks) :=
      match props !! "enemy_type" with
      | None =>
          (default (PStr "rat") (props !! "enemy_type"),
           default (PStr "horizontal") (props !! "enemy_movement"),
           default (PInt 2) (props !! "blocks"))
      | Some _ => (enemy_type, enemy_movement, blocks)
      end in
    nblocks ← lift (py_int blocks);
    e ← Enemy.__init__ (obj_x obj) (obj_y obj) enemy_type enemy_movement
          nblocks;
    modify (fun s => set_entities (entities s ++ [an_enemy e]) s);;
    print (CreatedEnemy (obj_x obj) (obj_y obj) enemy_type enemy_movement
             blocks)
  else if String.eqb entity_name "info" then
    match props !! "music" with
    | Some music_file =>
        if truthy music_file then
          _load_level_music music_file;;
          print (FoundMusicSetting music_file)
        else print NoMusicProperty
    | None => print NoMusicProperty
    end
  else print (UnknownEntityType entity_name).

(** [_load_entities()].  An object group is a list, so an empty one is
    falsy and reported as not found; walking a tile layer yields tuples,
    which have no [name]; an image layer cannot be walked. *)
Definition _load_entities : M t unit :=
  modify (set_entities []);;
  modify (set_player None);;
  self ← get;
  match tmx_data self with
  | None => mret tt
  | Some tmx =>
      match find_layer "entities" false tmx with
      | None | Some (ObjectGroup _ []) => print WarnEntitiesNotFound
      | Some (ObjectGroup _ objs) => for_each objs load_entity
      | Some (TileLayer _ []) => mret tt
      | Some (TileLayer _ (_ :: _)) => raise AttributeError
      | Some (ImageLayer _) => raise TypeError
      end
  end.

(** [_load_animated_tiles()]. *)
Definition _load_animated_tiles : M t unit :=
  modify (set_animated_tiles []);;
  self ← get;
  match tmx_data self with
  | None => mret tt
  | Some tmx =>
      match find_layer "animated" true tmx with
      | None => print WarnAnimatedNotFound
      | Some animated_layer =>
          for_each (layer_cells animated_layer) (fun '(x, y, gid) =>
            if negb (gid =? 0) then
              let pixel_x := x * tilewidth tmx in
              let pixel_y := y * tileheight tmx in
              animated_tile ← AnimatedTile.__init__ pixel_x pixel_y gid tmx;
              modify (fun s =>
                set_animated_tiles (animated_tiles s ++ [animated_tile]) s)
            else mret tt);;
          self ← get;
          print (LoadedAnimatedTiles (len (animated_tiles self)))
      end
  end.

(** [load_current_level()]. *)
Definition load_current_level : M t bool :=
  self ← get;
  match level_sequence self !! current_level_index self with
  | None => mret false
  | Some level_name =>
      let tmx_path :=
        path_join (path_join "data" "tmx") (level_name ++ ".tmx")%string in
      try_except
        (tmx ← load_pygame tmx_path;
         modify (set_tmx_data (Some tmx));;
         _create_collision_grid;;
         _render_background;;
         _load_entities;;
         _load_animated_tiles;;
         mret true)
        (fun e =>
           print (ErrorLoadingLevel level_name e);;
           mret false)
  end.

(** [__init__(level_sequence)]. *)
Definition __init__ {S} (sequence : list string) : M S t :=
  the_ui ← UI.__init__;
  construct
    {| level_sequence := sequence; current_level_index := 0%nat;
       tmx_data := None; bg_surface := None;
       camera_x := 0; camera_y := 0;
       entities := []; player := None;
       collision_grid := []; animated_tiles := [];
       ui := the_ui |}
    (load_current_level;; mret tt).

(** [entity.update(...)] as [update()] dispatches it: an enemy is handed
    the loader, any other entity is not. *)
Definition update_entity (self : t) : M Entity unit :=
  fun ent w =>
    match ent with
    | an_enemy e =>
        match Enemy.update (Some (is_position_blocked self)) e w with
        | (r, e', w') => (r, an_enemy e', w')
        end
    | a_player p =>
        match Player.update p w with
        | (r, p', w') => (r, a_player p', w')
        end
    end.

(** [update()].  No entity update changes the collision grid, so the
    loader an enemy queries is the loader as the loop starts. *)
Definition update : M t unit :=
  zoom animated_tiles set_animated_tiles (traverse AnimatedTile.update);;
  self ← get;
  zoom entities set_entities (traverse (update_entity self));;
  check_player_enemy_collisions.

(** [next_level()]. *)
Definition next_level : M t bool :=
  modify (fun s => set_current_level_index (S (current_level_index s)) s);;
  load_current_level.

(** [get_level_size()]. *)
Definition get_level_size (self : t) : Z * Z :=
  match tmx_data self with
  | Some tmx =>
      (tmx_width tmx * tilewidth tmx, tmx_height tmx * tileheight tmx)
  | None => (0, 0)
  end.

(** [move_player(dx, dy)]. *)
Definition move_player (dx dy : Z) : M t bool :=
  self ← get;
  match the_player self with
  | Some p =>
      let '(level_width, level_height) := get_level_size self in
      let new_x := Player.x p + dx * TILE_SIZE in
      let new_y := Player.y p + dy * TILE_SIZE in
      blocked ← lift (is_position_blocked self new_x new_y);
      if negb blocked then
        ticks ← get_ticks;
        let current_time := (inject_Z ticks / 1000)%Q in
        on_player (Player.move dx dy level_width level_height current_time)
      else mret false
  | None => mret false
  end.

End LevelLoader.

(** ** The module level: the globals and the [update] hook of Pygame Zero *)
Module Main.

(** The keys the hook looks at. *)
Record Keyboard := {
d : bool;
space : bool;
left_key : bool;
right_key : bool;
up : bool;
down : bool }.

(** The two globals: [level_loader] and [DEBUG_MODE_ON]. *)
Record t := {
level_loader : LevelLoader.t;
DEBUG_MODE_ON : bool }.

Definition set_level_loader (v : LevelLoader.t) (s : t) : t :=
  {| level_loader := v; DEBUG_MODE_ON := DEBUG_MODE_ON s |}.

Definition set_DEBUG_MODE_ON (v : bool) (s : t) : t :=
  {| level_loader := level_loader s; DEBUG_MODE_ON := v |}.

(** A method of the global [level_loader]. *)
Definition on_loader {A} (m : M LevelLoader.t A) : M t A :=
  zoom level_loader set_level_loader m.

(** [update()].  [time.sleep] lets time pass and does nothing else; the
    clock readings of the world are whatever they are after it. *)
Definition update (keyboard : Keyboard) : M t unit :=
  on_loader LevelLoader.update;;
  (if d keyboard
   then zoom DEBUG_MODE_ON set_DEBUG_MODE_ON toggle_debug_mode
   else mret tt);;
  (if space keyboard then
     self ← get;
     match LevelLoader.the_player (level_loader self) with
     | Some _ =>
         on_loader (LevelLoader.on_player Player.start_attack);; mret tt
     | None => mret tt
     end
   else mret tt);;
  self ← get;
  if negb (match LevelLoader.the_player (level_loader self) with
           | Some p => Player.is_attacking p
           | None => false
           end)
  then
    if left_key keyboard
       && negb (right_key keyboard || up keyboard || down keyboard)
    then on_loader (LevelLoader.move_player (-1) 0);; mret tt
    else if right_key keyboard
            && negb (left_key keyboard || up keyboard || down keyboard)
    then on_loader (LevelLoader.move_player 1 0);; mret tt
    else if up keyboard
            && negb (left_key keyboard || right_key keyboard || down keyboard)
    then on_loader (LevelLoader.move_player 0 (-1));; mret tt
    else if down keyboard
            && negb (left_key keyboard || right_key keyboard || up keyboard)
    then on_loader (LevelLoader.move_player 0 1);; mret tt
    else mret tt
  else mret tt.

End Main.
(** * Vocabulary of the specification, and sample objects *)

(** ** Outcomes *)

(** The three parts of a run's outcome. *)
Definition result_of {S A} (o : result A * S * World) : result A := o.1.1.

Definition state_of {S A} (o : result A * S * World) : S := o.1.2.

Definition world_of {S A} (o : result A * S * World) : World := o.2.

(** The value a constructor returns, when it returns. *)
Definition ok_value {S A} (o : result A * S * World)
  : match result_of o with Ok _ => A | Raise _ => unit end :=
  match o with
  | (Ok a, _, _) => a
  | (Raise _, _, _) => tt
  end.

(** [wp m Q s w]: running [m] from [s] in world [w] ends in an outcome
    that satisfies [Q]. *)
Definition wp {S A} (m : M S A) (Q : result A -> S -> World -> Prop)
    (s : S) (w : World) : Prop :=
  Q (result_of (m s w)) (state_of (m s w)) (world_of (m s w)).

(** [stable f m]: no run of [m] changes the observation [f] of the state,
    whether it returns or raises. *)
Definition stable {S A X} (f : S -> X) (m : M S A) : Prop :=
  forall s w, f (state_of (m s w)) = f s.

(** ** Sprites *)


(** ** The player *)

(** The facing a call of [move] with horizontal component [dx] sets. *)
Definition facing_after (dx : Z) (old : Facing) : Facing :=
  if dx >? 0 then right else if dx <? 0 then left else old.

(** A run of [move] calls, one every [dt] seconds from [t] on, and how
    many of them were accepted. *)
Fixpoint move_calls (requests : list (Z * Z * Z * Z)) (t dt : Q)
  : M Player.t (list bool) :=
  match requests with
  | [] => mret []
  | (dx, dy, lw, lh) :: rest =>
      b ← Player.move dx dy lw lh t;
      bs ← move_calls rest (t + dt) dt;
      mret (b :: bs)
  end.

Definition accepted (bs : list bool) : nat := count_occ bool_dec bs true.

(** What no method of the player but [take_damage] changes. *)
Definition vitals (p : Player.t) :=
  (Player.current_health p, Player.max_health p, Player.hurt_duration p,
   Player.invincibility_duration p, Player.hurt_start_time p,
   Player.invincibility_start_time p).

(** What [update] leaves alone besides the vitals. *)
Definition placement (p : Player.t) :=
  (Player.x p, Player.y p, Player.facing_direction p,
   Player.last_move_time p).

(** The hurt and invincible flags. *)
Definition shield (p : Player.t) :=
  (Player.is_hurt p, Player.is_invincible p).

(** The calls the game makes on a player, and a run of them, each in a
    world of its own: between two calls anything may have happened
    outside the player. *)
Inductive PlayerCall : Type :=
| CallUpdate
| CallMove (dx dy level_width level_height : Z) (current_time : Q)
| CallStartAttack
| CallTakeDamage (damage : Z).

Definition call (c : PlayerCall) : M Player.t unit :=
  match c with
  | CallUpdate => Player.update
  | CallMove dx dy lw lh t => Player.move dx dy lw lh t;; mret tt
  | CallStartAttack => Player.start_attack;; mret tt
  | CallTakeDamage d => Player.take_damage d;; mret tt
  end.

(** [plays p p']: some calls take the player from [p] to [p']. *)
Inductive plays : Player.t -> Player.t -> Prop :=
| plays_nil p : plays p p
| plays_cons p c w p' : plays (state_of (call c p w)) p' -> plays p p'.

(** [plays_before limit p p']: some calls, each made while the clock
    reads less than [limit], take the player from [p] to [p']. *)
Inductive plays_before (limit : Q) : Player.t -> Player.t -> Prop :=
| plays_none p : plays_before limit p p
| plays_call p c w p' :
    (wall_clock w 0 < limit)%Q ->
    plays_before limit (state_of (call c p w)) p' ->
    plays_before limit p p'.

(** ** The enemy *)

(** What the animation calls leave alone: everything but the sprite. *)
Definition enemy_body (e : Enemy.t) :=
  (Enemy.x e, Enemy.y e, Enemy.facing_direction e, Enemy.movement_state e,
   Enemy.blocks_moved e, Enemy.idle_start_time e, Enemy.last_move_time e).

(** The tile-sized step the enemy takes next: along its axis, towards
    where it faces ([right] is also down). *)
Definition next_step (e : Enemy.t) : Z * Z :=
  let d := match Enemy.facing_direction e with right => 1 | left => -1 end in
  if py_eq_str (Enemy.enemy_movement e) "horizontal"
  then (Enemy.x e + d * TILE_SIZE, Enemy.y e)
  else if py_eq_str (Enemy.enemy_movement e) "vertical"
  then (Enemy.x e, Enemy.y e + d * TILE_SIZE)
  else (Enemy.x e, Enemy.y e).

(** ** The loader *)

(** The extent of the collision grid, as [is_tile_blocked] measures it:
    the number of rows, and the length of the first row. *)
Definition grid_height (self : LevelLoader.t) : Z :=
  len (LevelLoader.collision_grid self).

Definition grid_width (self : LevelLoader.t) : Z :=
  match LevelLoader.collision_grid self with
  | [] => 0
  | row0 :: _ => len row0
  end.

(** Does the entity count as a hit on the player's rectangle. *)
Definition hits (player_rect : Rect) (ent : Entity) : bool :=
  match ent with
  | an_enemy e => colliderect player_rect (Enemy.get_rect e)
  | a_player _ => false
  end.

(** The first half of [LevelLoader.update]: the animated tiles, then the
    entities. *)
Definition update_objects : M LevelLoader.t unit :=
  zoom LevelLoader.animated_tiles LevelLoader.set_animated_tiles
    (traverse AnimatedTile.update);;
  self ← get;
  zoom LevelLoader.entities LevelLoader.set_entities
    (traverse (LevelLoader.update_entity self)).

(** What the collision loop does at the first overlap: one
    [take_damage(1)], and the messages. *)
Definition damage_event : M LevelLoader.t unit :=
  hit ← LevelLoader.on_player (Player.take_damage 1);
  if hit : bool then
    print PlayerHitByEnemy;;
    self ← get;
    match LevelLoader.the_player self with
    | Some p => if Player.is_dead p then print GameOver else mret tt
    | None => raise AttributeError
    end
  else mret tt.

(** The file the loader opens for a level. *)
Definition level_path (level_name : string) : string :=
  path_join (path_join "data" "tmx") (level_name ++ ".tmx")%string.

(** The [try] body of [load_current_level]. *)
Definition load_attempt (tmx_path : string) : M LevelLoader.t bool :=
  tmx ← load_pygame tmx_path;
  modify (LevelLoader.set_tmx_data (Some tmx));;
  LevelLoader._create_collision_grid;;
  LevelLoader._render_background;;
  LevelLoader._load_entities;;
  LevelLoader._load_animated_tiles;;
  mret true.

(** ** Sample objects, for concrete runs *)

(** A world at time [t] that serves the given map files: the clock stands
    still while a call runs, every image is a 256 x 256 sheet, there is no
    music file and the audio back end accepts every command. *)
Definition world_with (files : string -> result TiledMap) (t : Q) : World :=
  {| wall_clock := fun _ => t;
     tick_clock := fun n => 1000 * Z.of_nat n;
     image_files := fun path => Ok (Loaded path 256 256);
     tmx_files := files;
     ogg_exists := fun _ => false;
     audio_backend := fun _ => Ok tt;
     audio := [];
     console := [] |}.

(** The same without any map file. *)
Definition world_at (t : Q) : World :=
  world_with (fun _ => Raise FileNotFoundError) t.

Definition sample_world : World := world_at 0.

(** The player as its constructor leaves it, placed at pixel (16, 16). *)
Definition sample_player : Player.t :=
  Eval vm_compute in ok_value (Player.__init__ 16 16 tt sample_world).

(** A rat as its constructor leaves it, placed at tile (5, 5). *)
Definition sample_enemy : Enemy.t :=
  Eval vm_compute in
    ok_value (Enemy.__init__ 80 80 (PStr "rat") (PStr "horizontal") 2 tt
                sample_world).

(** Every cell of a [w] x [h] tile layer, row by row. *)
Definition all_cells (w h : nat) (gid_at : Z -> Z -> Z) : list (Z * Z * Z) :=
  y ← seq 0 h; x ← seq 0 w;
  [(Z.of_nat x, Z.of_nat y, gid_at (Z.of_nat x) (Z.of_nat y))].

(** A level of 8 x 6 tiles: a wall along the top row and a block at
    tile (3, 1), the player at tile (1, 1), a rat at tile (5, 5) and a
    second one at tile (1, 2), one animated tile of two frames. *)
Definition sample_map : TiledMap :=
  {| tmx_width := 8; tmx_height := 6; tilewidth := 16; tileheight := 16;
     layers :=
       [ TileLayer "background" (all_cells 8 6 (fun _ _ => 1));
         TileLayer "colliders"
           (all_cells 8 6 (fun x y =>
              if (y =? 0) || ((x =? 3) && (y =? 1)) then 2 else 0));
         TileLayer "animated"
           (all_cells 8 6 (fun x y =>
              if (x =? 6) && (y =? 4) then 3 else 0));
         ObjectGroup "entities"
           [ {| obj_name := Some "Player"%string; obj_x := 16; obj_y := 16;
                obj_properties := ∅ |};
             {| obj_name := Some "enemy"%string; obj_x := 80; obj_y := 80;
                obj_properties := ∅ |};
             {| obj_name := Some "enemy"%string; obj_x := 16; obj_y := 32;
                obj_properties :=
                  {[ "enemy_type"%string := PStr "rat";
                     "enemy_movement"%string := PStr "vertical";
                     "blocks"%string := PStr "3" ]} |} ] ];
     get_tile_image_by_gid := fun gid =>
       if (1 <=? gid) && (gid <=? 4) then Ok (Some (TileImage gid 16 16))
       else Raise ValueError;
     get_tile_properties_by_gid := fun gid =>
       if gid =? 3 then
         Ok (Some [ {| AnimationFrame.gid := 3;
                       AnimationFrame.duration := 250 |};
                    {| AnimationFrame.gid := 4;
                       AnimationFrame.duration := 250 |} ])
       else Ok None |}.

Definition sample_level_world : World :=
  world_with
    (fun path =>
       if String.eqb path "data/tmx/level-1.tmx" then Ok sample_map
       else Raise FileNotFoundError)
    0.

(** The loader as [LevelLoader(LEVEL_SEQUENCE)] leaves it on that level. *)
Definition sample_loader : LevelLoader.t :=
  Eval vm_compute in
    ok_value (LevelLoader.__init__ LEVEL_SEQUENCE tt sample_level_world).

(** The player the sample loader tracks. *)
Definition tracked_player : Player.t :=
  Eval vm_compute in
    match LevelLoader.the_player sample_loader with
    | Some p => p
    | None => sample_player
    end.

(** The sample level with both rats moved onto the player's tile. *)
Definition crowded_loader : LevelLoader.t :=
  Eval vm_compute in
    LevelLoader.set_entities
      (map (fun ent =>
              match ent with
              | an_enemy e => an_enemy (Enemy.set_x 16 (Enemy.set_y 16 e))
              | a_player p => a_player p
              end)
         (LevelLoader.entities sample_loader))
      sample_loader.

(** A rat at tile (2, 1) of the sample level, facing the block at
    tile (3, 1). *)
Definition wall_rat : Enemy.t :=
  Eval vm_compute in
    ok_value (Enemy.__init__ 32 16 (PStr "rat") (PStr "horizontal") 3 tt
                sample_world).







(** ** Sprites, further *)

(** The clip the sprite names as current is one of its clips. *)
Definition sprite_ok (s : AnimatedSprite.t) : Prop :=
  forall n, AnimatedSprite.current_animation s = Some n ->
            is_Some (AnimatedSprite.animations s !! n).

(** Every clip has a frame. *)
Definition clips_nonempty (anims : gmap string AnimatedSprite.AnimData)
  : Prop :=
  forall n d, anims !! n = Some d -> AnimatedSprite.frames d <> [].

(** The current index points into the current clip. *)
Definition frame_in_range (s : AnimatedSprite.t) : Prop :=
  forall n d,
    AnimatedSprite.current_animation s = Some n ->
    AnimatedSprite.animations s !! n = Some d ->
    0 <= AnimatedSprite.current_frame s < len (AnimatedSprite.frames d).

(** The cache holds, for every clip, as many frames as the clip lists. *)
Definition cache_ok (s : AnimatedSprite.t) : Prop :=
  forall n d,
    AnimatedSprite.animations s !! n = Some d ->
    exists cached,
      AnimatedSprite.frame_cache s !! n = Some cached
      /\ length cached = length (AnimatedSprite.frames d).

(** What the sprite is apart from its cache. *)
Definition sprite_face (s : AnimatedSprite.t) :=
  (AnimatedSprite.tile_size s, AnimatedSprite.spritesheet s,
   AnimatedSprite.animations s, AnimatedSprite.current_animation s,
   AnimatedSprite.current_frame s, AnimatedSprite.last_frame_time s,
   AnimatedSprite.animation_finished s).

(** What the calls on a sprite keep: the current clip is known, the index
    is inside it, the cache is complete, no clip is empty. *)
Definition sprite_sound (s : AnimatedSprite.t) : Prop :=
  sprite_ok s /\ frame_in_range s /\ cache_ok s
  /\ clips_nonempty (AnimatedSprite.animations s).

(** The state a clip starts in. *)
Definition started (n : string) (now : Q) (s : AnimatedSprite.t)
  : AnimatedSprite.t :=
  AnimatedSprite.set_animation_finished false
    (AnimatedSprite.set_last_frame_time now
       (AnimatedSprite.set_current_frame 0
          (AnimatedSprite.set_current_animation (Some n) s))).

(** [driven s s']: some calls of [play_animation] and [update] take the
    sprite from [s] to [s']. *)
Inductive driven : AnimatedSprite.t -> AnimatedSprite.t -> Prop :=
| driven_nil s : driven s s
| driven_play s n reset w s' :
    driven (state_of (AnimatedSprite.play_animation n reset s w)) s' ->
    driven s s'
| driven_update s w s' :
    driven (state_of (AnimatedSprite.update s w)) s' ->
    driven s s'.

(** ** The enemy, further *)

(** What an enemy is configured with. *)
Definition enemy_config (e : Enemy.t) :=
  (Enemy.enemy_type e, Enemy.enemy_movement e, Enemy.blocks e,
   Enemy.start_x e, Enemy.start_y e, Enemy.idle_duration e,
   Enemy.move_cooldown e).

(** The other facing. *)
Definition turned (f : Facing) : Facing :=
  match f with right => left | left => right end.

(** What one [update] makes of the enemy apart from its sprite, given the
    blocking query and the time read; or the exception of the query. *)
Definition enemy_transition (query : option (Z -> Z -> result bool))
    (now : Q) (e : Enemy.t)
  : result (Z * Z * Facing * MovementState * Z * Q * Q) :=
  match Enemy.movement_state e with
  | moving =>
      if Qge_bool (now - Enemy.last_move_time e) (Enemy.move_cooldown e)
      then
        match match query with
              | Some blocked => blocked (next_step e).1 (next_step e).2
              | None => Ok false
              end with
        | Raise err => Raise err
        | Ok true =>
            Ok (Enemy.x e, Enemy.y e, Enemy.facing_direction e, idle, 0,
                now, Enemy.last_move_time e)
        | Ok false =>
            if Enemy.blocks_moved e + 1 >=? Enemy.blocks e
            then Ok ((next_step e).1, (next_step e).2,
                     Enemy.facing_direction e, idle, 0, now, now)
            else Ok ((next_step e).1, (next_step e).2,
                     Enemy.facing_direction e, moving,
                     Enemy.blocks_moved e + 1, Enemy.idle_start_time e, now)
        end
      else Ok (enemy_body e)
  | idle =>
      if Qge_bool (now - Enemy.idle_start_time e) (Enemy.idle_duration e)
      then Ok (Enemy.x e, Enemy.y e, turned (Enemy.facing_direction e),
               moving, Enemy.blocks_moved e, Enemy.idle_start_time e, now)
      else Ok (enemy_body e)
  end.

(** [walks query k e e']: [k] calls of [update], each made when the move
    cooldown has passed, take the moving enemy from [e] to [e']. *)
Inductive walks (query : option (Z -> Z -> result bool))
  : nat -> Enemy.t -> Enemy.t -> Prop :=
| walks_O e : walks query 0 e e
| walks_S k e w e' :
    (Enemy.move_cooldown e <= wall_clock w 0 - Enemy.last_move_time e)%Q ->
    walks query k (state_of (Enemy.update query e w)) e' ->
    walks query (S k) e e'.

(** The query never blocks: open ground, or no loader at all. *)
Definition open_ground (query : option (Z -> Z -> result bool)) : Prop :=
  match query with
  | Some blocked => forall px py, blocked px py = Ok false
  | None => True
  end.

(** The displacement of one step, in pixels. *)
Definition step_vector (e : Enemy.t) : Z * Z :=
  ((next_step e).1 - Enemy.x e, (next_step e).2 - Enemy.y e).

(** ** The loader, further *)

(** Is there a tile on the colliders layer of the map at tile [(x, y)]. *)
Definition collider_at (tmx : TiledMap) (x y : Z) : bool :=
  match LevelLoader.find_layer "colliders" true tmx with
  | Some l =>
      existsb (fun '(cx, cy, gid) =>
                 (cx =? x) && (cy =? y) && negb (gid =? 0))
        (LevelLoader.layer_cells l)
  | None => false
  end.

(** The entry of a grid in column [i] of row [j]. *)
Definition grid_cell (g : list (list bool)) (i j : nat) : option bool :=
  row ← g !! j; row !! i.

(** What one cell of the colliders layer does to the grid. *)
Definition mark_cell (gw gh : Z) (c : Z * Z * Z) (g : list (list bool))
  : list (list bool) :=
  let '(x, y, gid) := c in
  if negb (gid =? 0) && ((0 <=? y) && (y <? gh) && (0 <=? x) && (x <? gw))
  then alter (<[Z.to_nat x := true]>) (Z.to_nat y) g
  else g.

(** [self.player], when it is set, refers to one of [self.entities], and
    that one is a player. *)
Definition player_tracked (self : LevelLoader.t) : Prop :=
  match LevelLoader.player self with
  | Some i => exists p, LevelLoader.entities self !! i = Some (a_player p)
  | None => True
  end.

(** [keeps I m]: every run of [m] from a state in [I] ends in a state in
    [I], whether it returns or raises. *)
Definition keeps {S A} (I : S -> Prop) (m : M S A) : Prop :=
  forall s w, I s -> I (state_of (m s w)).

(** The methods of the loader that are called once it is built. *)
Inductive LoaderCall : Type :=
| CallLoadCurrentLevel
| CallNextLevel
| CallLoaderUpdate
| CallCheckCollisions
| CallMovePlayer (dx dy : Z).

Definition loader_call (c : LoaderCall) : M LevelLoader.t unit :=
  match c with
  | CallLoadCurrentLevel => LevelLoader.load_current_level;; mret tt
  | CallNextLevel => LevelLoader.next_level;; mret tt
  | CallLoaderUpdate => LevelLoader.update
  | CallCheckCollisions => LevelLoader.check_player_enemy_collisions
  | CallMovePlayer dx dy => LevelLoader.move_player dx dy;; mret tt
  end.

(** The line [_load_level_music] prints, by what the audio back end and
    the file system answer. *)
Definition music_report (music_filename : pyval) (w : World) : LogLine :=
  match audio_backend w MusicStop with
  | Raise e => ErrorLoadingMusic music_filename e
  | Ok _ =>
      if ogg_exists w music_filename then
        match audio_backend w (MusicPlay music_filename) with
        | Raise e => ErrorLoadingMusic music_filename e
        | Ok _ => PlayingMusic music_filename
        end
      else WarnMusicNotFound music_filename
  end.

(** The name [_load_entities] dispatches on. *)
Definition entity_name (obj : TiledObject) : string :=
  match obj_name obj with
  | Some n => if String.eqb n EmptyString then EmptyString else lower n
  | None => EmptyString
  end.

(** What a level places: a player on a tile, or an enemy on a tile with
    its type, its movement and the length of its leg. *)
Inductive Placed : Type :=
| PlacedPlayer (x y : Z)
| PlacedEnemy (x y : Z) (enemy_type enemy_movement : pyval) (blocks : Z).

Definition entity_placed (ent : Entity) : Placed :=
  match ent with
  | a_player p => PlacedPlayer (Player.x p) (Player.y p)
  | an_enemy e =>
      PlacedEnemy (Enemy.x e) (Enemy.y e) (Enemy.enemy_type e)
        (Enemy.enemy_movement e) (Enemy.blocks e)
  end.




(** ** The player, further *)

(** The clip of the sword for a facing, and the clips of the body. *)
Definition attack_clip_name (f : Facing) : string :=
  match f with right => "attack_right" | left => "attack_left" end.

Definition body_clip_name (walking : bool) (f : Facing) : string :=
  match walking, f with
  | true, right => "walk_right"
  | true, left => "walk_left"
  | false, right => "idle_right"
  | false, left => "idle_left"
  end.

(** [plays_within lo hi p p']: some calls, each made while the clock
    reads a time from [lo] up to, and not including, [hi], take the
    player from [p] to [p']. *)
Inductive plays_within (lo hi : Q) : Player.t -> Player.t -> Prop :=
| plays_within_nil p : plays_within lo hi p p
| plays_within_call p c w p' :
    (lo <= wall_clock w 0)%Q -> (wall_clock w 0 < hi)%Q ->
    plays_within lo hi (state_of (call c p w)) p' ->
    plays_within lo hi p p'.

(** The attack of the player: the flag, when it started, how long it
    lasts. *)
Definition attack (p : Player.t) :=
  (Player.is_attacking p, Player.attack_start_time p,
   Player.attack_duration p).

(** The player cannot step before [hi]: an attack or a hurt is on that
    no [update] made before [hi] ends. *)
Definition rooted (hi : Q) (p : Player.t) : Prop :=
  (Player.is_attacking p = true
   /\ (hi <= Player.attack_start_time p + Player.attack_duration p)%Q)
  \/ (Player.is_hurt p = true
      /\ (hi <= Player.hurt_start_time p + Player.hurt_duration p)%Q).

(** [same_enemies s0 s]: the loader [s] has the grid of [s0], as many
    entities, and every enemy of [s] is in [s0] at the same place of the
    list, unchanged. *)
Definition same_enemies (s0 s : LevelLoader.t) : Prop :=
  length (LevelLoader.entities s) = length (LevelLoader.entities s0)
  /\ LevelLoader.collision_grid s = LevelLoader.collision_grid s0
  /\ forall j e,
       LevelLoader.entities s !! j = Some (an_enemy e) ->
       LevelLoader.entities s0 !! j = Some (an_enemy e).

(** ** The update hook, further *)

(** The same keys with no arrow held, and how many arrows are held. *)
Definition no_arrows (keyboard : Main.Keyboard) : Main.Keyboard :=
  {| Main.d := Main.d keyboard; Main.space := Main.space keyboard;
     Main.left_key := false; Main.right_key := false;
     Main.up := false; Main.down := false |}.

Definition arrows_held (keyboard : Main.Keyboard) : nat :=
  (Nat.b2n (Main.left_key keyboard) + Nat.b2n (Main.right_key keyboard)
   + Nat.b2n (Main.up keyboard) + Nat.b2n (Main.down keyboard))%nat.

(** Is the player of the game attacking. *)
Definition player_attacking (s : Main.t) : bool :=
  match LevelLoader.the_player (Main.level_loader s) with
  | Some p => Player.is_attacking p
  | None => false
  end.

(** ** The tile grid *)

(** A position on a corner of the tile grid. *)
Definition on_grid (x y : Z) : Prop := (TILE_SIZE | x) /\ (TILE_SIZE | y).

(** ** Running without exceptions *)

(** [safe I m]: from a state in [I], [m] returns and ends in [I]. *)
Definition safe {S A} (I : S -> Prop) (m : M S A) : Prop :=
  forall s w, I s ->
    I (state_of (m s w)) /\ exists a, result_of (m s w) = Ok a.

(** A sprite in good order that is playing a clip. *)
Definition sprite_playing (s : AnimatedSprite.t) : Prop :=
  sprite_sound s
  /\ AnimatedSprite.no_animation (AnimatedSprite.current_animation s) = false.

Definition enemy_sound (e : Enemy.t) : Prop := sprite_playing (Enemy.sprite e).

Definition player_sound (p : Player.t) : Prop :=
  sprite_sound (Player.sprite p) /\ sprite_sound (Player.sword_sprite p).

(** [patrols e e']: some calls of [update], with any loader or none, take
    the enemy from [e] to [e']. *)
Inductive patrols : Enemy.t -> Enemy.t -> Prop :=
| patrols_nil e : patrols e e
| patrols_update e query w e' :
    patrols (state_of (Enemy.update query e w)) e' -> patrols e e'.

(** A query that always answers. *)
Definition answers (query : option (Z -> Z -> result bool)) : Prop :=
  match query with
  | Some blocked => forall px py, exists b, blocked px py = Ok b
  | None => True
  end.

(** A grid whose rows all have the same length. *)
Definition rectangular (g : list (list bool)) : Prop :=
  exists gw : nat,
    forall j, (j < length g)%nat -> length <$> g !! j = Some gw.

Definition entity_sound (ent : Entity) : Prop :=
  match ent with
  | a_player p => player_sound p
  | an_enemy e => enemy_sound e
  end.

(** A loader in good order: the grid is rectangular and the sprites of
    all entities are in good order. *)
Definition loader_sound (self : LevelLoader.t) : Prop :=
  rectangular (LevelLoader.collision_grid self)
  /\ Forall entity_sound (LevelLoader.entities self).
(** * Verification *)

(** ** Comparisons of times *)

(** Unfolding of the monad's operations, for goals that run a method on a
    symbolic state. *)
Ltac msimpl :=
  cbv [mbind M_bind mret M_ret get modify lift raise time_time get_ticks
       print audio_call zoom try_except].

Lemma Qge_bool_true x y : (y <= x)%Q -> Qge_bool x y = true.
Proof. intros H. unfold Qge_bool. by apply Qle_bool_iff. Qed.

Lemma Qge_bool_false x y : (x < y)%Q -> Qge_bool x y = false.
Proof.
  intros H. unfold Qge_bool. destruct (Qle_bool y x) eqn:E; [|done].
  apply Qle_bool_iff in E. lra.
Qed.

Lemma Qge_bool_spec x y : Qge_bool x y = true <-> (y <= x)%Q.
Proof. unfold Qge_bool. apply Qle_bool_iff. Qed.

Lemma Qle_by_bool x y : Qle_bool x y = true -> (x <= y)%Q.
Proof. apply Qle_bool_iff. Qed.

Lemma Qlt_by_bool x y : Qle_bool y x = false -> (x < y)%Q.
Proof.
  intros H. apply Qnot_le_lt. intros Hle.
  apply Qle_bool_iff in Hle. congruence.
Qed.

(** ** Reasoning about runs: postconditions and stable observations *)

Section Laws.
Context {S : Type}.

Lemma wp_run {A} (m : M S A) Q s w r s' w' :
  m s w = (r, s', w') -> Q r s' w' -> wp m Q s w.
Proof. unfold wp. by intros ->. Qed.

Lemma wp_ret {A} (a : A) (Q : result A -> S -> World -> Prop) s w :
  Q (Ok a) s w -> wp (mret a) Q s w.
Proof. done. Qed.

Lemma wp_bind {A B} (m : M S A) (k : A -> M S B) Q s w :
  wp m (fun r s' w' =>
          match r with
          | Ok a => wp (k a) Q s' w'
          | Raise e => Q (Raise e) s' w'
          end) s w ->
  wp (m ≫= k) Q s w.
Proof.
  unfold wp, mbind, M_bind, result_of, state_of, world_of.
  by destruct (m s w) as [[[a|e] s'] w'].
Qed.

Lemma wp_get (Q : result S -> S -> World -> Prop) s w :
  Q (Ok s) s w -> wp get Q s w.
Proof. done. Qed.

Lemma wp_modify (f : S -> S) (Q : result unit -> S -> World -> Prop) s w :
  Q (Ok tt) (f s) w -> wp (modify f) Q s w.
Proof. done. Qed.

Lemma wp_lift {A} (r : result A) (Q : result A -> S -> World -> Prop) s w :
  Q r s w -> wp (lift r) Q s w.
Proof. done. Qed.

Lemma wp_time (Q : result Q -> S -> World -> Prop) s w :
  Q (Ok (wall_clock w 0%nat)) s (wall_read w) -> wp time_time Q s w.
Proof. done. Qed.

Lemma wp_print l (Q : result unit -> S -> World -> Prop) s w :
  Q (Ok tt) s (printed l w) -> wp (print l) Q s w.
Proof. done. Qed.

Lemma wp_mono {A} (m : M S A) (Q Q' : result A -> S -> World -> Prop) s w :
  wp m Q s w -> (forall r s' w', Q r s' w' -> Q' r s' w') -> wp m Q' s w.
Proof. unfold wp. auto. Qed.

(** A stable observation carries over a call. *)
Lemma wp_stable {A X} (f : S -> X) (m : M S A)
    (Q : result A -> S -> World -> Prop) s w :
  stable f m ->
  (forall r s' w', f s' = f s -> Q r s' w') ->
  wp m Q s w.
Proof. intros Hst HQ. apply HQ, Hst. Qed.

Context {X : Type} (f : S -> X).

Lemma stable_ret {A} (a : A) : stable f (mret a).
Proof. done. Qed.

Lemma stable_bind {A B} (m : M S A) (k : A -> M S B) :
  stable f m -> (forall a, stable f (k a)) -> stable f (m ≫= k).
Proof.
  intros Hm Hk s w. specialize (Hm s w).
  unfold mbind, M_bind, state_of in *.
  destruct (m s w) as [[[a|e] s'] w']; simpl in *; [|done].
  rewrite <- Hm. apply Hk.
Qed.

Lemma stable_get : stable f get.
Proof. done. Qed.

Lemma stable_modify (g : S -> S) :
  (forall s, f (g s) = f s) -> stable f (modify g).
Proof. intros H s w. apply H. Qed.

Lemma stable_lift {A} (r : result A) : stable f (lift r).
Proof. done. Qed.

Lemma stable_raise {A} e : stable f (raise (A:=A) e).
Proof. done. Qed.

Lemma stable_time : stable f time_time.
Proof. done. Qed.

Lemma stable_ticks : stable f get_ticks.
Proof. done. Qed.

Lemma stable_print l : stable f (print l).
Proof. done. Qed.

Lemma stable_audio c : stable f (audio_call c).
Proof. done. Qed.

Lemma stable_try {A} (m : M S A) (h : exn -> M S A) :
  stable f m -> (forall e, stable f (h e)) -> stable f (try_except m h).
Proof.
  intros Hm Hh s w. specialize (Hm s w).
  unfold try_except, state_of in *.
  destruct (m s w) as [[[a|e] s'] w']; simpl in *; [done|].
  rewrite <- Hm. apply Hh.
Qed.

(** A method of a component changes nothing that the component's
    replacement leaves alone. *)
Lemma stable_zoom {T A} (view : S -> T) (update : T -> S -> S) (m : M T A) :
  (forall t s, f (update t s) = f s) -> stable f (zoom view update m).
Proof.
  intros H s w. unfold zoom, state_of.
  destruct (m (view s) w) as [[r t'] w']. apply H.
Qed.

Lemma stable_for_each {A} (xs : list A) (body : A -> M S unit) :
  (forall x, stable f (body x)) -> stable f (for_each xs body).
Proof.
  intros H. induction xs as [|x xs IH]; simpl.
  - apply stable_ret.
  - apply stable_bind; auto.
Qed.
End Laws.

(** Walks a method body and closes [stable] goals whose mutations all
    miss the observation. *)
Ltac stable_body :=
  repeat first
    [ apply stable_ret | apply stable_get | apply stable_lift
    | apply stable_raise | apply stable_time | apply stable_ticks
    | apply stable_print | apply stable_audio
    | apply stable_modify; intros; reflexivity
    | apply stable_zoom; intros; reflexivity
    | apply stable_bind; [|intros ?]
    | apply stable_try; [|intros ?]
    | match goal with
      | |- stable _ (if ?b then _ else _) => destruct b
      | |- stable _ (match ?x with _ => _ end) => destruct x
      end ].

(** One step of a method body under [wp]. *)
Ltac wp_step :=
  lazymatch goal with
  | |- wp (mbind _ _) _ _ _ => apply wp_bind
  | |- wp (mret _) _ _ _ => apply wp_ret
  | |- wp get _ _ _ => apply wp_get
  | |- wp (modify _) _ _ _ => apply wp_modify
  | |- wp (lift _) _ _ _ => apply wp_lift
  | |- wp time_time _ _ _ => apply wp_time
  | |- wp (print _) _ _ _ => apply wp_print
  end; cbv beta iota.

(** ** Enemy.update *)

Lemma play_facing_keeps_body a b r : stable enemy_body (Enemy.play_facing a b r).
Proof. unfold Enemy.play_facing, Enemy.on_sprite. stable_body. Qed.

Lemma enemy_on_sprite_keeps_body {A} (m : M AnimatedSprite.t A) :
  stable enemy_body (Enemy.on_sprite m).
Proof. unfold Enemy.on_sprite. stable_body. Qed.

(** C6.  A moving enemy whose cooldown has elapsed and whose next step
    the collision query reports blocked is idle after that same [update],
    with the leg counter back at 0, the idle clock started at the time
    read, and position and facing unchanged, whatever the counter was. *)
Theorem enemy_blocked_goes_idle (e : Enemy.t) (w : World)
    (is_position_blocked : Z -> Z -> result bool) :
  Enemy.movement_state e = moving ->
  (Enemy.move_cooldown e <= wall_clock w 0 - Enemy.last_move_time e)%Q ->
  is_position_blocked (next_step e).1 (next_step e).2 = Ok true ->
  let e' := state_of (Enemy.update (Some is_position_blocked) e w) in
  Enemy.movement_state e' = idle
  /\ Enemy.blocks_moved e' = 0
  /\ Enemy.idle_start_time e' = wall_clock w 0%nat
  /\ (Enemy.x e', Enemy.y e') = (Enemy.x e, Enemy.y e)
  /\ Enemy.facing_direction e' = Enemy.facing_direction e
  /\ Enemy.last_move_time e' = Enemy.last_move_time e.
Proof.
  intros Hm Ht Hb e'. subst e'.
  change (wp (Enemy.update (Some is_position_blocked))
            (fun _ e' _ =>
               Enemy.movement_state e' = idle
               /\ Enemy.blocks_moved e' = 0
               /\ Enemy.idle_start_time e' = wall_clock w 0%nat
               /\ (Enemy.x e', Enemy.y e') = (Enemy.x e, Enemy.y e)
               /\ Enemy.facing_direction e' = Enemy.facing_direction e
               /\ Enemy.last_move_time e' = Enemy.last_move_time e) e w).
  assert (Hfin : forall e1 : Enemy.t,
    enemy_body e1
    = (Enemy.x e, Enemy.y e, Enemy.facing_direction e, idle, 0,
       wall_clock w 0%nat, Enemy.last_move_time e) ->
    Enemy.movement_state e1 = idle
    /\ Enemy.blocks_moved e1 = 0
    /\ Enemy.idle_start_time e1 = wall_clock w 0%nat
    /\ (Enemy.x e1, Enemy.y e1) = (Enemy.x e, Enemy.y e)
    /\ Enemy.facing_direction e1 = Enemy.facing_direction e
    /\ Enemy.last_move_time e1 = Enemy.last_move_time e).
  { unfold enemy_body. intros e1 [= -> -> -> -> -> -> ->]. done. }
  unfold Enemy.update.
  repeat wp_step.
  rewrite Hm, (Qge_bool_true _ _ Ht).
  repeat wp_step.
  replace (is_position_blocked _ _) with (Ok true (A:=bool)).
  2:{ rewrite <- Hb. unfold next_step.
      destruct (py_eq_str (Enemy.enemy_movement e) "horizontal"),
        (py_eq_str (Enemy.enemy_movement e) "vertical");
        simpl; f_equal; lia. }
  repeat wp_step. cbn [negb]. repeat wp_step.
  apply (wp_stable enemy_body); [apply play_facing_keeps_body|].
  intros r e1 w1 H1. destruct r as [[]|err].
  - apply (wp_stable enemy_body); [apply enemy_on_sprite_keeps_body|].
    intros _ e2 _ H2. apply Hfin. by rewrite H2, H1.
  - apply Hfin. by rewrite H1.
Qed.

Lemma enemy_blocked_goes_idle_witness :
  let e' := state_of
              (Enemy.update
                 (Some (LevelLoader.is_position_blocked sample_loader))
                 wall_rat (world_at 1)) in
  Enemy.movement_state e' = idle
  /\ Enemy.blocks_moved e' = 0
  /\ Enemy.idle_start_time e' = wall_clock (world_at 1) 0%nat
  /\ (Enemy.x e', Enemy.y e') = (Enemy.x wall_rat, Enemy.y wall_rat)
  /\ Enemy.facing_direction e' = Enemy.facing_direction wall_rat
  /\ Enemy.last_move_time e' = Enemy.last_move_time wall_rat.
Proof.
  apply (enemy_blocked_goes_idle wall_rat (world_at 1)
           (LevelLoader.is_position_blocked sample_loader)).
  - reflexivity.
  - apply Qle_by_bool. vm_compute. reflexivity.
  - vm_compute. reflexivity.
Defined.

(** ** AnimatedSprite.update *)

Lemma no_animation_named n :
  n <> EmptyString -> AnimatedSprite.no_animation (Some n) = false.
Proof. intros H. simpl. by apply String.eqb_neq. Qed.

(** One call of [update] once the frame's duration has elapsed. *)
Lemma sprite_update_advance s w n d :
  AnimatedSprite.current_animation s = Some n -> n <> EmptyString ->
  AnimatedSprite.animation_finished s = false ->
  AnimatedSprite.animations s !! n = Some d ->
  (AnimatedSprite.duration d
     <= wall_clock w 0 - AnimatedSprite.last_frame_time s)%Q ->
  AnimatedSprite.update s w =
    (Ok tt,
     (let s1 := AnimatedSprite.set_last_frame_time (wall_clock w 0%nat)
                  (AnimatedSprite.set_current_frame
                     (AnimatedSprite.current_frame s + 1) s) in
      if AnimatedSprite.current_frame s + 1 >=? len (AnimatedSprite.frames d)
      then
        if default true (AnimatedSprite.loop d)
        then AnimatedSprite.set_current_frame 0 s1
        else AnimatedSprite.set_animation_finished true
               (AnimatedSprite.set_current_frame
                  (len (AnimatedSprite.frames d) - 1) s1)
      else s1),
     wall_read w).
Proof.
  intros Hc Hn Hf Hd Ht. unfold AnimatedSprite.update. msimpl.
  rewrite Hc, (no_animation_named _ Hn), Hf. simpl.
  rewrite Hd, (Qge_bool_true _ _ Ht). simpl.
  destruct (_ >=? _); [|done].
  by destruct (default true _).
Qed.






(** ** LevelLoader.is_tile_blocked *)

(** C1.  A tile query outside [0, width) x [0, height) of the collision
    grid answers blocked, whatever the grid holds. *)
Theorem is_tile_blocked_outside_grid (self : LevelLoader.t)
    (tile_x tile_y : Z) :
  ~ (0 <= tile_x < grid_width self /\ 0 <= tile_y < grid_height self) ->
  LevelLoader.is_tile_blocked self tile_x tile_y = Ok true.
Proof.
  unfold grid_width, grid_height, LevelLoader.is_tile_blocked. intros Hout.
  destruct (Z.ltb_spec tile_x 0); [done|].
  destruct (Z.ltb_spec tile_y 0); [done|].
  destruct (Z.geb_spec tile_y (len (LevelLoader.collision_grid self)));
    [done|]. simpl.
  destruct (LevelLoader.collision_grid self) as [|row0 rows] eqn:Hg.
  - unfold len in *. simpl in *. lia.
  - simpl. destruct (Z.geb_spec tile_x (len row0)); [done|]. lia.
Qed.

Lemma is_tile_blocked_outside_grid_witness :
  ~ (0 <= 8 < grid_width sample_loader /\ 0 <= 2 < grid_height sample_loader)
  /\ LevelLoader.is_tile_blocked sample_loader 8 2 = Ok true.
Proof.
  assert (H : ~ (0 <= 8 < grid_width sample_loader
                 /\ 0 <= 2 < grid_height sample_loader))
    by (vm_compute; intros [[_ H] _]; discriminate H).
  split; [exact H | exact (is_tile_blocked_outside_grid sample_loader 8 2 H)].
Defined.

(** ** LevelLoader.move_player *)

(** C10.  When the tile one step from the player in the requested
    direction is blocked in the collision grid, [move_player] returns
    false and changes nothing, the player's position included; without a
    player it returns false as well. *)
Theorem move_player_blocked_or_absent (self : LevelLoader.t) (w : World)
    (dx dy : Z) :
  match LevelLoader.the_player self with
  | Some p =>
      LevelLoader.is_position_blocked self
        (Player.x p + dx * TILE_SIZE) (Player.y p + dy * TILE_SIZE)
      = Ok true
  | None => True
  end ->
  LevelLoader.move_player dx dy self w = (Ok false, self, w)
  /\ (Player.x <$> LevelLoader.the_player
        (state_of (LevelLoader.move_player dx dy self w)))
     = (Player.x <$> LevelLoader.the_player self)
  /\ (Player.y <$> LevelLoader.the_player
        (state_of (LevelLoader.move_player dx dy self w)))
     = (Player.y <$> LevelLoader.the_player self).
Proof.
  intros H.
  assert (E : LevelLoader.move_player dx dy self w = (Ok false, self, w)).
  { unfold LevelLoader.move_player. msimpl.
    destruct (LevelLoader.the_player self) as [p|]; [|done].
    destruct (LevelLoader.get_level_size self) as [lw lh].
    by rewrite H. }
  by rewrite E.
Qed.

Lemma move_player_blocked_or_absent_witness :
  LevelLoader.move_player 0 (-1) sample_loader sample_level_world
  = (Ok false, sample_loader, sample_level_world).
Proof.
  apply (move_player_blocked_or_absent sample_loader sample_level_world 0 (-1)).
  vm_compute. reflexivity.
Defined.

(** ** Player.move *)

(** [move] never raises and touches no world; its outcome by cases. *)
Lemma move_cannot p w dx dy lw lh t :
  Player.can_move p t = false ->
  Player.move dx dy lw lh t p w = (Ok false, p, w).
Proof. intros H. unfold Player.move. msimpl. by rewrite H. Qed.

Lemma move_diagonal p w dx dy lw lh t :
  dx <> 0 -> dy <> 0 ->
  Player.move dx dy lw lh t p w = (Ok false, p, w).
Proof.
  intros Hx Hy. unfold Player.move. msimpl.
  destruct (Player.can_move p t); [|done]. simpl.
  apply Z.eqb_neq in Hx, Hy. by rewrite Hx, Hy.
Qed.

(** The outcome of [move], read off its result. *)
Lemma move_outcome p w dx dy lw lh t :
  exists b p',
    Player.move dx dy lw lh t p w = (Ok b, p', w)
    /\ (Player.is_attacking p', Player.is_hurt p', Player.is_invincible p',
        Player.hurt_start_time p', Player.invincibility_start_time p',
        Player.hurt_duration p', Player.invincibility_duration p',
        Player.current_health p', Player.max_health p')
       = (Player.is_attacking p, Player.is_hurt p, Player.is_invincible p,
          Player.hurt_start_time p, Player.invincibility_start_time p,
          Player.hurt_duration p, Player.invincibility_duration p,
          Player.current_health p, Player.max_health p)
    /\ if b then
         Player.can_move p t = true
         /\ (dx = 0 \/ dy = 0)
         /\ (Player.x p', Player.y p')
            = (Player.x p + dx * TILE_SIZE, Player.y p + dy * TILE_SIZE)
         /\ (dx <> 0 -> 0 <= Player.x p' <= lw - TILE_SIZE)
         /\ (dx = 0 -> dy <> 0 /\ 0 <= Player.y p' <= lh - TILE_SIZE)
         /\ Player.facing_direction p'
            = facing_after dx (Player.facing_direction p)
         /\ Player.last_move_time p' = t
         /\ Player.is_moving p' = true
       else
         (Player.x p', Player.y p') = (Player.x p, Player.y p)
         /\ Player.last_move_time p' = Player.last_move_time p
         /\ Player.is_moving p' = Player.is_moving p
         /\ (Player.can_move p t = false \/ (dx <> 0 /\ dy <> 0) -> p' = p)
         /\ (dx = 0 -> p' = p)
         /\ Player.facing_direction p'
            = (if Player.can_move p t && ((dx =? 0) || (dy =? 0))
               then facing_after dx (Player.facing_direction p)
               else Player.facing_direction p).
Proof.
  unfold Player.move, facing_after. msimpl.
  destruct (Player.can_move p t) eqn:Hc; simpl.
  2:{ exists false, p. repeat split; auto. }
  destruct (Z.eqb_spec dx 0) as [->|Hx]; simpl.
  - destruct (Z.eqb_spec dy 0) as [->|Hy]; simpl.
    + exists false, p. repeat split; auto.
    + destruct (Player.y p + dy * TILE_SIZE >=? 0) eqn:B1;
        destruct (Player.y p + dy * TILE_SIZE <=? lh - TILE_SIZE) eqn:B2;
        simpl; eexists _, _; (split; [reflexivity|]); simpl;
        repeat split; auto; try lia; try (f_equal; lia);
        intros [?|[? _]]; done.
  - destruct (Z.eqb_spec dy 0) as [->|Hy]; simpl.
    2:{ exists false, p. repeat split; auto. }
    destruct (dx >? 0) eqn:S1; [|destruct (dx <? 0) eqn:S2]; simpl;
      destruct (Player.x p + dx * TILE_SIZE >=? 0) eqn:B1;
      destruct (Player.x p + dx * TILE_SIZE <=? lw - TILE_SIZE) eqn:B2;
      simpl; eexists _, _; (split; [reflexivity|]); simpl;
      repeat split; auto; try lia; try (f_equal; lia);
      try (intros [?|[_ ?]]; done); try done.
Qed.

(** C2, as the code has it.  [move] always returns.  A rejected call
    leaves the position, [last_move_time] and the moving flag as they
    were; it leaves the facing direction as it was when it is rejected by
    [can_move] (attacking, hurt, cooldown), by the diagonal test, or with
    [dx = 0], while a call with [dx <> 0] that passes those tests and
    fails the boundary test has already turned the player to the sign of
    [dx].  An accepted call moves the player by one tile inside the level,
    sets facing from the sign of [dx], records [current_time] and sets
    the moving flag. *)
Theorem move_rejected_keeps_position (p : Player.t) (w : World)
    (dx dy level_width level_height : Z) (current_time : Q) :
  let run := Player.move dx dy level_width level_height current_time p w in
  let p' := state_of run in
  (exists b, result_of run = Ok b)
  /\ (result_of run = Ok false ->
      (Player.x p', Player.y p') = (Player.x p, Player.y p)
      /\ Player.last_move_time p' = Player.last_move_time p
      /\ Player.is_moving p' = Player.is_moving p
      /\ (Player.can_move p current_time = false \/ (dx <> 0 /\ dy <> 0)
          \/ dx = 0 ->
          Player.facing_direction p' = Player.facing_direction p)
      /\ (Player.can_move p current_time = true -> dx <> 0 -> dy = 0 ->
          Player.facing_direction p' = if dx >? 0 then right else left))
  /\ (result_of run = Ok true ->
      (Player.x p', Player.y p')
      = (Player.x p + dx * TILE_SIZE, Player.y p + dy * TILE_SIZE)
      /\ (dx = 0 \/ dy = 0)
      /\ Player.facing_direction p'
         = facing_after dx (Player.facing_direction p)
      /\ Player.last_move_time p' = current_time
      /\ Player.is_moving p' = true).
Proof.
  intros run p'. subst run p'.
  destruct (move_outcome p w dx dy level_width level_height current_time)
    as (b & p' & E & _ & H).
  rewrite E. cbn [result_of state_of fst snd].
  split; [by exists b|]. split; intros [= ->]; cbv iota in H.
  - destruct H as (Hpos & Hl & Hm & Hsame & Hdx0 & Hf).
    repeat split; try done.
    + intros [Hc|[Hd|H0]].
      * by rewrite Hsame by auto.
      * by rewrite Hsame by auto.
      * by rewrite Hdx0.
    + intros Hc Hx Hy. rewrite Hf, Hc, Hy. simpl.
      rewrite orb_true_r. unfold facing_after.
      destruct (dx >? 0) eqn:S1; [done|].
      destruct (Z.ltb_spec dx 0); [done|lia].
  - destruct H as (_ & Hd & Hpos & _ & _ & Hf & Hl & Hm). done.
Qed.

Lemma move_rejected_keeps_position_witness :
  let p := Player.set_x 0 sample_player in
  let run := Player.move (-1) 0 128 96 1 p sample_world in
  result_of run = Ok false
  /\ (Player.x (state_of run), Player.y (state_of run)) = (0, 16)
  /\ Player.facing_direction (state_of run) = left.
Proof.
  intros p run.
  pose proof (move_rejected_keeps_position p sample_world (-1) 0 128 96 1)
    as H.
  cbv zeta in H. destruct H as (_ & Hrej & _).
  assert (Hr : result_of run = Ok false) by (vm_compute; reflexivity).
  destruct (Hrej Hr) as (Hpos & _ & _ & _ & Hturn).
  split; [exact Hr|]. split; [exact Hpos|].
  apply Hturn; [vm_compute; reflexivity | discriminate | reflexivity].
Defined.

(** C2, as it is worded, fails: standing at the left edge and asked to
    step left, the player is refused and yet turned round. *)
Lemma move_rejected_turns_player :
  let p := Player.set_x 0 sample_player in
  let run := Player.move (-1) 0 128 96 1 p sample_world in
  result_of run = Ok false
  /\ Player.facing_direction p = right
  /\ Player.facing_direction (state_of run) = left.
Proof. vm_compute. done. Qed.

(** What one call does to the cooldown clock. *)
Lemma move_cooldown_step p w dx dy lw lh t :
  exists b p',
    Player.move dx dy lw lh t p w = (Ok b, p', w)
    /\ if b
       then (MOVEMENT_COOLDOWN <= t - Player.last_move_time p)%Q
            /\ Player.last_move_time p' = t
       else Player.last_move_time p' = Player.last_move_time p.
Proof.
  destruct (move_outcome p w dx dy lw lh t) as (b & p' & E & _ & H).
  exists b, p'. split; [done|]. destruct b.
  - destruct H as (Hc & _ & _ & _ & _ & _ & Hl & _). split; [|done].
    unfold Player.can_move in Hc.
    destruct (_ || _); [done|]. by apply Qge_bool_spec.
  - by destruct H as (_ & Hl & _).
Qed.

(** C5, first part: a call made less than [MOVEMENT_COOLDOWN] after the
    last accepted one returns false and changes nothing.  Second part:
    of five calls made one every 0.05 s, whatever they ask for, at most
    two are accepted. *)
Theorem move_respects_cooldown :
  (forall (p : Player.t) (w : World) (dx dy lw lh : Z) (current_time : Q),
     (current_time - Player.last_move_time p < MOVEMENT_COOLDOWN)%Q ->
     Player.move dx dy lw lh current_time p w = (Ok false, p, w))
  /\ (forall (p : Player.t) (w : World) (t0 : Q)
        (requests : list (Z * Z * Z * Z)),
        length requests = 5%nat ->
        exists bs,
          result_of (move_calls requests t0 0.05 p w) = Ok bs
          /\ length bs = 5%nat
          /\ (accepted bs <= 2)%nat).
Proof.
  split.
  - intros p w dx dy lw lh t Ht. apply move_cannot.
    unfold Player.can_move. destruct (_ || _); [done|].
    by apply Qge_bool_false.
  - intros p w t0 requests Hlen.
    destruct requests as [|[[[dx1 dy1] lw1] lh1] [|[[[dx2 dy2] lw2] lh2]
      [|[[[dx3 dy3] lw3] lh3] [|[[[dx4 dy4] lw4] lh4]
      [|[[[dx5 dy5] lw5] lh5] [|]]]]]]; try discriminate Hlen.
    cbn [move_calls]. msimpl.
    destruct (move_cooldown_step p w dx1 dy1 lw1 lh1 t0)
      as (b1 & p1 & -> & H1).
    destruct (move_cooldown_step p1 w dx2 dy2 lw2 lh2 (t0 + 0.05))
      as (b2 & p2 & -> & H2).
    destruct (move_cooldown_step p2 w dx3 dy3 lw3 lh3 (t0 + 0.05 + 0.05))
      as (b3 & p3 & -> & H3).
    destruct (move_cooldown_step p3 w dx4 dy4 lw4 lh4
                (t0 + 0.05 + 0.05 + 0.05)) as (b4 & p4 & -> & H4).
    destruct (move_cooldown_step p4 w dx5 dy5 lw5 lh5
                (t0 + 0.05 + 0.05 + 0.05 + 0.05)) as (b5 & p5 & -> & H5).
    eexists. split; [reflexivity|]. split; [reflexivity|].
    unfold MOVEMENT_COOLDOWN in *.
    destruct b1, b2, b3, b4, b5; cbn; try lia; exfalso;
      repeat match goal with
             | H : _ /\ _ |- _ => destruct H
             end;
      repeat match goal with
             | H : Player.last_move_time _ = _ |- _ => rewrite H in *; clear H
             end;
      lra.
Qed.

Lemma move_respects_cooldown_witness :
  Player.move 1 0 128 96 0.1 sample_player sample_world
  = (Ok false, sample_player, sample_world)
  /\ exists bs,
       result_of
         (move_calls [(1, 0, 128, 96); (1, 0, 128, 96); (0, 1, 128, 96);
                      (-1, 0, 128, 96); (0, -1, 128, 96)]
            1 0.05 sample_player sample_world)
       = Ok bs
       /\ length bs = 5%nat /\ (accepted bs <= 2)%nat.
Proof.
  split.
  - apply (proj1 move_respects_cooldown).
    apply Qlt_by_bool. vm_compute. reflexivity.
  - apply (proj2 move_respects_cooldown). reflexivity.
Defined.

(** ** Player.take_damage and Player.update *)

(** [play_animation] always returns. *)
Lemma play_animation_returns n r s w :
  exists s' w', AnimatedSprite.play_animation n r s w = (Ok tt, s', w').
Proof.
  unfold AnimatedSprite.play_animation. msimpl.
  destruct (AnimatedSprite.animations s !! n); [|by eauto].
  destruct (_ || _); by eauto.
Qed.

Lemma update_states_stable {X} (f : Player.t -> X) t :
  (forall v p, f (Player.set_is_invincible v p) = f p) ->
  (forall v p, f (Player.set_is_attacking v p) = f p) ->
  (forall v p, f (Player.set_movement_timer v p) = f p) ->
  (forall v p, f (Player.set_is_moving v p) = f p) ->
  (forall v p, f (Player.set_sprite v p) = f p) ->
  (forall v p, f (Player.set_sword_sprite v p) = f p) ->
  stable f (Player.update_states t).
Proof.
  intros H1 H2 H3 H4 H5 H6.
  unfold Player.update_states, Player.on_sprite, Player.on_sword_sprite.
  repeat first
    [ apply stable_ret | apply stable_get
    | apply stable_modify; solve [auto]
    | apply stable_zoom; solve [auto]
    | apply stable_bind; [|intros ?]
    | match goal with
      | |- stable _ (if ?b then _ else _) => destruct b
      | |- stable _ (match ?x with _ => _ end) => destruct x
      end ].
Qed.

Lemma update_stable {X} (f : Player.t -> X) :
  (forall v p, f (Player.set_is_hurt v p) = f p) ->
  (forall v p, f (Player.set_is_invincible v p) = f p) ->
  (forall v p, f (Player.set_is_attacking v p) = f p) ->
  (forall v p, f (Player.set_movement_timer v p) = f p) ->
  (forall v p, f (Player.set_is_moving v p) = f p) ->
  (forall v p, f (Player.set_sprite v p) = f p) ->
  (forall v p, f (Player.set_sword_sprite v p) = f p) ->
  stable f Player.update.
Proof.
  intros H0 H1 H2 H3 H4 H5 H6. unfold Player.update, Player.on_sprite.
  apply stable_bind; [apply stable_time|intros t].
  apply stable_bind; [apply stable_get|intros self].
  destruct (Player.is_hurt self); [destruct (Qge_bool _ _)|].
  - apply stable_bind; [by apply stable_modify|intros _].
    by apply update_states_stable.
  - by apply stable_zoom.
  - by apply update_states_stable.
Qed.

Lemma update_keeps_vitals : stable vitals Player.update.
Proof. by apply update_stable. Qed.

Lemma update_keeps_placement : stable placement Player.update.
Proof. by apply update_stable. Qed.

Lemma start_attack_keeps_vitals : stable vitals Player.start_attack.
Proof.
  unfold Player.start_attack, Player.on_sword_sprite. stable_body.
Qed.

Lemma start_attack_keeps_shield :
  stable (fun p => (Player.is_invincible p, Player.is_hurt p))
    Player.start_attack.
Proof.
  unfold Player.start_attack, Player.on_sword_sprite. stable_body.
Qed.

(** A rejected [take_damage] changes nothing. *)
Lemma take_damage_rejected d p w :
  Player.is_invincible p || Player.is_hurt p = true ->
  Player.take_damage d p w = (Ok false, p, w).
Proof. intros H. unfold Player.take_damage. msimpl. by rewrite H. Qed.

(** A call of [play_animation] on the player's sprite returns and changes
    the sprite only. *)
Lemma wp_player_play n r (Q : result unit -> Player.t -> World -> Prop) p w :
  (forall s' w', Q (Ok tt) (Player.set_sprite s' p) w') ->
  wp (Player.on_sprite (AnimatedSprite.play_animation n r)) Q p w.
Proof.
  intros H. unfold wp, Player.on_sprite, zoom, result_of, state_of, world_of.
  destruct (play_animation_returns n r (Player.sprite p) w) as (s' & w' & ->).
  apply H.
Qed.

(** An accepted [take_damage]. *)
Lemma take_damage_accepted d p w :
  Player.is_invincible p = false -> Player.is_hurt p = false ->
  wp (Player.take_damage d)
    (fun r p' _ =>
       r = Ok true
       /\ Player.current_health p' = Z.max 0 (Player.current_health p - d)
       /\ Player.is_hurt p' = true /\ Player.is_invincible p' = true
       /\ Player.is_attacking p' = false
       /\ Player.hurt_start_time p' = wall_clock w 0%nat
       /\ Player.invincibility_start_time p' = wall_clock w 1%nat
       /\ (Player.max_health p', Player.hurt_duration p',
           Player.invincibility_duration p')
          = (Player.max_health p, Player.hurt_duration p,
             Player.invincibility_duration p)
       /\ placement p' = placement p) p w.
Proof.
  intros Hi Hh. unfold Player.take_damage.
  repeat wp_step. rewrite Hi, Hh. cbn [orb].
  repeat wp_step.
  destruct (Z.ltb_spec
              (Player.current_health
                 (Player.set_current_health (Player.current_health p - d) p))
              0) as [Hneg|Hneg]; simpl in Hneg;
    repeat wp_step;
    (destruct (Player.facing_direction _);
     (apply wp_player_play; intros s' w'; repeat wp_step;
      simpl; repeat split; try done; lia)).
Qed.

(** Whatever the state, [take_damage] leaves the health where it was or
    lowers it by the damage, not below 0. *)
Lemma take_damage_health d p w :
  let p' := state_of (Player.take_damage d p w) in
  Player.current_health p' = Player.current_health p
  \/ Player.current_health p' = Z.max 0 (Player.current_health p - d).
Proof.
  intros p'. subst p'.
  destruct (Player.is_invincible p || Player.is_hurt p) eqn:E.
  - left. by rewrite take_damage_rejected.
  - right. apply orb_false_elim in E as [Hi Hh].
    by destruct (take_damage_accepted d p w Hi Hh) as (_ & H & _).
Qed.

Lemma update_states_shield now q v :
  wp (Player.update_states now)
    (fun _ p' _ =>
       shield p'
       = (Player.is_hurt q,
          Player.is_invincible q
          && negb (Qge_bool (now - Player.invincibility_start_time q)
                     (Player.invincibility_duration q))))
    q v.
Proof.
  unfold Player.update_states. do 3 wp_step.
  destruct (Player.is_invincible q) eqn:Hi; [destruct (Qge_bool _ _)|];
    wp_step;
    (apply (wp_stable shield);
     [ unfold Player.on_sprite, Player.on_sword_sprite; stable_body
     | intros ? p' ? ->; unfold shield; simpl; by rewrite ?Hi ]).
Qed.

(** What one [update] does to the two flags, given the time it reads: the
    hurt flag falls once [hurt_duration] has passed; the invincible flag
    falls once [invincibility_duration] has passed, unless the player is
    still hurt, in which case [update] returns before looking at it. *)
Lemma update_shield p w :
  let now := wall_clock w 0%nat in
  let hurt_over :=
    Qge_bool (now - Player.hurt_start_time p) (Player.hurt_duration p) in
  let invincibility_over :=
    Qge_bool (now - Player.invincibility_start_time p)
      (Player.invincibility_duration p) in
  shield (state_of (Player.update p w))
  = (Player.is_hurt p && negb hurt_over,
     if Player.is_hurt p && negb hurt_over then Player.is_invincible p
     else Player.is_invincible p && negb invincibility_over).
Proof.
  intros now hurt_over invincibility_over.
  change (wp Player.update
            (fun _ p' _ =>
               shield p'
               = (Player.is_hurt p && negb hurt_over,
                  if Player.is_hurt p && negb hurt_over
                  then Player.is_invincible p
                  else Player.is_invincible p && negb invincibility_over))
            p w).
  unfold Player.update. repeat wp_step. fold now.
  destruct (Player.is_hurt p) eqn:Hh; fold hurt_over.
  - destruct hurt_over; simpl.
    + repeat wp_step.
      eapply wp_mono; [apply update_states_shield|].
      by intros ? p' ? ->.
    + apply (wp_stable shield).
      { unfold Player.on_sprite. stable_body. }
      intros ? p' ? ->. unfold shield. by rewrite Hh.
  - simpl. eapply wp_mono; [apply update_states_shield|].
    intros ? p' ? ->. by rewrite Hh.
Qed.

(** Once both windows have passed, [update] lowers both flags. *)
Lemma update_lowers_shield p w :
  (Player.hurt_duration p
     <= wall_clock w 0 - Player.hurt_start_time p)%Q ->
  (Player.invincibility_duration p
     <= wall_clock w 0 - Player.invincibility_start_time p)%Q ->
  shield (state_of (Player.update p w)) = (false, false).
Proof.
  intros H1 H2. rewrite update_shield.
  rewrite (Qge_bool_true _ _ H1), (Qge_bool_true _ _ H2). simpl.
  by rewrite !andb_false_r.
Qed.

(** Inside the invincibility window, [update] keeps the flag up. *)
Lemma update_keeps_invincible p w :
  Player.is_invincible p = true ->
  (wall_clock w 0 - Player.invincibility_start_time p
     < Player.invincibility_duration p)%Q ->
  Player.is_invincible (state_of (Player.update p w)) = true.
Proof.
  intros Hi Ht.
  change (snd (shield (state_of (Player.update p w))) = true).
  rewrite update_shield, Hi, (Qge_bool_false _ _ Ht). simpl.
  by destruct (_ && _).
Qed.

(** ** Sequences of calls on the player *)

Lemma state_of_then_ret {S A} (m : M S A) s w :
  state_of ((m;; mret tt) s w) = state_of (m s w).
Proof.
  unfold mbind, M_bind, mret, M_ret, state_of.
  by destruct (m s w) as [[[a|e] s'] w'].
Qed.

(** No call takes the health below zero, and only [take_damage] moves it. *)
Lemma call_health c p w :
  let p' := state_of (call c p w) in
  Player.current_health p' = Player.current_health p
  \/ exists d, c = CallTakeDamage d
               /\ Player.current_health p'
                  = Z.max 0 (Player.current_health p - d).
Proof.
  intros p'. subst p'. destruct c as [|dx dy lw lh t| |d]; simpl.
  - left. by injection (update_keeps_vitals p w).
  - left. rewrite state_of_then_ret.
    destruct (move_outcome p w dx dy lw lh t) as (b & p' & -> & Hv & _).
    by injection Hv.
  - left. rewrite state_of_then_ret.
    by injection (start_attack_keeps_vitals p w).
  - rewrite state_of_then_ret.
    destruct (take_damage_health d p w) as [H|H]; [by left|right; eauto].
Qed.

(** C3.  A player with [max_health = 3] and [current_health = 3] that is
    neither hurt nor invincible takes [take_damage(1)] four times, each
    call after an [update] that ran once the invincibility window of the
    previous hit had passed.  All four calls are accepted; the health goes
    3, 2, 1, 0, 0 and the player is dead from the third on.  And from a
    health that is not negative no sequence of calls on the player leads
    to a negative health. *)
Theorem three_hits_kill :
  (forall (p0 : Player.t) (w0 w1 w2 w3 u1 u2 u3 : World),
     Player.max_health p0 = 3 -> Player.current_health p0 = 3 ->
     Player.is_hurt p0 = false -> Player.is_invincible p0 = false ->
     (Player.hurt_duration p0 <= Player.invincibility_duration p0)%Q ->
     let hit1 := Player.take_damage 1 p0 w0 in
     let p1 := state_of (Player.update (state_of hit1) u1) in
     let hit2 := Player.take_damage 1 p1 w1 in
     let p2 := state_of (Player.update (state_of hit2) u2) in
     let hit3 := Player.take_damage 1 p2 w2 in
     let p3 := state_of (Player.update (state_of hit3) u3) in
     let hit4 := Player.take_damage 1 p3 w3 in
     (wall_clock w0 0 <= wall_clock w0 1)%Q ->
     (wall_clock w1 0 <= wall_clock w1 1)%Q ->
     (wall_clock w2 0 <= wall_clock w2 1)%Q ->
     (Player.invincibility_duration p0
        <= wall_clock u1 0
           - Player.invincibility_start_time (state_of hit1))%Q ->
     (Player.invincibility_duration p0
        <= wall_clock u2 0
           - Player.invincibility_start_time (state_of hit2))%Q ->
     (Player.invincibility_duration p0
        <= wall_clock u3 0
           - Player.invincibility_start_time (state_of hit3))%Q ->
     map result_of [hit1; hit2; hit3; hit4]
     = [Ok true; Ok true; Ok true; Ok true]
     /\ map Player.current_health
          [state_of hit1; state_of hit2; state_of hit3; state_of hit4]
        = [2; 1; 0; 0]
     /\ Player.is_dead (state_of hit3) = true
     /\ Player.is_dead (state_of hit4) = true)
  /\ (forall p p' : Player.t,
        0 <= Player.current_health p -> plays p p' ->
        0 <= Player.current_health p').
Proof.
  split.
  - (* one hit, then the update after both windows have passed *)
    assert (Hround : forall p w u h D,
      Player.is_hurt p = false -> Player.is_invincible p = false ->
      Player.current_health p = h -> Player.max_health p = 3 ->
      Player.invincibility_duration p = D ->
      (Player.hurt_duration p <= D)%Q ->
      (wall_clock w 0 <= wall_clock w 1)%Q ->
      (D <= wall_clock u 0
            - Player.invincibility_start_time
                (state_of (Player.take_damage 1 p w)))%Q ->
      let hit := Player.take_damage 1 p w in
      let p' := state_of (Player.update (state_of hit) u) in
      result_of hit = Ok true
      /\ Player.current_health (state_of hit) = Z.max 0 (h - 1)
      /\ Player.is_hurt p' = false /\ Player.is_invincible p' = false
      /\ Player.current_health p' = Z.max 0 (h - 1)
      /\ Player.max_health p' = 3
      /\ Player.invincibility_duration p' = D
      /\ (Player.hurt_duration p' <= D)%Q).
    { intros p w u h D Hh Hi Hc Hm HD Hd Hw Hu hit p'. subst hit p'.
      pose proof (take_damage_accepted 1 p w Hi Hh) as Hacc.
      unfold wp in Hacc. revert Hu Hacc.
      generalize (result_of (Player.take_damage 1 p w)).
      generalize (state_of (Player.take_damage 1 p w)).
      intros q r Hu (-> & Hq & _ & _ & _ & Hhs & His & Hk & _).
      injection Hk as Hk1 Hk2 Hk3.
      pose proof (update_keeps_vitals q u) as Hv.
      injection Hv as V1 V2 V3 V4 V5 V6.
      assert (Hs : shield (state_of (Player.update q u)) = (false, false)).
      { apply update_lowers_shield.
        - rewrite Hk2. rewrite His in Hu. rewrite Hhs. lra.
        - by rewrite Hk3, HD. }
      injection Hs as S1 S2.
      rewrite V1, V2, V3, V4, Hq, Hk1, Hk2, Hk3, Hc. done. }
    intros p0 w0 w1 w2 w3 u1 u2 u3 Hm Hc Hh Hi Hd. cbv zeta.
    intros M0 M1 M2 E1 E2 E3.
    destruct (Hround p0 w0 u1 3 _ Hh Hi Hc Hm eq_refl Hd M0 E1)
      as (R1 & C1 & Hh1 & Hi1 & Hc1 & Hm1 & HD1 & Hd1).
    destruct (Hround _ w1 u2 _ _ Hh1 Hi1 Hc1 Hm1 HD1 Hd1 M1 E2)
      as (R2 & C2 & Hh2 & Hi2 & Hc2 & Hm2 & HD2 & Hd2).
    destruct (Hround _ w2 u3 _ _ Hh2 Hi2 Hc2 Hm2 HD2 Hd2 M2 E3)
      as (R3 & C3 & Hh3 & Hi3 & Hc3 & Hm3 & HD3 & Hd3).
    pose proof (take_damage_accepted 1 _ w3 Hi3 Hh3) as (R4 & C4 & _).
    rewrite Hc3 in C4.
    unfold Player.is_dead. cbn [map].
    rewrite R1, R2, R3, R4, C1, C2, C3, C4. done.
  - intros p p' Hp Hrun. induction Hrun as [p|p c w p' _ IH]; [done|].
    apply IH. destruct (call_health c p w) as [->|(d & _ & ->)]; lia.
Qed.

Lemma three_hits_kill_witness :
  let hit1 := Player.take_damage 1 sample_player (world_at 0) in
  let p1 := state_of (Player.update (state_of hit1) (world_at 10)) in
  let hit2 := Player.take_damage 1 p1 (world_at 20) in
  let p2 := state_of (Player.update (state_of hit2) (world_at 30)) in
  let hit3 := Player.take_damage 1 p2 (world_at 40) in
  let p3 := state_of (Player.update (state_of hit3) (world_at 50)) in
  let hit4 := Player.take_damage 1 p3 (world_at 60) in
  map result_of [hit1; hit2; hit3; hit4]
  = [Ok true; Ok true; Ok true; Ok true]
  /\ map Player.current_health
       [state_of hit1; state_of hit2; state_of hit3; state_of hit4]
     = [2; 1; 0; 0]
  /\ Player.is_dead (state_of hit3) = true
  /\ Player.is_dead (state_of hit4) = true.
Proof.
  apply (proj1 three_hits_kill sample_player
           (world_at 0) (world_at 20) (world_at 40) (world_at 60)
           (world_at 10) (world_at 30) (world_at 50));
    try reflexivity; apply Qle_by_bool; vm_compute; reflexivity.
Defined.

(** Inside the invincibility window no call lowers the flag or moves the
    health. *)
Lemma call_in_window c p w limit :
  Player.is_invincible p = true ->
  (limit <= Player.invincibility_start_time p
            + Player.invincibility_duration p)%Q ->
  (wall_clock w 0 < limit)%Q ->
  let q := state_of (call c p w) in
  Player.is_invincible q = true /\ vitals q = vitals p.
Proof.
  intros Hi Hlim Hw q. subst q. destruct c as [|dx dy lw lh t| |d]; simpl.
  - split; [|apply update_keeps_vitals].
    apply update_keeps_invincible; [done|lra].
  - rewrite state_of_then_ret.
    destruct (move_outcome p w dx dy lw lh t) as (b & p' & -> & Hv & _).
    cbn [state_of fst snd]. unfold vitals.
    injection Hv as _ _ -> -> -> -> -> -> ->. by rewrite Hi.
  - rewrite state_of_then_ret. split; [|apply start_attack_keeps_vitals].
    pose proof (start_attack_keeps_shield p w) as Hs.
    injection Hs as -> _. done.
  - rewrite state_of_then_ret, take_damage_rejected by (by rewrite Hi). done.
Qed.

Lemma plays_in_window limit p p' :
  plays_before limit p p' ->
  Player.is_invincible p = true ->
  (limit <= Player.invincibility_start_time p
            + Player.invincibility_duration p)%Q ->
  Player.is_invincible p' = true
  /\ Player.current_health p' = Player.current_health p.
Proof.
  induction 1 as [p|p c w p' Hw _ IH]; intros Hi Hlim; [done|].
  destruct (call_in_window c p w limit Hi Hlim Hw) as [Hi' Hv].
  injection Hv as Hc _ _ Hd _ Hs.
  destruct IH as [IH1 IH2]; [done| by rewrite Hs, Hd |].
  by rewrite IH2, Hc.
Qed.

(** C4.  After an accepted [take_damage], made when the clock read [t],
    every call on the player made while the clock reads less than
    [t + invincibility_duration] leaves the health where that first hit
    put it, and a [take_damage] made then finds the player invincible,
    returns false and changes nothing, neither the player nor the world:
    of two hits inside one invincibility window only the first counts. *)
Theorem second_hit_in_window_rejected (p0 p2 : Player.t) (w0 : World)
    (d1 : Z) :
  Player.is_hurt p0 = false -> Player.is_invincible p0 = false ->
  (wall_clock w0 0 <= wall_clock w0 1)%Q ->
  let first := Player.take_damage d1 p0 w0 in
  plays_before (wall_clock w0 0 + Player.invincibility_duration p0)
    (state_of first) p2 ->
  result_of first = Ok true
  /\ Player.current_health (state_of first)
     = Z.max 0 (Player.current_health p0 - d1)
  /\ Player.current_health p2 = Player.current_health (state_of first)
  /\ (Player.is_invincible p2 || Player.is_hurt p2 = true)
  /\ forall d2 w2, Player.take_damage d2 p2 w2 = (Ok false, p2, w2).
Proof.
  intros Hh Hi Hw first. subst first.
  pose proof (take_damage_accepted d1 p0 w0 Hi Hh) as Hacc.
  unfold wp in Hacc. revert Hacc.
  generalize (result_of (Player.take_damage d1 p0 w0)).
  generalize (state_of (Player.take_damage d1 p0 w0)).
  intros p1 r (-> & Hc & _ & Hi1 & _ & _ & Hs & Hk & _) Hrun.
  injection Hk as _ _ HD.
  destruct (plays_in_window _ _ _ Hrun Hi1) as [Hi2 Hc2].
  { rewrite Hs, HD. lra. }
  repeat split; try done.
  - by rewrite Hi2.
  - intros d2 w2. apply take_damage_rejected. by rewrite Hi2.
Qed.

Lemma second_hit_in_window_rejected_witness :
  let first := Player.take_damage 1 sample_player (world_at 0) in
  let later := state_of (call CallUpdate (state_of first) (world_at 1)) in
  Player.current_health later = 2
  /\ Player.take_damage 1 later (world_at 1.2)
     = (Ok false, later, world_at 1.2).
Proof.
  intros first later.
  assert (Hrun : plays_before
                   (wall_clock (world_at 0) 0
                    + Player.invincibility_duration sample_player)
                   (state_of first) later).
  { apply (plays_call _ _ CallUpdate (world_at 1)).
    - apply Qlt_by_bool. vm_compute. reflexivity.
    - apply plays_none. }
  destruct (second_hit_in_window_rejected sample_player later (world_at 0) 1
              eq_refl eq_refl
              ltac:(apply Qle_by_bool; vm_compute; reflexivity) Hrun)
    as (_ & Hc1 & Hc2 & _ & Hrej).
  split; [|apply Hrej].
  rewrite Hc2. exact Hc1.
Defined.

(** ** LevelLoader.check_player_enemy_collisions and LevelLoader.update *)

Lemma collision_loop_first player_rect es :
  LevelLoader.collision_loop player_rect es
  = if existsb (hits player_rect) es then damage_event else mret tt.
Proof.
  induction es as [|[p|e] es IH]; simpl; [done|done|].
  by destruct (colliderect _ _).
Qed.

(** [self.player] after a method ran on it. *)
Lemma on_player_state {A} (m : M Player.t A) self w p :
  LevelLoader.the_player self = Some p ->
  LevelLoader.the_player (state_of (LevelLoader.on_player m self w))
  = Some (state_of (m p w))
  /\ result_of (LevelLoader.on_player m self w) = result_of (m p w)
  /\ world_of (LevelLoader.on_player m self w) = world_of (m p w).
Proof.
  intros Hp. unfold LevelLoader.on_player. rewrite Hp.
  unfold LevelLoader.the_player in *.
  destruct (LevelLoader.player self) as [i|] eqn:Hi; [|done].
  destruct (LevelLoader.entities self !! i) as [[q|e]|] eqn:Hl; try done.
  injection Hp as ->.
  destruct (m p w) as [[r p'] w']. cbn [state_of result_of world_of fst snd].
  cbn. rewrite Hi. rewrite list_lookup_insert_eq; [done|].
  by eapply lookup_lt_Some.
Qed.

(** The damage event moves the tracked player's health by one hit at
    most, and leaves the reference on a player. *)
Lemma damage_event_health self w p :
  LevelLoader.the_player self = Some p ->
  exists p',
    LevelLoader.the_player (state_of (damage_event self w)) = Some p'
    /\ p' = state_of (Player.take_damage 1 p w).
Proof.
  intros Hp. exists (state_of (Player.take_damage 1 p w)). split; [|done].
  destruct (on_player_state (Player.take_damage 1) self w p Hp)
    as (Hs & Hr & _).
  revert Hs Hr. unfold damage_event, mbind, M_bind, state_of, result_of.
  destruct (LevelLoader.on_player (Player.take_damage 1) self w)
    as [[r s1] w1]. cbn [fst snd]. intros Hs Hr.
  destruct r as [[|]|err]; [|done|done].
  unfold print, get. cbn.
  rewrite Hs. by destruct (Player.is_dead _).
Qed.

(** Walking the entities keeps a player where it is in the list, with its
    vitals, whether the walk ends or raises on the way. *)
Lemma traverse_keeps_player self l w i p :
  l !! i = Some (a_player p) ->
  exists p',
    state_of (traverse (LevelLoader.update_entity self) l w) !! i
    = Some (a_player p')
    /\ vitals p' = vitals p.
Proof.
  revert w i. induction l as [|o rest IH]; intros w i Hl; [done|].
  cbn [traverse].
  destruct i as [|j]; simpl in Hl.
  - injection Hl as ->. unfold LevelLoader.update_entity.
    pose proof (update_keeps_vitals p w) as Hv. revert Hv.
    unfold state_of. destruct (Player.update p w) as [[[[]|err] p'] w'];
      cbn [fst snd]; intros Hv.
    + destruct (traverse _ rest w') as [[r rest'] w'']. by exists p'.
    + by exists p'.
  - destruct (LevelLoader.update_entity self o w) as [[[[]|err] o'] w'].
    + destruct (IH w' j Hl) as (p' & Hp' & Hv). revert Hp'.
      unfold state_of.
      destruct (traverse _ rest w') as [[r rest'] w'']. cbn [fst snd].
      intros Hp'. by exists p'.
    + exists p. by split.
Qed.

(** C7.  The collision pass of a frame: without a player, or with an
    invincible one, it does nothing; otherwise the player's rectangle is
    held against the enemies in list order and, when one overlaps, the
    pass ends there with a single damage event, one [take_damage(1)] on
    the player.  [update] is the updates of the tiles and entities
    followed by that pass, once, so over a whole frame the player's
    health stays or drops by one hit, however many enemies overlap. *)
Theorem one_damage_per_frame :
  (forall self w,
     LevelLoader.update self w
     = (update_objects;; LevelLoader.check_player_enemy_collisions) self w)
  /\ (forall self w,
     LevelLoader.check_player_enemy_collisions self w
     = match LevelLoader.the_player self with
       | Some p =>
           if negb (Player.is_invincible p)
              && existsb (hits (Player.get_rect p))
                   (LevelLoader.entities self)
           then damage_event self w
           else (Ok tt, self, w)
       | None => (Ok tt, self, w)
       end)
  /\ (forall self w p,
        LevelLoader.the_player self = Some p ->
        LevelLoader.the_player (state_of (damage_event self w))
        = Some (state_of (Player.take_damage 1 p w)))
  /\ (forall self w p,
        LevelLoader.the_player self = Some p ->
        exists p',
          LevelLoader.the_player (state_of (LevelLoader.update self w))
          = Some p'
          /\ (Player.current_health p' = Player.current_health p
              \/ Player.current_health p'
                 = Z.max 0 (Player.current_health p - 1))).
Proof.
  assert (Hcheck : forall self w,
    LevelLoader.check_player_enemy_collisions self w
    = match LevelLoader.the_player self with
      | Some p =>
          if negb (Player.is_invincible p)
             && existsb (hits (Player.get_rect p))
                  (LevelLoader.entities self)
          then damage_event self w
          else (Ok tt, self, w)
      | None => (Ok tt, self, w)
      end).
  { intros self w. unfold LevelLoader.check_player_enemy_collisions.
    msimpl. destruct (LevelLoader.the_player self) as [p|]; [|done].
    destruct (Player.is_invincible p); [done|].
    rewrite collision_loop_first. simpl. by destruct (existsb _ _). }
  assert (Hevent : forall self w p,
    LevelLoader.the_player self = Some p ->
    LevelLoader.the_player (state_of (damage_event self w))
    = Some (state_of (Player.take_damage 1 p w))).
  { intros self w p Hp.
    by destruct (damage_event_health self w p Hp) as (p' & -> & ->). }
  split.
  { intros self w.
    unfold LevelLoader.update, update_objects, mbind, M_bind, zoom, get.
    destruct (traverse AnimatedTile.update _ w) as [[[[]|err] tiles1] w1];
      [|done].
    by destruct (traverse _ _ w1) as [[[[]|err] ents2] w2]. }
  split; [done|]. split; [done|].
  intros self w p Hp. unfold LevelLoader.update, mbind, M_bind, zoom, get.
  destruct (traverse AnimatedTile.update (LevelLoader.animated_tiles self) w)
    as [[r1 tiles1] w1].
  set (s1 := LevelLoader.set_animated_tiles tiles1 self).
  assert (Hp1 : LevelLoader.the_player s1 = Some p) by done.
  clearbody s1.
  destruct r1 as [[]|err]; [|by exists p; auto].
  unfold LevelLoader.the_player in Hp1.
  destruct (LevelLoader.player s1) as [i|] eqn:Hi; [|done].
  destruct (LevelLoader.entities s1 !! i) as [[q|e]|] eqn:Hl; try done.
  injection Hp1 as ->.
  destruct (traverse_keeps_player s1 (LevelLoader.entities s1) w1 i p Hl)
    as (p2 & Hl2 & Hv). revert Hl2. unfold state_of.
  destruct (traverse (LevelLoader.update_entity s1)
              (LevelLoader.entities s1) w1) as [[r2 ents2] w2].
  cbn [fst snd]. intros Hl2.
  set (s2 := LevelLoader.set_entities ents2 s1).
  assert (Hp2 : LevelLoader.the_player s2 = Some p2).
  { unfold LevelLoader.the_player. subst s2.
    destruct s1; cbn in *. by rewrite Hi, Hl2. }
  injection Hv as Hc _ _ _ _ _.
  destruct r2 as [[]|err]; [|exists p2; split; [done|by left]].
  rewrite Hcheck, Hp2.
  destruct (_ && _).
  - exists (state_of (Player.take_damage 1 p2 w2)).
    split; [by apply Hevent|].
    rewrite <- Hc. apply take_damage_health.
  - exists p2. split; [done|by left].
Qed.

Lemma one_damage_per_frame_witness :
  exists p',
    LevelLoader.the_player
      (state_of (LevelLoader.update crowded_loader (world_at 0.1)))
    = Some p'
    /\ (Player.current_health p' = Player.current_health tracked_player
        \/ Player.current_health p'
           = Z.max 0 (Player.current_health tracked_player - 1)).
Proof.
  apply (proj2 (proj2 (proj2 one_damage_per_frame)) crowded_loader (world_at 0.1)
           tracked_player).
  vm_compute. reflexivity.
Defined.

(** ** LevelLoader.load_current_level *)



Lemma load_current_level_cases self w :
  LevelLoader.load_current_level self w
  = match LevelLoader.level_sequence self
          !! LevelLoader.current_level_index self with
    | None => (Ok false, self, w)
    | Some level_name =>
        match load_attempt (level_path level_name) self w with
        | (Ok b, s', w') => (Ok b, s', w')
        | (Raise e, s', w') =>
            (Ok false, s', printed (ErrorLoadingLevel level_name e) w')
        end
    end.
Proof.
  unfold LevelLoader.load_current_level.
  cbv [mbind M_bind get] .
  destruct (LevelLoader.level_sequence self
              !! LevelLoader.current_level_index self) as [name|]; [|done].
  unfold try_except, load_attempt, level_path. cbv [mbind M_bind].
  destruct (load_pygame _ self w) as [[[tmx|e] s'] w']; [|done].
  by destruct (modify _ s' w') as [[[[]|e] s''] w''].
Qed.




(** ** Runs on the sample level *)

Example sample_player_built :
  result_of (Player.__init__ 16 16 tt sample_world) = Ok sample_player
  /\ Player.x sample_player = 16 /\ Player.y sample_player = 16
  /\ Player.current_health sample_player = 3
  /\ AnimatedSprite.current_animation (Player.sprite sample_player)
     = Some "idle_right"%string.
Proof. vm_compute. repeat split. Qed.

Example sample_loader_built :
  result_of (LevelLoader.__init__ LEVEL_SEQUENCE tt sample_level_world)
  = Ok sample_loader
  /\ LevelLoader.collision_grid sample_loader
     = [ [true; true; true; true; true; true; true; true];
         [false; false; false; true; false; false; false; false];
         [false; false; false; false; false; false; false; false];
         [false; false; false; false; false; false; false; false];
         [false; false; false; false; false; false; false; false];
         [false; false; false; false; false; false; false; false] ]
  /\ LevelLoader.player sample_loader = Some 0%nat
  /\ length (LevelLoader.entities sample_loader) = 3%nat
  /\ length (LevelLoader.animated_tiles sample_loader) = 1%nat
  /\ (Player.x <$> LevelLoader.the_player sample_loader) = Some 16.
Proof. vm_compute. repeat split. Qed.

(** Two rats on the player's tile cost one heart in a frame, not two, and
    the next frame, inside the invincibility window, costs none. *)
Example crowded_frame :
  let frame1 := LevelLoader.update crowded_loader (world_at 0.1) in
  let frame2 := LevelLoader.update (state_of frame1) (world_at 0.2) in
  result_of frame1 = Ok tt
  /\ (Player.current_health <$> LevelLoader.the_player crowded_loader)
     = Some 3
  /\ (Player.current_health <$> LevelLoader.the_player (state_of frame1))
     = Some 2
  /\ console (world_of frame1) = [PlayerTookDamage 1 2 3; PlayerHitByEnemy]
  /\ result_of frame2 = Ok tt
  /\ (Player.current_health <$> LevelLoader.the_player (state_of frame2))
     = Some 2.
Proof. vm_compute. repeat split. Qed.

(** A rat with [blocks = 2] walks two tiles to the right, one per
    [update] once the cooldown has passed, goes idle, and after three
    seconds turns round and moves again. *)
Example rat_patrol :
  let free := Some (fun _ _ : Z => Ok false) in
  let e1 := state_of (Enemy.update free sample_enemy (world_at 1)) in
  let e2 := state_of (Enemy.update free e1 (world_at 2)) in
  let e3 := state_of (Enemy.update free e2 (world_at 5)) in
  (Enemy.x sample_enemy, Enemy.y sample_enemy) = (80, 80)
  /\ (Enemy.x e1, Enemy.movement_state e1) = (96, moving)
  /\ (Enemy.x e2, Enemy.movement_state e2) = (112, idle)
  /\ (Enemy.x e3, Enemy.movement_state e3, Enemy.facing_direction e3)
     = (112, moving, left).
Proof. vm_compute. repeat split. Qed.

(** The player walks right into free tiles and is stopped by the block
    at tile (3, 1). *)
Example player_walks_to_the_block :
  let w := sample_level_world in
  let step1 := LevelLoader.move_player 1 0 sample_loader (tick_read w) in
  let step2 :=
    LevelLoader.move_player 1 0 (state_of step1) (tick_read (tick_read w)) in
  result_of step1 = Ok true
  /\ (Player.x <$> LevelLoader.the_player (state_of step1)) = Some 32
  /\ result_of step2 = Ok false
  /\ (Player.x <$> LevelLoader.the_player (state_of step2)) = Some 32.
Proof. vm_compute. repeat split. Qed.
(** * Further properties *)

(** ** AnimatedSprite *)

Lemma play_animation_unknown s w n reset :
  AnimatedSprite.animations s !! n = None ->
  AnimatedSprite.play_animation n reset s w
  = (Ok tt, s, printed (WarnAnimationNotFound n) w).
Proof. intros H. unfold AnimatedSprite.play_animation. msimpl. by rewrite H. Qed.

Lemma play_animation_running s w n :
  is_Some (AnimatedSprite.animations s !! n) ->
  AnimatedSprite.current_animation s = Some n ->
  AnimatedSprite.play_animation n false s w = (Ok tt, s, w).
Proof.
  intros [d H] Hc. unfold AnimatedSprite.play_animation. msimpl.
  rewrite H, Hc. by rewrite bool_decide_eq_true_2.
Qed.

Lemma play_animation_starts s w n reset :
  is_Some (AnimatedSprite.animations s !! n) ->
  AnimatedSprite.current_animation s <> Some n \/ reset = true ->
  AnimatedSprite.play_animation n reset s w
  = (Ok tt, started n (wall_clock w 0%nat) s, wall_read w).
Proof.
  intros [d H] Hor. unfold AnimatedSprite.play_animation. msimpl.
  rewrite H.
  destruct Hor as [Hne | ->].
  - by rewrite bool_decide_eq_false_2.
  - by rewrite orb_true_r.
Qed.

(** X1.  [play_animation] with a name the sprite does not have prints a
    warning and leaves the sprite as it is.  With the name of the clip
    that is playing and [reset = False] it changes nothing: the clip is
    not rewound, and one that has finished stays finished.  In every
    other case the clip starts: frame 0, not finished, timed from the
    clock reading, with the clips and the cache untouched. *)
Theorem play_animation_effect (s : AnimatedSprite.t) (w : World)
    (n : string) (reset : bool) :
  let run := AnimatedSprite.play_animation n reset s w in
  (AnimatedSprite.animations s !! n = None ->
   run = (Ok tt, s, printed (WarnAnimationNotFound n) w))
  /\ (is_Some (AnimatedSprite.animations s !! n) ->
      AnimatedSprite.current_animation s = Some n -> reset = false ->
      run = (Ok tt, s, w))
  /\ (is_Some (AnimatedSprite.animations s !! n) ->
      AnimatedSprite.current_animation s <> Some n \/ reset = true ->
      result_of run = Ok tt
      /\ AnimatedSprite.current_animation (state_of run) = Some n
      /\ AnimatedSprite.current_frame (state_of run) = 0
      /\ AnimatedSprite.animation_finished (state_of run) = false
      /\ AnimatedSprite.last_frame_time (state_of run) = wall_clock w 0%nat
      /\ AnimatedSprite.animations (state_of run)
         = AnimatedSprite.animations s
      /\ AnimatedSprite.frame_cache (state_of run)
         = AnimatedSprite.frame_cache s).
Proof.
  intros run. subst run. split; [|split].
  - apply play_animation_unknown.
  - intros H Hc ->. by apply play_animation_running.
  - intros H Hor. by rewrite play_animation_starts.
Qed.

Lemma play_animation_effect_witness :
  AnimatedSprite.play_animation "idle_right" false
    (Player.sprite sample_player) (world_at 3)
  = (Ok tt, Player.sprite sample_player, world_at 3).
Proof.
  pose proof (play_animation_effect (Player.sprite sample_player)
                (world_at 3) "idle_right" false) as H.
  cbv zeta in H. destruct H as (_ & H & _).
  apply H; [vm_compute; eauto | reflexivity | reflexivity].
Defined.

(** An update that is not due. *)
Lemma sprite_update_waits s w n d :
  AnimatedSprite.current_animation s = Some n ->
  AnimatedSprite.animations s !! n = Some d ->
  (wall_clock w 0 - AnimatedSprite.last_frame_time s
     < AnimatedSprite.duration d)%Q ->
  AnimatedSprite.update s w
  = (Ok tt, s,
     if AnimatedSprite.no_animation (Some n)
        || AnimatedSprite.animation_finished s
     then w else wall_read w).
Proof.
  intros Hc Hd Ht. unfold AnimatedSprite.update. msimpl. rewrite Hc.
  destruct (_ || _); [done|]. simpl. rewrite Hd.
  by rewrite (Qge_bool_false _ _ Ht).
Qed.



Lemma cut_frames_length sheet size cells fs :
  AnimatedSprite.cut_frames sheet size cells = Ok fs ->
  length fs = length cells.
Proof.
  revert fs. induction cells as [|[row col] rest IH]; intros fs; simpl.
  - by intros [= <-].
  - destruct (subsurface _ _ _ _ _); [|done].
    destruct (AnimatedSprite.cut_frames sheet size rest); [|done].
    intros [= <-]. simpl. f_equal. by apply IH.
Qed.

(** The loop of [_cache_frames] over a list of clips, when it ends. *)
Lemma cache_loop sheet size (l : list (string * AnimatedSprite.AnimData))
    s w s' w' :
  for_each l (fun '(anim_name, anim_data) =>
    modify (fun s => AnimatedSprite.set_frame_cache
                       (<[anim_name := []]> (AnimatedSprite.frame_cache s)) s);;
    fs ← lift (AnimatedSprite.cut_frames sheet size
                 (AnimatedSprite.frames anim_data));
    modify (fun s => AnimatedSprite.set_frame_cache
                       (<[anim_name := fs]> (AnimatedSprite.frame_cache s)) s))
    s w = (Ok tt, s', w') ->
  sprite_face s' = sprite_face s
  /\ (forall n, n ∉ l.*1 ->
        AnimatedSprite.frame_cache s' !! n = AnimatedSprite.frame_cache s !! n)
  /\ (NoDup l.*1 ->
      forall n d, (n, d) ∈ l ->
        exists cached,
          AnimatedSprite.frame_cache s' !! n = Some cached
          /\ length cached = length (AnimatedSprite.frames d)).
Proof.
  revert s w. induction l as [|[n0 d0] rest IH]; intros s w; simpl.
  - intros [= <- <-]. split; [done|]. split; [done|]. intros _ n d Hin.
    by apply elem_of_nil in Hin.
  - msimpl.
    destruct (AnimatedSprite.cut_frames sheet size (AnimatedSprite.frames d0))
      as [fs0|e] eqn:Hcut; [|done].
    intros Hrun. apply IH in Hrun as (Hface & Hout & Hin).
    split; [by rewrite Hface|]. split.
    + intros n Hn. apply not_elem_of_cons in Hn as [Hne Hn].
      rewrite Hout by done. simpl.
      by rewrite !lookup_insert_ne.
    + intros Hnd n d Hel. apply NoDup_cons in Hnd as [Hn0 Hnd].
      apply elem_of_cons in Hel as [[= -> ->]|Hel].
      * rewrite Hout by done. simpl. rewrite lookup_insert_eq.
        exists fs0. split; [done|]. by eapply cut_frames_length.
      * by apply Hin.
Qed.

(** The constructor, when it returns: the sprite has the clips it was
    given, plays nothing yet, and has every clip's frames in its cache. *)
Lemma sprite_init_ok {S} path size anims (st : S) w s st' w' :
  AnimatedSprite.__init__ path size anims st w = (Ok s, st', w') ->
  AnimatedSprite.animations s = anims
  /\ AnimatedSprite.current_animation s = None
  /\ cache_ok s.
Proof.
  unfold AnimatedSprite.__init__, image_load, construct.
  cbv [mbind M_bind].
  destruct (image_files w path) as [sheet|e]; [|done].
  match goal with
  | |- context [AnimatedSprite._cache_frames ?s0 w] =>
      destruct (AnimatedSprite._cache_frames s0 w)
        as [[[[]|e] s1] w1] eqn:Hloop;
      [pose proof (cache_loop sheet size (map_to_list anims) s0 w s1 w1
                     Hloop) as (Hface & _ & Hin)|done]
  end.
  intros [= <- <- <-].
  unfold sprite_face in Hface. simpl in Hface.
  injection Hface as _ _ Hanims Hcur _ _ _.
  split; [done|]. split; [done|].
  intros n d Hd. rewrite Hanims in Hd. apply Hin.
  - apply NoDup_fst_map_to_list.
  - by apply elem_of_map_to_list.
Qed.

Lemma nonempty_len {A} (l : list A) : l <> [] -> 0 < len l.
Proof. destruct l; [done|]. unfold len. simpl. lia. Qed.

Lemma play_animation_sound s w n reset :
  sprite_sound s ->
  result_of (AnimatedSprite.play_animation n reset s w) = Ok tt
  /\ sprite_sound (state_of (AnimatedSprite.play_animation n reset s w)).
Proof.
  intros (Hok & Hin & Hcache & Hne).
  destruct (AnimatedSprite.animations s !! n) as [d|] eqn:Hd.
  2:{ rewrite play_animation_unknown by done. done. }
  destruct (decide (AnimatedSprite.current_animation s = Some n)) as [Hc|Hc];
    [destruct reset|].
  - rewrite play_animation_starts by eauto. split; [done|].
    split; [|split; [|split]]; cbn [state_of fst snd].
    + intros m [= <-]. simpl. eauto.
    + intros m d' [= <-] Hd'. simpl in *. rewrite Hd in Hd'.
      injection Hd' as <-. split; [done|]. apply nonempty_len. eauto.
    + exact Hcache.
    + exact Hne.
  - rewrite play_animation_running by eauto. done.
  - rewrite play_animation_starts by eauto. split; [done|].
    split; [|split; [|split]]; cbn [state_of fst snd].
    + intros m [= <-]. simpl. eauto.
    + intros m d' [= <-] Hd'. simpl in *. rewrite Hd in Hd'.
      injection Hd' as <-. split; [done|]. apply nonempty_len. eauto.
    + exact Hcache.
    + exact Hne.
Qed.

Lemma sprite_update_sound s w :
  sprite_sound s ->
  result_of (AnimatedSprite.update s w) = Ok tt
  /\ sprite_sound (state_of (AnimatedSprite.update s w)).
Proof.
  intros Hs. assert (Hs' := Hs). destruct Hs' as (Hok & Hin & Hcache & Hne).
  destruct (AnimatedSprite.no_animation (AnimatedSprite.current_animation s)
            || AnimatedSprite.animation_finished s) eqn:Hidle.
  { unfold AnimatedSprite.update. msimpl. by rewrite Hidle. }
  apply orb_false_elim in Hidle as [Hna Hfin].
  destruct (AnimatedSprite.current_animation s) as [n|] eqn:Hc; [|done].
  destruct (Hok n Hc) as [d Hd].
  assert (Hn : n <> EmptyString).
  { intros ->. done. }
  destruct (Qlt_le_dec (wall_clock w 0 - AnimatedSprite.last_frame_time s)
              (AnimatedSprite.duration d)) as [Hwait|Hdue].
  { rewrite (sprite_update_waits s w n d) by done. done. }
  rewrite (sprite_update_advance s w n d) by done.
  split; [done|]. cbn [state_of fst snd]. cbv zeta.
  specialize (Hin n d Hc Hd).
  pose proof (nonempty_len _ (Hne n d Hd)) as Hlen.
  destruct (Z.geb_spec (AnimatedSprite.current_frame s + 1)
              (len (AnimatedSprite.frames d))) as [Hge|Hlt];
    [destruct (default true (AnimatedSprite.loop d))|];
    (split; [|split; [|split]];
     [ intros m Hm; simpl in Hm; rewrite Hc in Hm; injection Hm as <-;
       simpl; eauto
     | intros m d' Hm Hd'; simpl in Hm, Hd'; rewrite Hc in Hm;
       injection Hm as <-; rewrite Hd in Hd'; injection Hd' as <-;
       simpl; lia
     | exact Hcache
     | exact Hne ]).
Qed.

Lemma driven_sound s s' : driven s s' -> sprite_sound s -> sprite_sound s'.
Proof.
  induction 1 as [s|s n reset w s' _ IH|s w s' _ IH]; intros Hs; [done| |].
  - apply IH. by apply play_animation_sound.
  - apply IH. by apply sprite_update_sound.
Qed.

Lemma get_current_frame_sound s :
  sprite_sound s ->
  exists frame,
    AnimatedSprite.get_current_frame s = Ok frame
    /\ (AnimatedSprite.no_animation (AnimatedSprite.current_animation s)
        = false -> is_Some frame).
Proof.
  intros (Hok & Hin & Hcache & Hne). unfold AnimatedSprite.get_current_frame.
  destruct (AnimatedSprite.no_animation _) eqn:Hna; [by exists None|].
  destruct (AnimatedSprite.current_animation s) as [n|] eqn:Hc; [|done].
  destruct (Hok n Hc) as [d Hd].
  destruct (Hcache n d Hd) as (cached & Hcached & Hlen).
  specialize (Hin n d Hc Hd). simpl. rewrite Hcached.
  unfold py_index.
  destruct (Z.ltb_spec (AnimatedSprite.current_frame s) 0); [lia|].
  destruct (Z.ltb_spec (AnimatedSprite.current_frame s) 0); [lia|].
  destruct (cached !! Z.to_nat (AnimatedSprite.current_frame s))
    as [frame|] eqn:Hl.
  - exists (Some frame). eauto.
  - apply lookup_ge_None in Hl. unfold len in Hin. lia.
Qed.

(** X3.  A sprite that its constructor returned for clips none of which
    is empty, and that has since been driven by any calls of
    [play_animation] and [update], keeps its frame index inside the
    current clip; [update] on it never raises, and [get_current_frame]
    never raises and gives a frame whenever a clip is playing. *)
Theorem sprite_always_has_a_frame {S} (path : string) (size : Z)
    (anims : gmap string AnimatedSprite.AnimData)
    (st st' : S) (w w' : World) (s s' : AnimatedSprite.t) :
  AnimatedSprite.__init__ path size anims st w = (Ok s, st', w') ->
  clips_nonempty anims ->
  driven s s' ->
  frame_in_range s'
  /\ (forall v, result_of (AnimatedSprite.update s' v) = Ok tt)
  /\ exists frame,
       AnimatedSprite.get_current_frame s' = Ok frame
       /\ (AnimatedSprite.no_animation (AnimatedSprite.current_animation s')
           = false -> is_Some frame).
Proof.
  intros Hinit Hne Hrun.
  apply sprite_init_ok in Hinit as (Hanims & Hcur & Hcache).
  assert (Hs : sprite_sound s).
  { split; [|split; [|split]].
    - intros n Hn. by rewrite Hcur in Hn.
    - intros n d Hn. by rewrite Hcur in Hn.
    - done.
    - by rewrite Hanims. }
  pose proof (driven_sound s s' Hrun Hs) as Hs'.
  split; [apply Hs'|]. split.
  - intros v. by apply sprite_update_sound.
  - by apply get_current_frame_sound.
Qed.

Lemma player_clips_nonempty : clips_nonempty Player.player_animations.
Proof.
  unfold clips_nonempty.
  apply (bool_decide_unpack
           (map_Forall (fun _ d => AnimatedSprite.frames d <> [])
              Player.player_animations)).
  vm_compute. exact I.
Qed.

Lemma sprite_always_has_a_frame_witness :
  let s := Player.sprite sample_player in
  let s' := state_of
              (AnimatedSprite.update
                 (state_of (AnimatedSprite.play_animation "walk_left" false s
                              (world_at 1)))
                 (world_at 2)) in
  frame_in_range s'
  /\ (forall v, result_of (AnimatedSprite.update s' v) = Ok tt)
  /\ exists frame,
       AnimatedSprite.get_current_frame s' = Ok frame
       /\ (AnimatedSprite.no_animation (AnimatedSprite.current_animation s')
           = false -> is_Some frame).
Proof.
  intros s s'.
  apply (sprite_always_has_a_frame "images/player.png" TILE_SIZE
           Player.player_animations tt tt sample_world sample_world
           (ok_value (AnimatedSprite.__init__ "images/player.png" TILE_SIZE
                        Player.player_animations tt sample_world))).
  - vm_compute. reflexivity.
  - exact player_clips_nonempty.
  - apply (driven_play _ "idle_right"%string true sample_world).
    apply (driven_play _ "walk_left"%string false (world_at 1)).
    apply (driven_update _ (world_at 2)).
    apply driven_nil.
Defined.

(** ** Enemy *)

Lemma enemy_update_keeps_config query :
  stable enemy_config (Enemy.update query).
Proof.
  unfold Enemy.update, Enemy.play_facing, Enemy.on_sprite. stable_body.
Qed.

Lemma next_step_code (e : Enemy.t) :
  (Enemy.x e
   + (if py_eq_str (Enemy.enemy_movement e) "horizontal"
      then match Enemy.facing_direction e with right => 1 | left => -1 end
      else 0) * TILE_SIZE,
   Enemy.y e
   + (if py_eq_str (Enemy.enemy_movement e) "horizontal" then 0
      else if py_eq_str (Enemy.enemy_movement e) "vertical"
      then match Enemy.facing_direction e with right => 1 | left => -1 end
      else 0) * TILE_SIZE)
  = next_step e.
Proof.
  unfold next_step.
  destruct (py_eq_str (Enemy.enemy_movement e) "horizontal"),
    (py_eq_str (Enemy.enemy_movement e) "vertical");
    simpl; f_equal; lia.
Qed.

(** After the branches of [update], only the sprite is touched. *)
Lemma wp_enemy_rest (m : M Enemy.t unit) (b : Z * Z * Facing * MovementState * Z * Q * Q)
    e w :
  stable enemy_body m ->
  enemy_body e = b ->
  wp m
    (fun r e1 w1 =>
       match r with
       | Ok _ =>
           wp (Enemy.on_sprite AnimatedSprite.update)
             (fun _ e' _ => enemy_body e' = b) e1 w1
       | Raise _ => enemy_body e1 = b
       end) e w.
Proof.
  intros Hst Hb. apply (wp_stable enemy_body); [done|].
  intros r e1 w1 H1. destruct r as [[]|err].
  - apply (wp_stable enemy_body); [apply enemy_on_sprite_keeps_body|].
    intros ? e2 ? H2. by rewrite H2, H1.
  - by rewrite H1.
Qed.

(** [update], apart from the sprite. *)
Lemma enemy_update_body query e w :
  match enemy_transition query (wall_clock w 0%nat) e with
  | Ok b => enemy_body (state_of (Enemy.update query e w)) = b
  | Raise err => Enemy.update query e w = (Raise err, e, wall_read w)
  end.
Proof.
  unfold enemy_transition.
  destruct (Enemy.movement_state e) eqn:Hm.
  - destruct (Qge_bool _ _) eqn:Hdue.
    + destruct (match query with
                | Some blocked => blocked (next_step e).1 (next_step e).2
                | None => Ok false
                end) as [[|]|err] eqn:Hq.
      * (* blocked *)
        change (wp (Enemy.update query)
                  (fun _ e' _ =>
                     enemy_body e'
                     = (Enemy.x e, Enemy.y e, Enemy.facing_direction e, idle,
                        0, wall_clock w 0%nat, Enemy.last_move_time e)) e w).
        unfold Enemy.update. repeat wp_step. rewrite Hm, Hdue.
        destruct query as [blocked|]; [|done].
        repeat wp_step.
        rewrite <- (next_step_code e) in Hq. cbn [fst snd] in Hq.
        rewrite Hq. repeat wp_step. cbn [negb]. repeat wp_step.
        apply wp_enemy_rest; [apply play_facing_keeps_body|done].
      * (* free *)
        assert (Hcan : forall Q0,
          Q0 (Ok true) e (wall_read w) ->
          wp (match query with
              | Some is_position_blocked =>
                  blocked ← lift (is_position_blocked
                    (Enemy.x e
                     + (if py_eq_str (Enemy.enemy_movement e) "horizontal"
                        then match Enemy.facing_direction e with
                             | right => 1 | left => -1 end
                        else 0) * TILE_SIZE)
                    (Enemy.y e
                     + (if py_eq_str (Enemy.enemy_movement e) "horizontal"
                        then 0
                        else if py_eq_str (Enemy.enemy_movement e) "vertical"
                        then match Enemy.facing_direction e with
                             | right => 1 | left => -1 end
                        else 0) * TILE_SIZE));
                  mret (negb blocked)
              | None => mret true
              end) Q0 e (wall_read w)).
        { intros Q0 HQ. destruct query as [blocked|]; repeat wp_step; [|done].
          rewrite <- (next_step_code e) in Hq. cbn [fst snd] in Hq.
          by rewrite Hq. }
        destruct (Enemy.blocks_moved e + 1 >=? Enemy.blocks e) eqn:Hleg.
        -- change (wp (Enemy.update query)
                     (fun _ e' _ =>
                        enemy_body e'
                        = ((next_step e).1, (next_step e).2,
                           Enemy.facing_direction e, idle, 0,
                           wall_clock w 0%nat, wall_clock w 0%nat)) e w).
           rewrite <- (next_step_code e). cbn [fst snd].
           unfold Enemy.update. repeat wp_step. rewrite Hm, Hdue.
           repeat wp_step. apply Hcan. cbv beta iota.
           repeat wp_step. cbn [Enemy.blocks_moved Enemy.set_last_move_time
             Enemy.set_blocks_moved Enemy.set_y Enemy.set_x Enemy.blocks].
           rewrite Hleg. repeat wp_step.
           apply wp_enemy_rest; [apply play_facing_keeps_body|done].
        -- change (wp (Enemy.update query)
                     (fun _ e' _ =>
                        enemy_body e'
                        = ((next_step e).1, (next_step e).2,
                           Enemy.facing_direction e, moving,
                           Enemy.blocks_moved e + 1,
                           Enemy.idle_start_time e, wall_clock w 0%nat))
                     e w).
           rewrite <- (next_step_code e). cbn [fst snd].
           unfold Enemy.update. repeat wp_step. rewrite Hm, Hdue.
           repeat wp_step. apply Hcan. cbv beta iota.
           repeat wp_step. cbn [Enemy.blocks_moved Enemy.set_last_move_time
             Enemy.set_blocks_moved Enemy.set_y Enemy.set_x Enemy.blocks].
           rewrite Hleg.
           apply wp_enemy_rest; [apply stable_ret|].
           unfold enemy_body. simpl. by rewrite Hm.
      * (* the query raises *)
        destruct query as [blocked|]; [|done].
        rewrite <- (next_step_code e) in Hq. cbn [fst snd] in Hq.
        unfold Enemy.update. msimpl. rewrite Hm, Hdue, Hq. done.
    + change (wp (Enemy.update query)
                (fun _ e' _ => enemy_body e' = enemy_body e) e w).
      unfold Enemy.update. repeat wp_step. rewrite Hm, Hdue.
      apply wp_enemy_rest; [apply play_facing_keeps_body|done].
  - destruct (Qge_bool _ _) eqn:Hdue.
    + change (wp (Enemy.update query)
                (fun _ e' _ =>
                   enemy_body e'
                   = (Enemy.x e, Enemy.y e,
                      turned (Enemy.facing_direction e), moving,
                      Enemy.blocks_moved e, Enemy.idle_start_time e,
                      wall_clock w 0%nat)) e w).
      unfold Enemy.update. repeat wp_step. rewrite Hm, Hdue.
      repeat wp_step.
      apply wp_enemy_rest; [apply play_facing_keeps_body|done].
    + change (wp (Enemy.update query)
                (fun _ e' _ => enemy_body e' = enemy_body e) e w).
      unfold Enemy.update. repeat wp_step. rewrite Hm, Hdue.
      apply wp_enemy_rest; [apply stable_ret|done].
Qed.

Lemma enemy_body_fields (e : Enemy.t) b :
  enemy_body e = b ->
  Enemy.x e = b.1.1.1.1.1.1 /\ Enemy.y e = b.1.1.1.1.1.2
  /\ Enemy.facing_direction e = b.1.1.1.1.2
  /\ Enemy.movement_state e = b.1.1.1.2
  /\ Enemy.blocks_moved e = b.1.1.2
  /\ Enemy.idle_start_time e = b.1.2
  /\ Enemy.last_move_time e = b.2.
Proof. intros <-. done. Qed.

(** One [update] with a loader leaves the enemy where it is or puts it
    on the next tile, which the loader then reported free. *)
Lemma enemy_stays_or_steps (blocked : Z -> Z -> result bool) e w :
  (Enemy.x (state_of (Enemy.update (Some blocked) e w)),
   Enemy.y (state_of (Enemy.update (Some blocked) e w)))
  = (Enemy.x e, Enemy.y e)
  \/ ((Enemy.x (state_of (Enemy.update (Some blocked) e w)),
       Enemy.y (state_of (Enemy.update (Some blocked) e w)))
      = next_step e
      /\ blocked (next_step e).1 (next_step e).2 = Ok false).
Proof.
  pose proof (enemy_update_body (Some blocked) e w) as H.
  unfold enemy_transition in H.
  destruct (Enemy.movement_state e); destruct (Qge_bool _ _).
  - destruct (blocked (next_step e).1 (next_step e).2)
      as [[|]|err] eqn:Hq.
    + apply enemy_body_fields in H as (Hx & Hy & _). simpl in *.
      left. by rewrite Hx, Hy.
    + right. split; [|done].
      destruct (Enemy.blocks_moved e + 1 >=? Enemy.blocks e);
        apply enemy_body_fields in H as (Hx & Hy & _); simpl in *;
        rewrite Hx, Hy; by destruct (next_step e).
    + left. by rewrite H.
  - apply enemy_body_fields in H as (Hx & Hy & _). simpl in *.
    left. by rewrite Hx, Hy.
  - apply enemy_body_fields in H as (Hx & Hy & _). simpl in *.
    left. by rewrite Hx, Hy.
  - apply enemy_body_fields in H as (Hx & Hy & _). simpl in *.
    left. by rewrite Hx, Hy.
Qed.

(** The transitions of [update], one by one. *)
Lemma enemy_rests query e w :
  (Enemy.movement_state e = moving
   /\ (wall_clock w 0 - Enemy.last_move_time e < Enemy.move_cooldown e)%Q)
  \/ (Enemy.movement_state e = idle
      /\ (wall_clock w 0 - Enemy.idle_start_time e
            < Enemy.idle_duration e)%Q) ->
  enemy_body (state_of (Enemy.update query e w)) = enemy_body e.
Proof.
  intros H. pose proof (enemy_update_body query e w) as Hb.
  unfold enemy_transition in Hb.
  destruct H as [[Hm Ht]|[Hm Ht]]; rewrite Hm in Hb;
    by rewrite (Qge_bool_false _ _ Ht) in Hb.
Qed.

Lemma enemy_step_body query e w :
  Enemy.movement_state e = moving ->
  (Enemy.move_cooldown e <= wall_clock w 0 - Enemy.last_move_time e)%Q ->
  match query with
  | Some blocked => blocked (next_step e).1 (next_step e).2 = Ok false
  | None => True
  end ->
  enemy_body (state_of (Enemy.update query e w))
  = if Enemy.blocks_moved e + 1 >=? Enemy.blocks e
    then ((next_step e).1, (next_step e).2, Enemy.facing_direction e, idle,
          0, wall_clock w 0%nat, wall_clock w 0%nat)
    else ((next_step e).1, (next_step e).2, Enemy.facing_direction e, moving,
          Enemy.blocks_moved e + 1, Enemy.idle_start_time e,
          wall_clock w 0%nat).
Proof.
  intros Hm Hdue Hfree.
  pose proof (enemy_update_body query e w) as H.
  unfold enemy_transition in H.
  rewrite Hm, (Qge_bool_true _ _ Hdue) in H.
  replace (match query with
           | Some blocked => blocked (next_step e).1 (next_step e).2
           | None => Ok false
           end) with (Ok false (A:=bool)) in H
    by (by destruct query).
  by destruct (_ >=? _).
Qed.

Lemma enemy_turn_body query e w :
  Enemy.movement_state e = idle ->
  (Enemy.idle_duration e
     <= wall_clock w 0 - Enemy.idle_start_time e)%Q ->
  enemy_body (state_of (Enemy.update query e w))
  = (Enemy.x e, Enemy.y e, turned (Enemy.facing_direction e), moving,
     Enemy.blocks_moved e, Enemy.idle_start_time e, wall_clock w 0%nat).
Proof.
  intros Hm Hover.
  pose proof (enemy_update_body query e w) as H.
  unfold enemy_transition in H.
  by rewrite Hm, (Qge_bool_true _ _ Hover) in H.
Qed.

(** X4.  A moving enemy whose cooldown has passed and whose next tile is
    not blocked (or that was given no loader) steps onto that tile and
    restarts its cooldown.  If that step completes the leg, that is if
    the counter reaches [blocks], it goes idle at once with the counter
    back at 0; in particular an enemy with [blocks] of 1 or less goes
    idle after every single step.  Otherwise it keeps moving with the
    counter one higher. *)
Theorem enemy_free_step (query : option (Z -> Z -> result bool))
    (e : Enemy.t) (w : World) :
  Enemy.movement_state e = moving ->
  (Enemy.move_cooldown e <= wall_clock w 0 - Enemy.last_move_time e)%Q ->
  match query with
  | Some blocked => blocked (next_step e).1 (next_step e).2 = Ok false
  | None => True
  end ->
  let e' := state_of (Enemy.update query e w) in
  (Enemy.x e', Enemy.y e') = next_step e
  /\ Enemy.facing_direction e' = Enemy.facing_direction e
  /\ Enemy.last_move_time e' = wall_clock w 0%nat
  /\ (Enemy.blocks_moved e + 1 < Enemy.blocks e ->
      Enemy.movement_state e' = moving
      /\ Enemy.blocks_moved e' = Enemy.blocks_moved e + 1
      /\ Enemy.idle_start_time e' = Enemy.idle_start_time e)
  /\ (Enemy.blocks e <= Enemy.blocks_moved e + 1 ->
      Enemy.movement_state e' = idle
      /\ Enemy.blocks_moved e' = 0
      /\ Enemy.idle_start_time e' = wall_clock w 0%nat).
Proof.
  intros Hm Hdue Hfree e'. subst e'.
  pose proof (enemy_update_body query e w) as H.
  unfold enemy_transition in H.
  rewrite Hm, (Qge_bool_true _ _ Hdue) in H.
  replace (match query with
           | Some blocked => blocked (next_step e).1 (next_step e).2
           | None => Ok false
           end) with (Ok false (A:=bool)) in H
    by (by destruct query).
  destruct (Z.geb_spec (Enemy.blocks_moved e + 1) (Enemy.blocks e));
    apply enemy_body_fields in H as (Hx & Hy & Hf & Hs & Hb & Hi & Hl);
    simpl in *; rewrite Hx, Hy;
    (repeat split; try done; try lia; by destruct (next_step e)).
Qed.

Lemma enemy_free_step_witness :
  let e' := state_of (Enemy.update None sample_enemy (world_at 1)) in
  (Enemy.x e', Enemy.y e') = (96, 80)
  /\ Enemy.movement_state e' = moving
  /\ Enemy.blocks_moved e' = 1.
Proof.
  intros e'.
  destruct (enemy_free_step None sample_enemy (world_at 1))
    as (Hpos & _ & _ & Hmore & _);
    [reflexivity | apply Qle_by_bool; vm_compute; reflexivity | exact I |].
  destruct Hmore as (Hm & Hb & _); [reflexivity|].
  split; [exact Hpos|]. split; [exact Hm | exact Hb].
Defined.

(** X5.  An enemy that is moving but inside its cooldown, or idle with
    its idle time not yet over, is left where and as it is by [update]:
    position, facing, state, leg counter and both clocks are unchanged
    (only the sprite is animated). *)
Theorem enemy_waits (query : option (Z -> Z -> result bool))
    (e : Enemy.t) (w : World) :
  (Enemy.movement_state e = moving
   /\ (wall_clock w 0 - Enemy.last_move_time e < Enemy.move_cooldown e)%Q)
  \/ (Enemy.movement_state e = idle
      /\ (wall_clock w 0 - Enemy.idle_start_time e
            < Enemy.idle_duration e)%Q) ->
  enemy_body (state_of (Enemy.update query e w)) = enemy_body e
  /\ enemy_config (state_of (Enemy.update query e w)) = enemy_config e.
Proof.
  intros H. split; [|apply enemy_update_keeps_config].
  pose proof (enemy_update_body query e w) as Hb.
  unfold enemy_transition in Hb.
  destruct H as [[Hm Ht]|[Hm Ht]]; rewrite Hm in Hb;
    by rewrite (Qge_bool_false _ _ Ht) in Hb.
Qed.

Lemma enemy_waits_witness :
  enemy_body (state_of (Enemy.update None sample_enemy (world_at 0.2)))
  = enemy_body sample_enemy.
Proof.
  apply (enemy_waits None sample_enemy (world_at 0.2)).
  left. split; [reflexivity|].
  apply Qlt_by_bool. vm_compute. reflexivity.
Defined.

(** X6.  An idle enemy whose idle time is over turns round and starts
    moving, on the spot: the position and the leg counter are unchanged
    and the move cooldown restarts at the time read, so that a further
    [update] made before that cooldown has passed does not move it
    either. *)
Theorem enemy_turns_round (query query' : option (Z -> Z -> result bool))
    (e : Enemy.t) (w w' : World) :
  Enemy.movement_state e = idle ->
  (Enemy.idle_duration e
     <= wall_clock w 0 - Enemy.idle_start_time e)%Q ->
  let e1 := state_of (Enemy.update query e w) in
  (Enemy.x e1, Enemy.y e1) = (Enemy.x e, Enemy.y e)
  /\ Enemy.facing_direction e1 = turned (Enemy.facing_direction e)
  /\ Enemy.movement_state e1 = moving
  /\ Enemy.blocks_moved e1 = Enemy.blocks_moved e
  /\ Enemy.last_move_time e1 = wall_clock w 0%nat
  /\ ((wall_clock w' 0 - wall_clock w 0 < Enemy.move_cooldown e)%Q ->
      enemy_body (state_of (Enemy.update query' e1 w')) = enemy_body e1).
Proof.
  intros Hm Hover e1. subst e1.
  pose proof (enemy_update_body query e w) as H.
  unfold enemy_transition in H.
  rewrite Hm, (Qge_bool_true _ _ Hover) in H.
  pose proof (enemy_update_keeps_config query e w) as Hc.
  revert H Hc. generalize (state_of (Enemy.update query e w)). intros e1 H Hc.
  apply enemy_body_fields in H as (Hx & Hy & Hf & Hs & Hb & Hi & Hl).
  simpl in *. rewrite Hx, Hy. repeat split; try done.
  intros Ht. apply enemy_rests. left. split; [done|].
  injection Hc as _ _ _ _ _ _ Hcool. by rewrite Hl, Hcool.
Qed.

Lemma enemy_turns_round_witness :
  let rested :=
    Enemy.set_movement_state idle (Enemy.set_idle_start_time 2 sample_enemy)
  in
  Enemy.facing_direction
    (state_of (Enemy.update None rested (world_at 5))) = left.
Proof.
  intros rested.
  destruct (enemy_turns_round None None rested (world_at 5) (world_at 5))
    as (_ & Hf & _);
    [reflexivity | apply Qle_by_bool; vm_compute; reflexivity | exact Hf].
Defined.

(** X7.  Whatever the state and the time, one [update] with a loader
    leaves the enemy on its tile or puts it on the next tile along its
    axis, and the latter only when the loader's query answered that tile
    not blocked.  The configuration never changes, a horizontal enemy
    keeps its row, a vertical one its column, and an enemy of any other
    movement type stays put.  When a moving enemy is due to step and the
    query itself raises, [update] raises that exception with the enemy
    untouched. *)
Theorem enemy_moves_only_onto_free_tiles
    (blocked : Z -> Z -> result bool) (e : Enemy.t) (w : World) :
  let run := Enemy.update (Some blocked) e w in
  let e' := state_of run in
  ((Enemy.x e', Enemy.y e') = (Enemy.x e, Enemy.y e)
   \/ ((Enemy.x e', Enemy.y e') = next_step e
       /\ blocked (next_step e).1 (next_step e).2 = Ok false))
  /\ enemy_config e' = enemy_config e
  /\ (py_eq_str (Enemy.enemy_movement e) "horizontal" = true ->
      Enemy.y e' = Enemy.y e)
  /\ (py_eq_str (Enemy.enemy_movement e) "horizontal" = false ->
      py_eq_str (Enemy.enemy_movement e) "vertical" = true ->
      Enemy.x e' = Enemy.x e)
  /\ (py_eq_str (Enemy.enemy_movement e) "horizontal" = false ->
      py_eq_str (Enemy.enemy_movement e) "vertical" = false ->
      (Enemy.x e', Enemy.y e') = (Enemy.x e, Enemy.y e))
  /\ (forall err,
        Enemy.movement_state e = moving ->
        (Enemy.move_cooldown e
           <= wall_clock w 0 - Enemy.last_move_time e)%Q ->
        blocked (next_step e).1 (next_step e).2 = Raise err ->
        run = (Raise err, e, wall_read w)).
Proof.
  intros run e'. subst run e'.
  pose proof (enemy_update_body (Some blocked) e w) as H.
  unfold enemy_transition in H.
  pose proof (enemy_stays_or_steps blocked e w) as Hpos.
  split; [exact Hpos|]. split; [apply enemy_update_keeps_config|].
  assert (Hns : next_step e
                = (if py_eq_str (Enemy.enemy_movement e) "horizontal"
                   then (Enemy.x e
                         + match Enemy.facing_direction e with
                           | right => 1 | left => -1 end * TILE_SIZE,
                         Enemy.y e)
                   else if py_eq_str (Enemy.enemy_movement e) "vertical"
                   then (Enemy.x e,
                         Enemy.y e
                         + match Enemy.facing_direction e with
                           | right => 1 | left => -1 end * TILE_SIZE)
                   else (Enemy.x e, Enemy.y e))) by done.
  split; [|split; [|split]].
  - intros Hh. rewrite Hh in Hns.
    destruct Hpos as [Hp|[Hp _]]; [by injection Hp|].
    rewrite Hns in Hp. by injection Hp.
  - intros Hh Hv. rewrite Hh, Hv in Hns.
    destruct Hpos as [Hp|[Hp _]]; [by injection Hp|].
    rewrite Hns in Hp. by injection Hp.
  - intros Hh Hv. rewrite Hh, Hv in Hns.
    destruct Hpos as [Hp|[Hp _]]; [done|]. by rewrite Hp, Hns.
  - intros err Hm Hdue Hq.
    by rewrite Hm, (Qge_bool_true _ _ Hdue), Hq in H.
Qed.

Lemma enemy_moves_only_onto_free_tiles_witness :
  Enemy.update (Some (fun _ _ => Raise IndexError)) sample_enemy (world_at 1)
  = (Raise IndexError, sample_enemy, wall_read (world_at 1)).
Proof.
  pose proof (enemy_moves_only_onto_free_tiles
                (fun _ _ => Raise IndexError) sample_enemy (world_at 1)) as H.
  cbv zeta in H. destruct H as (_ & _ & _ & _ & _ & H).
  apply H; [reflexivity | apply Qle_by_bool; vm_compute; reflexivity
           | reflexivity].
Defined.

Lemma step_vector_same (e e1 : Enemy.t) :
  Enemy.enemy_movement e1 = Enemy.enemy_movement e ->
  Enemy.facing_direction e1 = Enemy.facing_direction e ->
  step_vector e1 = step_vector e.
Proof.
  intros Hm Hf. unfold step_vector, next_step. rewrite Hm, Hf.
  destruct (py_eq_str (Enemy.enemy_movement e) "horizontal"),
    (py_eq_str (Enemy.enemy_movement e) "vertical");
    simpl; f_equal; lia.
Qed.

Lemma step_vector_turned (e e1 : Enemy.t) :
  Enemy.enemy_movement e1 = Enemy.enemy_movement e ->
  Enemy.facing_direction e1 = turned (Enemy.facing_direction e) ->
  step_vector e1 = (- (step_vector e).1, - (step_vector e).2).
Proof.
  intros Hm Hf. unfold step_vector, next_step. rewrite Hm, Hf.
  destruct (py_eq_str (Enemy.enemy_movement e) "horizontal"),
    (py_eq_str (Enemy.enemy_movement e) "vertical"),
    (Enemy.facing_direction e); simpl; f_equal; lia.
Qed.

(** A leg: the due steps on open ground that are left until the counter
    reaches [blocks]. *)
Lemma enemy_leg query k e e' :
  walks query k e e' ->
  open_ground query ->
  Enemy.movement_state e = moving ->
  Z.of_nat k = Z.max 1 (Enemy.blocks e - Enemy.blocks_moved e) ->
  Enemy.x e' = Enemy.x e + Z.of_nat k * (step_vector e).1
  /\ Enemy.y e' = Enemy.y e + Z.of_nat k * (step_vector e).2
  /\ Enemy.facing_direction e' = Enemy.facing_direction e
  /\ Enemy.movement_state e' = idle
  /\ Enemy.blocks_moved e' = 0
  /\ enemy_config e' = enemy_config e.
Proof.
  intros Hwalk Hopen. induction Hwalk as [e|k e w e' Hdue Hwalk IH].
  { intros _ Hk. lia. }
  intros Hm Hk.
  assert (Hfree : match query with
                  | Some blocked =>
                      blocked (next_step e).1 (next_step e).2 = Ok false
                  | None => True
                  end)
    by (destruct query as [blocked|]; [apply Hopen|done]).
  pose proof (enemy_step_body query e w Hm Hdue Hfree) as Hstep.
  assert (H4 :
    (Enemy.x (state_of (Enemy.update query e w)),
     Enemy.y (state_of (Enemy.update query e w))) = next_step e
    /\ Enemy.facing_direction (state_of (Enemy.update query e w))
       = Enemy.facing_direction e
    /\ (Enemy.blocks_moved e + 1 < Enemy.blocks e ->
        Enemy.movement_state (state_of (Enemy.update query e w)) = moving
        /\ Enemy.blocks_moved (state_of (Enemy.update query e w))
           = Enemy.blocks_moved e + 1 /\ True)
    /\ (Enemy.blocks e <= Enemy.blocks_moved e + 1 ->
        Enemy.movement_state (state_of (Enemy.update query e w)) = idle
        /\ Enemy.blocks_moved (state_of (Enemy.update query e w)) = 0
        /\ True)).
  { destruct (Z.geb_spec (Enemy.blocks_moved e + 1) (Enemy.blocks e));
      apply enemy_body_fields in Hstep as (Hx & Hy & Hf & Hs & Hb & _);
      simpl in *; rewrite Hx, Hy;
      (repeat split; try done; try lia; by destruct (next_step e)). }
  clear Hstep. destruct H4 as (Hpos & Hf & Hgo & Hend).
  pose proof (enemy_update_keeps_config query e w) as Hc.
  revert Hwalk IH Hpos Hf Hgo Hend Hc.
  generalize (state_of (Enemy.update query e w)).
  intros e1 Hwalk IH Hpos Hf Hgo Hend Hc.
  assert (Hxy : Enemy.x e1 = Enemy.x e + (step_vector e).1
                /\ Enemy.y e1 = Enemy.y e + (step_vector e).2).
  { unfold step_vector. rewrite <- Hpos. simpl. lia. }
  destruct Hxy as [Hx Hy].
  assert (Hcfg := Hc). injection Hc as _ Hmv Hbl _ _ _ _.
  destruct (Z.lt_ge_cases (Enemy.blocks_moved e + 1) (Enemy.blocks e))
    as [Hlt|Hge].
  - destruct (Hgo Hlt) as (Hm1 & Hb1 & _).
    destruct IH as (Hx' & Hy' & Hf' & Hm' & Hb' & Hc'); [done|lia|].
    rewrite (step_vector_same e e1) in Hx', Hy' by done.
    rewrite Hx', Hy', Hf', Hx, Hy, Hc'. repeat split; try done; lia.
  - destruct (Hend Hge) as (Hm1 & Hb1 & _).
    assert (k = 0%nat) as -> by lia.
    inversion Hwalk; subst.
    repeat split; try done; lia.
Qed.

(** X8.  The patrol on open ground.  From the start of a leg, [blocks]
    due steps take the enemy [blocks] tiles along its axis and leave it
    idle; once the idle time is over the next [update] turns it round;
    and [blocks] due steps later it is idle again on the tile it started
    from, facing the other way. *)
Theorem enemy_patrol_round_trip (query : option (Z -> Z -> result bool))
    (k : nat) (e0 e1 e3 : Enemy.t) (w : World) :
  open_ground query ->
  Enemy.movement_state e0 = moving -> Enemy.blocks_moved e0 = 0 ->
  1 <= Enemy.blocks e0 -> Z.of_nat k = Enemy.blocks e0 ->
  walks query k e0 e1 ->
  (Enemy.idle_duration e1
     <= wall_clock w 0 - Enemy.idle_start_time e1)%Q ->
  walks query k (state_of (Enemy.update query e1 w)) e3 ->
  (Enemy.x e1, Enemy.y e1)
  = (Enemy.x e0 + Enemy.blocks e0 * (step_vector e0).1,
     Enemy.y e0 + Enemy.blocks e0 * (step_vector e0).2)
  /\ Enemy.movement_state e1 = idle
  /\ (Enemy.x e3, Enemy.y e3) = (Enemy.x e0, Enemy.y e0)
  /\ Enemy.facing_direction e3 = turned (Enemy.facing_direction e0)
  /\ Enemy.movement_state e3 = idle.
Proof.
  intros Hopen Hm Hb Hn Hk Hout Hover Hback.
  destruct (enemy_leg query k e0 e1 Hout Hopen Hm)
    as (Hx1 & Hy1 & Hf1 & Hm1 & Hb1 & Hc1); [lia|].
  pose proof (enemy_turn_body query e1 w Hm1 Hover) as Hturn.
  apply enemy_body_fields in Hturn as (Hx2 & Hy2 & Hf2 & Hm2 & Hb2 & _).
  cbn [fst snd] in Hx2, Hy2, Hf2, Hm2, Hb2.
  pose proof (enemy_update_keeps_config query e1 w) as Hc2.
  revert Hback Hx2 Hy2 Hf2 Hm2 Hb2 Hc2.
  generalize (state_of (Enemy.update query e1 w)).
  intros e2 Hback Hx2 Hy2 Hf2 Hm2 Hb2 Hc2.
  assert (Hmv2 : Enemy.enemy_movement e2 = Enemy.enemy_movement e0).
  { injection Hc2 as _ -> _ _ _ _ _. by injection Hc1. }
  assert (Hbl2 : Enemy.blocks e2 = Enemy.blocks e0).
  { injection Hc2 as _ _ -> _ _ _ _. by injection Hc1. }
  destruct (enemy_leg query k e2 e3 Hback Hopen Hm2)
    as (Hx3 & Hy3 & Hf3 & Hm3 & _); [lia|].
  rewrite (step_vector_turned e0 e2) in Hx3, Hy3
    by (by rewrite ?Hf2, ?Hf1).
  cbn [fst snd] in Hx3, Hy3.
  rewrite Hx1, Hy1, Hx3, Hy3, Hx2, Hy2, Hx1, Hy1, Hf3, Hf2, Hf1, <- Hk.
  repeat split; try done; f_equal; lia.
Qed.

Lemma enemy_patrol_round_trip_witness :
  let e1 := state_of (Enemy.update None
              (state_of (Enemy.update None sample_enemy (world_at 1)))
              (world_at 2)) in
  let e2 := state_of (Enemy.update None e1 (world_at 5)) in
  let e3 := state_of (Enemy.update None
              (state_of (Enemy.update None e2 (world_at 6)))
              (world_at 7)) in
  (Enemy.x e1, Enemy.movement_state e1) = (112, idle)
  /\ (Enemy.x e3, Enemy.y e3) = (Enemy.x sample_enemy, Enemy.y sample_enemy)
  /\ Enemy.facing_direction e3 = left.
Proof.
  intros e1 e2 e3.
  destruct (enemy_patrol_round_trip None 2 sample_enemy e1 e3 (world_at 5))
    as (Hp1 & Hm1 & Hp3 & Hf3 & _).
  - exact I.
  - reflexivity.
  - reflexivity.
  - vm_compute. discriminate.
  - reflexivity.
  - apply (walks_S None 1 sample_enemy (world_at 1));
      [apply Qle_by_bool; vm_compute; reflexivity|].
    apply (walks_S None 0 _ (world_at 2));
      [apply Qle_by_bool; vm_compute; reflexivity|].
    apply walks_O.
  - apply Qle_by_bool. vm_compute. reflexivity.
  - apply (walks_S None 1 _ (world_at 6));
      [apply Qle_by_bool; vm_compute; reflexivity|].
    apply (walks_S None 0 _ (world_at 7));
      [apply Qle_by_bool; vm_compute; reflexivity|].
    apply walks_O.
  - split; [|split; [exact Hp3 | exact Hf3]].
    rewrite Hm1. apply (f_equal (fun p => (p.1, idle))) in Hp1. exact Hp1.
Defined.

(** ** LevelLoader: the collision grid *)

Lemma set_collision_grid_same (s : LevelLoader.t) :
  LevelLoader.set_collision_grid (LevelLoader.collision_grid s) s = s.
Proof. by destruct s. Qed.

(** The marking loop of [_create_collision_grid] is a fold of
    [mark_cell]. *)
Lemma grid_loop gw gh cells (s : LevelLoader.t) w :
  for_each cells (fun '(x, y, gid) =>
    if negb (gid =? 0) then
      if (0 <=? y) && (y <? gh) && (0 <=? x) && (x <? gw)
      then
        modify (fun s =>
          LevelLoader.set_collision_grid
            (alter (<[Z.to_nat x := true]>) (Z.to_nat y)
               (LevelLoader.collision_grid s)) s)
      else mret tt
    else mret tt) s w
  = (Ok tt,
     LevelLoader.set_collision_grid
       (foldl (fun g c => mark_cell gw gh c g)
          (LevelLoader.collision_grid s) cells) s,
     w).
Proof.
  revert s. induction cells as [|[[x y] gid] cells IH]; intros s.
  { simpl. by rewrite set_collision_grid_same. }
  cbn [for_each foldl]. unfold mbind at 1, M_bind at 1.
  unfold mark_cell at 2.
  destruct (negb (gid =? 0)); cbn [andb].
  - destruct ((0 <=? y) && (y <? gh) && (0 <=? x) && (x <? gw)).
    + unfold modify at 1. rewrite IH. by destruct s.
    + unfold mret at 1, M_ret at 1. by rewrite IH.
  - unfold mret at 1, M_ret at 1. by rewrite IH.
Qed.

Lemma mark_cell_length gw gh c g :
  length (mark_cell gw gh c g) = length g.
Proof.
  destruct c as [[x y] gid]. unfold mark_cell.
  destruct (_ && _); [|done]. by rewrite length_alter.
Qed.

Lemma mark_cell_row_length gw gh c g j :
  length <$> mark_cell gw gh c g !! j = length <$> g !! j.
Proof.
  destruct c as [[x y] gid]. unfold mark_cell.
  destruct (_ && _); [|done]. rewrite list_lookup_alter.
  destruct (decide (Z.to_nat y = j)) as [->|]; [|done].
  destruct (g !! j); [|done]. simpl. by rewrite length_insert.
Qed.

Lemma mark_cell_cell gw gh x y gid g tx ty :
  0 <= tx < gw -> 0 <= ty < gh ->
  grid_cell (mark_cell gw gh (x, y, gid) g) (Z.to_nat tx) (Z.to_nat ty)
  = (fun b => b || ((x =? tx) && (y =? ty) && negb (gid =? 0)))
    <$> grid_cell g (Z.to_nat tx) (Z.to_nat ty).
Proof.
  intros Hx Hy. unfold mark_cell, grid_cell.
  destruct (negb (gid =? 0)); cbn [andb].
  2:{ rewrite !andb_false_r.
      destruct (g !! Z.to_nat ty) as [row|]; [|done]. simpl.
      destruct (row !! Z.to_nat tx) as [b|]; [|done].
      simpl. by rewrite orb_false_r. }
  destruct ((0 <=? y) && (y <? gh) && (0 <=? x) && (x <? gw)) eqn:Hin.
  - apply andb_prop in Hin as [Hin Hx2]. apply andb_prop in Hin as [Hin Hx1].
    apply andb_prop in Hin as [Hy1 Hy2].
    rewrite list_lookup_alter.
    destruct (decide (Z.to_nat y = Z.to_nat ty)) as [E|N].
    + assert (y = ty) as -> by lia. rewrite Z.eqb_refl.
      destruct (g !! Z.to_nat ty) as [row|]; [|done]. simpl.
      destruct (Z.eqb_spec x tx) as [->|Nx].
      * destruct (row !! Z.to_nat tx) as [b|] eqn:Hb.
        { rewrite list_lookup_insert_eq by by eapply lookup_lt_Some.
          simpl. by rewrite orb_true_r. }
        { apply lookup_ge_None in Hb. rewrite lookup_ge_None_2; [done|].
          by rewrite length_insert. }
      * rewrite list_lookup_insert_ne by lia.
        destruct (row !! Z.to_nat tx); [|done]. simpl.
        by rewrite orb_false_r.
    + destruct (Z.eqb_spec y ty) as [->|_]; [done|].
      rewrite andb_false_r.
      destruct (g !! Z.to_nat ty) as [row|]; [|done]. simpl.
      destruct (row !! Z.to_nat tx); [|done]. simpl.
      by rewrite orb_false_r.
  - assert ((x =? tx) && (y =? ty) = false) as ->.
    { destruct (Z.eqb_spec x tx) as [->|]; [|done].
      destruct (Z.eqb_spec y ty) as [->|]; [|done].
      rewrite <- Hin. symmetry. apply andb_true_intro. split.
      - apply andb_true_intro. split; [|lia].
        apply andb_true_intro. split; lia.
      - lia. }
    destruct (g !! Z.to_nat ty) as [row|]; [|done]. simpl.
    destruct (row !! Z.to_nat tx); [|done]. simpl.
    by rewrite orb_false_r.
Qed.

Lemma marked_cells gw gh cells g tx ty :
  0 <= tx < gw -> 0 <= ty < gh ->
  grid_cell (foldl (fun g c => mark_cell gw gh c g) g cells)
    (Z.to_nat tx) (Z.to_nat ty)
  = (fun b => b || existsb (fun '(cx, cy, gid) =>
                     (cx =? tx) && (cy =? ty) && negb (gid =? 0)) cells)
    <$> grid_cell g (Z.to_nat tx) (Z.to_nat ty).
Proof.
  intros Hx Hy. revert g.
  induction cells as [|[[x y] gid] cells IH]; intros g.
  { simpl. destruct (grid_cell _ _ _); [|done]. simpl.
    by rewrite orb_false_r. }
  cbn [foldl existsb]. rewrite IH, mark_cell_cell by done.
  destruct (grid_cell _ _ _); [|done]. simpl. by rewrite orb_assoc.
Qed.

Lemma marked_length gw gh cells g :
  length (foldl (fun g c => mark_cell gw gh c g) g cells) = length g.
Proof.
  revert g. induction cells as [|c cells IH]; intros g; [done|].
  simpl. by rewrite IH, mark_cell_length.
Qed.

Lemma marked_row_length gw gh cells g j :
  length <$> foldl (fun g c => mark_cell gw gh c g) g cells !! j
  = length <$> g !! j.
Proof.
  revert g. induction cells as [|c cells IH]; intros g; [done|].
  simpl. by rewrite IH, mark_cell_row_length.
Qed.

(** On a grid of [h] rows of [w] entries each, [is_tile_blocked] never
    raises: it answers blocked outside, and with the entry inside. *)
Lemma is_tile_blocked_rectangular (self : LevelLoader.t) (w h : nat)
    (tx ty : Z) :
  length (LevelLoader.collision_grid self) = h ->
  (forall j, (j < h)%nat ->
     length <$> LevelLoader.collision_grid self !! j = Some w) ->
  LevelLoader.is_tile_blocked self tx ty
  = if (0 <=? tx) && (tx <? Z.of_nat w) && (0 <=? ty) && (ty <? Z.of_nat h)
    then match grid_cell (LevelLoader.collision_grid self)
                 (Z.to_nat tx) (Z.to_nat ty) with
         | Some b => Ok b
         | None => Raise IndexError
         end
    else Ok true.
Proof.
  intros Hh Hrows. unfold LevelLoader.is_tile_blocked, grid_cell, len.
  rewrite Hh.
  destruct (Z.ltb_spec tx 0) as [Hx|Hx]; simpl.
  { by destruct (Z.leb_spec 0 tx); [lia|]. }
  destruct (Z.ltb_spec ty 0) as [Hy|Hy]; simpl.
  { destruct (Z.leb_spec 0 ty); [lia|]. by rewrite andb_false_r. }
  destruct (Z.geb_spec ty (Z.of_nat h)) as [Hy2|Hy2]; simpl.
  { destruct (Z.ltb_spec ty (Z.of_nat h)); [lia|]. by rewrite !andb_false_r. }
  destruct (Z.leb_spec 0 tx); [|lia]. destruct (Z.leb_spec 0 ty); [|lia].
  destruct (Z.ltb_spec ty (Z.of_nat h)); [|lia]. simpl.
  rewrite andb_true_r.
  pose proof (Hrows 0%nat ltac:(lia)) as Hrow0.
  destruct (LevelLoader.collision_grid self !! 0%nat) as [row0|] eqn:E0;
    [|done].
  injection Hrow0 as Hw. rewrite Hw.
  destruct (Z.geb_spec tx (Z.of_nat w)); destruct (Z.ltb_spec tx (Z.of_nat w));
    try lia; [done|].
  destruct (LevelLoader.collision_grid self !! Z.to_nat ty) as [row|]; [|done].
  simpl. by destruct (row !! Z.to_nat tx).
Qed.

(** [_create_collision_grid] on a loaded map: a grid of the size of the
    map, all free, with the cells of the colliders layer marked. *)
Lemma create_collision_grid_run (self : LevelLoader.t) w tmx :
  LevelLoader.tmx_data self = Some tmx ->
  exists w',
    LevelLoader._create_collision_grid self w
    = (Ok tt,
       LevelLoader.set_collision_grid
         (foldl (fun g c => mark_cell (tmx_width tmx) (tmx_height tmx) c g)
            (replicate (Z.to_nat (tmx_height tmx))
               (replicate (Z.to_nat (tmx_width tmx)) false))
            (match LevelLoader.find_layer "colliders" true tmx with
             | Some l => LevelLoader.layer_cells l
             | None => []
             end))
         self,
       w').
Proof.
  intros Htmx. unfold LevelLoader._create_collision_grid.
  unfold mbind at 1, M_bind at 1, get at 1. rewrite Htmx.
  unfold mbind at 1, M_bind at 1, modify at 1.
  destruct (LevelLoader.find_layer "colliders" true tmx) as [l|].
  - unfold mbind at 1, M_bind at 1. rewrite grid_loop.
    eexists. unfold print. reflexivity.
  - eexists. unfold print. reflexivity.
Qed.

(** X9.  The grid [_create_collision_grid] builds from a map.  The call
    returns, changing nothing but the grid, and on the grid it leaves
    [is_tile_blocked] never raises: a tile is blocked exactly when it
    lies outside the map or the colliders layer has a tile there. *)
Theorem collision_grid_built (self : LevelLoader.t) (w : World)
    (tmx : TiledMap) :
  LevelLoader.tmx_data self = Some tmx ->
  let run := LevelLoader._create_collision_grid self w in
  result_of run = Ok tt
  /\ (exists g, state_of run = LevelLoader.set_collision_grid g self)
  /\ forall tile_x tile_y,
       LevelLoader.is_tile_blocked (state_of run) tile_x tile_y
       = Ok (negb ((0 <=? tile_x) && (tile_x <? tmx_width tmx)
                   && (0 <=? tile_y) && (tile_y <? tmx_height tmx))
             || collider_at tmx tile_x tile_y).
Proof.
  intros Htmx run.
  set (g0 := replicate (Z.to_nat (tmx_height tmx))
               (replicate (Z.to_nat (tmx_width tmx)) false)).
  set (cells := match LevelLoader.find_layer "colliders" true tmx with
                | Some l => LevelLoader.layer_cells l
                | None => []
                end).
  set (g := foldl (fun g c => mark_cell (tmx_width tmx) (tmx_height tmx) c g)
              g0 cells).
  assert (E : exists w',
    run = (Ok tt, LevelLoader.set_collision_grid g self, w'))
    by exact (create_collision_grid_run self w tmx Htmx).
  destruct E as [w' E]. rewrite E. cbn [result_of state_of fst snd].
  split; [done|]. split; [by exists g|]. intros tx ty.
  rewrite (is_tile_blocked_rectangular _ (Z.to_nat (tmx_width tmx))
             (Z.to_nat (tmx_height tmx))).
  - destruct (Z.leb_spec 0 tx) as [Hx1|Hx1]; simpl; [|done].
    destruct (Z.ltb_spec tx (tmx_width tmx)) as [Hx2|Hx2];
      destruct (Z.ltb_spec tx (Z.of_nat (Z.to_nat (tmx_width tmx))));
      try lia; simpl; [|done].
    destruct (Z.leb_spec 0 ty) as [Hy1|Hy1]; simpl; [|done].
    destruct (Z.ltb_spec ty (tmx_height tmx)) as [Hy2|Hy2];
      destruct (Z.ltb_spec ty (Z.of_nat (Z.to_nat (tmx_height tmx))));
      try lia; simpl; [|done].
    replace (LevelLoader.collision_grid
               (LevelLoader.set_collision_grid g self)) with g
      by by destruct self.
    subst g. rewrite marked_cells by lia.
    unfold grid_cell, g0.
    rewrite lookup_replicate_2 by lia. simpl.
    rewrite lookup_replicate_2 by lia. simpl.
    unfold collider_at, cells.
    by destruct (LevelLoader.find_layer "colliders" true tmx).
  - replace (LevelLoader.collision_grid
               (LevelLoader.set_collision_grid g self)) with g
      by by destruct self.
    subst g. rewrite marked_length. unfold g0. by rewrite length_replicate.
  - intros j Hj.
    replace (LevelLoader.collision_grid
               (LevelLoader.set_collision_grid g self)) with g
      by by destruct self.
    subst g. rewrite marked_row_length. unfold g0.
    rewrite lookup_replicate_2 by lia. simpl. by rewrite length_replicate.
Qed.

Lemma collision_grid_built_witness :
  let self := state_of (LevelLoader._create_collision_grid
                          sample_loader sample_level_world) in
  LevelLoader.is_tile_blocked self 3 1
  = Ok (collider_at sample_map 3 1)
  /\ LevelLoader.is_tile_blocked self (-1) 1 = Ok true.
Proof.
  intros self.
  destruct (collision_grid_built sample_loader sample_level_world sample_map)
    as (_ & _ & H); [reflexivity|].
  split; [exact (H 3 1) | exact (H (-1) 1)].
Defined.

(** ** LevelLoader.move_player, accepted *)

(** [move_player] by cases. *)
Lemma move_player_cases dx dy (self : LevelLoader.t) w :
  LevelLoader.move_player dx dy self w
  = match LevelLoader.the_player self with
    | Some p =>
        match LevelLoader.is_position_blocked self
                (Player.x p + dx * TILE_SIZE) (Player.y p + dy * TILE_SIZE)
        with
        | Ok false =>
            LevelLoader.on_player
              (Player.move dx dy (LevelLoader.get_level_size self).1
                 (LevelLoader.get_level_size self).2
                 (inject_Z (tick_clock w 0) / 1000)%Q)
              self (tick_read w)
        | Ok true => (Ok false, self, w)
        | Raise err => (Raise err, self, w)
        end
    | None => (Ok false, self, w)
    end.
Proof.
  unfold LevelLoader.move_player.
  unfold mbind at 1, M_bind at 1, get at 1.
  destruct (LevelLoader.the_player self) as [p|] eqn:Hp; [|done].
  destruct (LevelLoader.get_level_size self) as [lw lh] eqn:Hsize.
  unfold mbind at 1, M_bind at 1, lift at 1.
  by destruct (LevelLoader.is_position_blocked self _ _) as [[|]|err].
Qed.



(** ** LevelLoader: the reference to the player *)

Section Keeps.
Context {S : Type} (I : S -> Prop).

Lemma keeps_ret {A} (a : A) : keeps I (mret a).
Proof. by intros s w. Qed.

Lemma keeps_bind {A B} (m : M S A) (k : A -> M S B) :
  keeps I m -> (forall a, keeps I (k a)) -> keeps I (m ≫= k).
Proof.
  intros Hm Hk s w Hs. specialize (Hm s w Hs).
  unfold mbind, M_bind, state_of in *.
  destruct (m s w) as [[[a|e] s'] w']; simpl in *; [|done].
  by apply Hk.
Qed.

Lemma keeps_try {A} (m : M S A) (h : exn -> M S A) :
  keeps I m -> (forall e, keeps I (h e)) -> keeps I (try_except m h).
Proof.
  intros Hm Hh s w Hs. specialize (Hm s w Hs).
  unfold try_except, state_of in *.
  destruct (m s w) as [[[a|e] s'] w']; simpl in *; [done|].
  by apply Hh.
Qed.

Lemma keeps_for_each {A} (xs : list A) (body : A -> M S unit) :
  (forall x, keeps I (body x)) -> keeps I (for_each xs body).
Proof.
  intros H. induction xs as [|x xs IH]; simpl.
  - apply keeps_ret.
  - apply keeps_bind; auto.
Qed.

Lemma keeps_stable {A X} (f : S -> X) (m : M S A) :
  stable f m -> (forall s s', f s' = f s -> I s -> I s') -> keeps I m.
Proof. intros Hst Hext s w Hs. eapply Hext; [apply Hst|done]. Qed.

Lemma keeps_modify (g : S -> S) :
  (forall s, I s -> I (g s)) -> keeps I (modify g).
Proof. intros H s w. apply H. Qed.
End Keeps.

(** A constructor runs on the object it builds: the caller's state is as
    it was. *)
Lemma stable_construct {S T X} (f : S -> X) (o : T) (m : M T unit) :
  stable f (construct o m).
Proof.
  intros s w. unfold construct, state_of.
  by destruct (m o w) as [[[[]|e] o'] w'].
Qed.

Lemma stable_image_load {S X} (f : S -> X) path : stable f (image_load path).
Proof. done. Qed.

Lemma stable_music_file_exists {S X} (f : S -> X) v :
  stable f (music_file_exists v).
Proof. done. Qed.

Lemma sprite_init_stable {S X} (f : S -> X) path size anims :
  stable f (AnimatedSprite.__init__ path size anims).
Proof.
  unfold AnimatedSprite.__init__.
  apply stable_bind; [apply stable_image_load|intros sheet].
  apply stable_construct.
Qed.

Lemma player_init_stable {S X} (f : S -> X) x0 y0 :
  stable f (Player.__init__ x0 y0).
Proof.
  unfold Player.__init__.
  apply stable_bind; [apply sprite_init_stable|intros sp].
  apply stable_bind; [apply sprite_init_stable|intros sw].
  apply stable_construct.
Qed.

Lemma enemy_init_stable {S X} (f : S -> X) x0 y0 a b n :
  stable f (Enemy.__init__ x0 y0 a b n).
Proof.
  unfold Enemy.__init__.
  apply stable_bind; [apply sprite_init_stable|intros sp].
  apply stable_construct.
Qed.

Lemma tile_init_stable {S X} (f : S -> X) x0 y0 gid tmx :
  stable f (AnimatedTile.__init__ x0 y0 gid tmx).
Proof.
  unfold AnimatedTile.__init__.
  apply stable_bind; [apply stable_time|intros now].
  apply stable_construct.
Qed.

Lemma load_level_music_stable {X} (f : LevelLoader.t -> X) v :
  stable f (LevelLoader._load_level_music v).
Proof.
  unfold LevelLoader._load_level_music.
  apply stable_try; [|intros e; apply stable_print].
  apply stable_bind; [apply stable_audio|intros _].
  apply stable_bind; [apply stable_music_file_exists|intros [|]].
  - apply stable_bind; [apply stable_audio|intros _]. apply stable_print.
  - apply stable_print.
Qed.

(** The reference is a matter of [entities] and [player] alone. *)
Lemma player_tracked_ext (s s' : LevelLoader.t) :
  (LevelLoader.entities s', LevelLoader.player s')
  = (LevelLoader.entities s, LevelLoader.player s) ->
  player_tracked s -> player_tracked s'.
Proof. unfold player_tracked. by intros [= -> ->]. Qed.

Lemma keeps_tracked_stable {A} (m : M LevelLoader.t A) :
  stable (fun s => (LevelLoader.entities s, LevelLoader.player s)) m ->
  keeps player_tracked m.
Proof.
  intros H. eapply keeps_stable; [exact H|]. intros s s'.
  apply player_tracked_ext.
Qed.

Lemma append_keeps_tracked ent :
  keeps player_tracked
    (modify (fun s =>
       LevelLoader.set_entities (LevelLoader.entities s ++ [ent]) s)).
Proof.
  apply keeps_modify. intros s. unfold player_tracked. simpl.
  destruct (LevelLoader.player s) as [i|]; [|done].
  intros [p Hp]. exists p. rewrite lookup_app_l; [done|].
  by eapply lookup_lt_Some.
Qed.

Lemma load_entity_keeps_tracked obj :
  keeps player_tracked (LevelLoader.load_entity obj).
Proof.
  unfold LevelLoader.load_entity. cbv zeta.
  destruct (String.eqb _ "player").
  { intros s w Hs. unfold mbind at 1, M_bind at 1.
    pose proof (player_init_stable (fun s : LevelLoader.t => s)
                  (obj_x obj) (obj_y obj) s w) as Hst.
    unfold state_of in *.
    destruct (Player.__init__ _ _ s w) as [[[p|e] s1] w1]; simpl in Hst;
      subst s1; simpl.
    2:{ exact Hs. }
    unfold player_tracked. simpl. exists p.
    rewrite length_app. simpl.
    replace (length (LevelLoader.entities s) + 1 - 1)%nat
      with (length (LevelLoader.entities s) + 0)%nat by lia.
    by rewrite lookup_app_r, Nat.add_0_r, Nat.sub_diag by lia. }
  destruct (String.eqb _ "enemy").
  { destruct (obj_properties obj !! "enemy_type").
    - apply keeps_bind; [by intros s w|intros n].
      apply keeps_bind;
        [apply keeps_tracked_stable, enemy_init_stable|intros e].
      apply keeps_bind; [apply append_keeps_tracked|intros _].
      by intros s w.
    - apply keeps_bind; [by intros s w|intros n].
      apply keeps_bind;
        [apply keeps_tracked_stable, enemy_init_stable|intros e].
      apply keeps_bind; [apply append_keeps_tracked|intros _].
      by intros s w. }
  destruct (String.eqb _ "info"); [|by intros s w].
  destruct (obj_properties obj !! "music") as [v|]; [|by intros s w].
  destruct (truthy v); [|by intros s w].
  apply keeps_bind;
    [apply keeps_tracked_stable, load_level_music_stable|intros _].
  by intros s w.
Qed.

Lemma load_entities_tracked (s : LevelLoader.t) w :
  player_tracked (state_of (LevelLoader._load_entities s w)).
Proof.
  unfold LevelLoader._load_entities.
  unfold mbind at 1, M_bind at 1, modify at 1.
  unfold mbind at 1, M_bind at 1, modify at 1.
  set (s0 := LevelLoader.set_player None (LevelLoader.set_entities [] s)).
  assert (H0 : player_tracked s0) by done.
  revert H0. generalize s0. clear s s0. intros s Hs.
  unfold mbind at 1, M_bind at 1, get at 1.
  destruct (LevelLoader.tmx_data s) as [tmx|]; [|done].
  destruct (LevelLoader.find_layer "entities" false tmx) as [[n d|n objs|n]|];
    try done.
  - by destruct d.
  - destruct objs as [|o objs]; [done|].
    by apply (keeps_for_each _ (o :: objs) _ load_entity_keeps_tracked).
Qed.

Lemma create_collision_grid_stable {X} (f : LevelLoader.t -> X) :
  (forall v s, f (LevelLoader.set_collision_grid v s) = f s) ->
  stable f LevelLoader._create_collision_grid.
Proof.
  intros Hf. unfold LevelLoader._create_collision_grid.
  apply stable_bind; [apply stable_get|intros self].
  destruct (LevelLoader.tmx_data self) as [tmx|]; [|apply stable_ret].
  apply stable_bind; [by apply stable_modify|intros _].
  destruct (LevelLoader.find_layer _ _ _); [|apply stable_print].
  apply stable_bind; [|intros _; apply stable_print].
  apply stable_for_each. intros [[x y] gid].
  destruct (negb _); [|apply stable_ret].
  destruct (_ && _); [|apply stable_ret].
  apply stable_modify. intros s. apply Hf.
Qed.

Lemma render_background_stable {X} (f : LevelLoader.t -> X) :
  (forall v s, f (LevelLoader.set_bg_surface v s) = f s) ->
  stable f LevelLoader._render_background.
Proof.
  intros Hf. unfold LevelLoader._render_background.
  apply stable_bind; [apply stable_get|intros self].
  destruct (LevelLoader.tmx_data self) as [tmx|]; [|apply stable_ret].
  apply stable_bind; [apply stable_lift|intros surf].
  apply stable_bind; [by apply stable_modify|intros _].
  apply stable_for_each. intros name.
  destruct (LevelLoader.find_layer _ _ _); [|apply stable_print].
  apply stable_for_each. intros [[x y] gid].
  destruct (negb _); [|apply stable_ret].
  apply stable_bind; [apply stable_lift|intros [img|]]; [|apply stable_ret].
  apply stable_modify. intros s. apply Hf.
Qed.

Lemma load_animated_tiles_stable {X} (f : LevelLoader.t -> X) :
  (forall v s, f (LevelLoader.set_animated_tiles v s) = f s) ->
  stable f LevelLoader._load_animated_tiles.
Proof.
  intros Hf. unfold LevelLoader._load_animated_tiles.
  apply stable_bind; [by apply stable_modify|intros _].
  apply stable_bind; [apply stable_get|intros self].
  destruct (LevelLoader.tmx_data self) as [tmx|]; [|apply stable_ret].
  destruct (LevelLoader.find_layer _ _ _); [|apply stable_print].
  apply stable_bind.
  - apply stable_for_each. intros [[x y] gid].
    destruct (negb _); [|apply stable_ret].
    apply stable_bind; [apply tile_init_stable|intros tile].
    apply stable_modify. intros s. apply Hf.
  - intros _. apply stable_bind; [apply stable_get|intros ?].
    apply stable_print.
Qed.

Lemma load_entity_stable {X} (f : LevelLoader.t -> X) obj :
  (forall v s, f (LevelLoader.set_entities v s) = f s) ->
  (forall v s, f (LevelLoader.set_player v s) = f s) ->
  stable f (LevelLoader.load_entity obj).
Proof.
  intros He Hp. unfold LevelLoader.load_entity. cbv zeta.
  destruct (String.eqb _ "player").
  { apply stable_bind; [apply player_init_stable|intros p].
    apply stable_bind; [apply stable_modify; intros; apply He|intros _].
    apply stable_bind; [apply stable_modify; intros; apply Hp|intros _].
    apply stable_print. }
  destruct (String.eqb _ "enemy").
  { destruct (obj_properties obj !! "enemy_type");
      (apply stable_bind; [apply stable_lift|intros n];
       apply stable_bind; [apply enemy_init_stable|intros e];
       apply stable_bind; [apply stable_modify; intros; apply He|intros _];
       apply stable_print). }
  destruct (String.eqb _ "info"); [|apply stable_print].
  destruct (obj_properties obj !! "music") as [v|]; [|apply stable_print].
  destruct (truthy v); [|apply stable_print].
  apply stable_bind; [apply load_level_music_stable|intros _].
  apply stable_print.
Qed.

Lemma load_entities_stable {X} (f : LevelLoader.t -> X) :
  (forall v s, f (LevelLoader.set_entities v s) = f s) ->
  (forall v s, f (LevelLoader.set_player v s) = f s) ->
  stable f LevelLoader._load_entities.
Proof.
  intros He Hp. unfold LevelLoader._load_entities.
  apply stable_bind; [by apply stable_modify|intros _].
  apply stable_bind; [by apply stable_modify|intros _].
  apply stable_bind; [apply stable_get|intros self].
  destruct (LevelLoader.tmx_data self) as [tmx|]; [|apply stable_ret].
  destruct (LevelLoader.find_layer "entities" false tmx)
    as [[n d|n objs|n]|]; try apply stable_print.
  - destruct d; [apply stable_ret|apply stable_raise].
  - destruct objs as [|o objs]; [apply stable_print|].
    apply stable_for_each. intros obj. by apply load_entity_stable.
  - apply stable_raise.
Qed.

Lemma load_current_level_keeps_tracked :
  keeps player_tracked LevelLoader.load_current_level.
Proof.
  intros s w Hs. rewrite load_current_level_cases.
  destruct (_ !! _) as [name|]; [|done].
  assert (Hk : keeps player_tracked (load_attempt (level_path name))).
  { unfold load_attempt.
    apply keeps_bind; [by intros ? ?|intros tmx].
    apply keeps_bind; [by apply keeps_modify|intros _].
    apply keeps_bind;
      [apply keeps_tracked_stable; by apply create_collision_grid_stable
      |intros _].
    apply keeps_bind;
      [apply keeps_tracked_stable; by apply render_background_stable
      |intros _].
    apply keeps_bind; [intros ? ? _; apply load_entities_tracked|intros _].
    apply keeps_bind;
      [apply keeps_tracked_stable; by apply load_animated_tiles_stable
      |intros _].
    by intros ? ?. }
  specialize (Hk s w Hs). unfold state_of in *.
  by destruct (load_attempt _ s w) as [[[b|e] s'] w'].
Qed.

Lemma on_player_keeps_tracked {A} (m : M Player.t A) :
  keeps player_tracked (LevelLoader.on_player m).
Proof.
  intros s w Hs. unfold LevelLoader.on_player.
  destruct (LevelLoader.player s) as [i|] eqn:Hi; [|done].
  destruct (LevelLoader.the_player s) as [p|] eqn:Hp; [|done].
  destruct (m p w) as [[r p'] w']. unfold player_tracked, state_of. simpl.
  rewrite Hi. exists p'. apply list_lookup_insert_eq.
  unfold player_tracked in Hs. rewrite Hi in Hs. destruct Hs as [q Hq].
  by eapply lookup_lt_Some.
Qed.

Lemma check_collisions_keeps_tracked :
  keeps player_tracked LevelLoader.check_player_enemy_collisions.
Proof.
  unfold LevelLoader.check_player_enemy_collisions.
  apply keeps_bind; [by intros ? ?|intros self].
  destruct (LevelLoader.the_player self) as [p|]; [|by intros ? ?].
  destruct (Player.is_invincible p); [by intros ? ?|].
  rewrite collision_loop_first.
  destruct (existsb _ _); [|by intros ? ?].
  unfold damage_event.
  apply keeps_bind; [apply on_player_keeps_tracked|intros [|]];
    [|by intros ? ?].
  apply keeps_bind; [by intros ? ?|intros _].
  apply keeps_bind; [by intros ? ?|intros self'].
  destruct (LevelLoader.the_player self') as [q|]; [|by intros ? ?].
  by destruct (Player.is_dead q); intros ? ?.
Qed.

Lemma loader_update_keeps_tracked : keeps player_tracked LevelLoader.update.
Proof.
  unfold LevelLoader.update.
  apply keeps_bind.
  { apply keeps_tracked_stable. by apply stable_zoom. }
  intros _. apply keeps_bind; [by intros ? ?|intros self].
  apply keeps_bind; [|intros _; apply check_collisions_keeps_tracked].
  intros s w Hs. unfold zoom, state_of.
  destruct (traverse _ _ w) as [[r es] w'] eqn:E.
  unfold player_tracked in *. simpl.
  destruct (LevelLoader.player s) as [i|]; [|done].
  destruct Hs as [p Hp].
  destruct (traverse_keeps_player self _ w i p Hp) as (p' & Hp' & _).
  rewrite E in Hp'. by exists p'.
Qed.

Lemma move_player_keeps_tracked dx dy :
  keeps player_tracked (LevelLoader.move_player dx dy).
Proof.
  intros s w Hs. rewrite move_player_cases.
  destruct (LevelLoader.the_player s) as [p|]; [|done].
  destruct (LevelLoader.is_position_blocked s _ _) as [[|]|err]; try done.
  by apply on_player_keeps_tracked.
Qed.

(** X11.  The loader's second reference to the player is always good:
    the loader its constructor returns has [player] unset or referring to
    a player among [entities], and every method called on a loader keeps
    it so, whether the call returns or raises. *)
Theorem player_reference_stays_valid :
  (forall {S} sequence (st : S) w,
     match result_of (LevelLoader.__init__ sequence st w) with
     | Ok self => player_tracked self
     | Raise _ => True
     end)
  /\ (forall c self w,
        player_tracked self ->
        player_tracked (state_of (loader_call c self w))).
Proof.
  split.
  - intros S sequence st w. unfold LevelLoader.__init__.
    unfold mbind at 1, M_bind at 1.
    destruct (UI.__init__ st w) as [[[the_ui|e] st1] w1]; [|done].
    unfold construct.
    set (s0 := {| LevelLoader.level_sequence := sequence;
                  LevelLoader.player := None |}).
    pose proof (load_current_level_keeps_tracked s0 w1 I) as H.
    unfold mbind, M_bind, state_of in *.
    by destruct (LevelLoader.load_current_level s0 w1) as [[[b|e] s1] w2].
  - intros c self w Hs.
    assert (Hret : forall (m : M LevelLoader.t bool),
              keeps player_tracked m -> keeps player_tracked (m;; mret tt)).
    { intros m Hm. apply keeps_bind; [done|]. by intros ? ? ?. }
    destruct c as [| | | |dx dy]; simpl.
    + by apply (Hret _ load_current_level_keeps_tracked).
    + apply Hret; [|done]. unfold LevelLoader.next_level.
      apply keeps_bind; [by apply keeps_modify|intros _].
      apply load_current_level_keeps_tracked.
    + by apply loader_update_keeps_tracked.
    + by apply check_collisions_keeps_tracked.
    + by apply (Hret _ (move_player_keeps_tracked dx dy)).
Qed.

Lemma player_reference_stays_valid_witness :
  player_tracked
    (state_of (loader_call (CallMovePlayer 1 0) sample_loader
                 (tick_read sample_level_world)))
  /\ player_tracked
       (state_of (loader_call CallNextLevel sample_loader
                    sample_level_world)).
Proof.
  split.
  - apply (proj2 player_reference_stays_valid (CallMovePlayer 1 0)).
    vm_compute. eexists. reflexivity.
  - apply (proj2 player_reference_stays_valid CallNextLevel).
    vm_compute. eexists. reflexivity.
Defined.

(** ** LevelLoader._load_level_music and LevelLoader.next_level *)

(** X12.  [_load_level_music] never raises and leaves the loader as it
    was, whatever the audio back end does.  It always asks the music to
    stop first; it asks for the new music exactly when that succeeded and
    the file exists; and it prints one line, the error when a command
    failed. *)
Theorem load_level_music_never_raises (music_filename : pyval)
    (self : LevelLoader.t) (w : World) :
  let run := LevelLoader._load_level_music music_filename self w in
  result_of run = Ok tt
  /\ state_of run = self
  /\ audio (world_of run)
     = audio w
       ++ MusicStop
          :: match audio_backend w MusicStop with
             | Ok _ =>
                 if ogg_exists w music_filename
                 then [MusicPlay music_filename] else []
             | Raise _ => []
             end
  /\ console (world_of run) = console w ++ [music_report music_filename w].
Proof.
  unfold LevelLoader._load_level_music, music_report, try_except.
  cbv [mbind M_bind audio_call music_file_exists print].
  cbn [audio_backend sounded ogg_exists].
  destruct (audio_backend w MusicStop) as [[]|e]; [|done].
  destruct (ogg_exists w music_filename); [|done]. cbn.
  destruct (audio_backend w (MusicPlay music_filename)) as [[]|e];
    cbn; by rewrite <- ?app_assoc.
Qed.

(** X13.  [next_level] past the end of the sequence: the index is
    raised all the same, false is returned, nothing is printed, and the
    level that was loaded stays loaded. *)
Theorem next_level_past_the_end (self : LevelLoader.t) (w : World) :
  (length (LevelLoader.level_sequence self)
   <= S (LevelLoader.current_level_index self))%nat ->
  LevelLoader.next_level self w
  = (Ok false,
     LevelLoader.set_current_level_index
       (S (LevelLoader.current_level_index self)) self,
     w).
Proof.
  intros Hend. unfold LevelLoader.next_level.
  unfold mbind at 1, M_bind at 1, modify at 1.
  rewrite load_current_level_cases. cbn.
  by rewrite lookup_ge_None_2.
Qed.

Lemma next_level_past_the_end_witness :
  let run := LevelLoader.next_level sample_loader sample_level_world in
  result_of run = Ok false
  /\ LevelLoader.current_level_index (state_of run) = 1%nat
  /\ LevelLoader.entities (state_of run) = LevelLoader.entities sample_loader.
Proof.
  intros run. subst run.
  rewrite (next_level_past_the_end sample_loader sample_level_world).
  - repeat split.
  - vm_compute. lia.
Defined.

(** ** LevelLoader._load_entities *)

Lemma construct_keeps {S T X} (f : T -> X) (o o' : T) (m : M T unit)
    (s s' : S) w w' :
  stable f m -> construct o m s w = (Ok o', s', w') -> f o' = f o.
Proof.
  intros Hst. unfold construct. specialize (Hst o w). unfold state_of in Hst.
  destruct (m o w) as [[[[]|e] o1] w1]; [|done]. by intros [= <- _ _].
Qed.

Lemma player_init_place {S} x0 y0 (s s' : S) w w' p :
  Player.__init__ x0 y0 s w = (Ok p, s', w') ->
  (Player.x p, Player.y p) = (snap_to_grid x0, snap_to_grid y0).
Proof.
  unfold Player.__init__. cbv [mbind M_bind].
  destruct (AnimatedSprite.__init__ _ _ _ s w) as [[[sp|e] s1] w1]; [|done].
  destruct (AnimatedSprite.__init__ _ _ _ s1 w1) as [[[sw|e] s2] w2]; [|done].
  intros H.
  by apply (construct_keeps (fun p => (Player.x p, Player.y p))) in H;
    [|unfold Player.on_sprite; apply stable_zoom].
Qed.

Lemma enemy_init_place {S} x0 y0 a b n (s s' : S) w w' e :
  Enemy.__init__ x0 y0 a b n s w = (Ok e, s', w') ->
  entity_placed (an_enemy e)
  = PlacedEnemy (snap_to_grid x0) (snap_to_grid y0) a b n.
Proof.
  unfold Enemy.__init__. cbv [mbind M_bind].
  destruct (AnimatedSprite.__init__ _ _ _ s w) as [[[sp|err] s1] w1]; [|done].
  intros H.
  by apply (construct_keeps (fun e => entity_placed (an_enemy e))) in H;
    [|unfold Enemy.on_sprite; apply stable_zoom].
Qed.






(** ** Player.start_attack and the attack window *)

(** An accepted [start_attack], unfolded. *)
Lemma start_attack_accepted p w :
  Player.is_attacking p || Player.is_hurt p = false ->
  Player.start_attack p w
  = let p1 := Player.set_attack_start_time (wall_clock w 0%nat)
                (Player.set_is_attacking true p) in
    let w1 := sounded (SoundPlay "sword_2") (wall_read w) in
    match audio_backend w (SoundPlay "sword_2") with
    | Raise e => (Raise e, p1, w1)
    | Ok _ =>
        match AnimatedSprite.play_animation
                (attack_clip_name (Player.facing_direction p)) true
                (Player.sword_sprite p) w1 with
        | (Ok _, s', w') => (Ok true, Player.set_sword_sprite s' p1, w')
        | (Raise e, s', w') => (Raise e, Player.set_sword_sprite s' p1, w')
        end
    end.
Proof.
  intros H. unfold Player.start_attack.
  unfold mbind at 1, M_bind at 1, get at 1. rewrite H.
  cbv [mbind M_bind modify time_time audio_call get].
  cbn [audio_backend wall_read sounded].
  destruct (audio_backend w (SoundPlay "sword_2")) as [[]|e]; [|done].
  cbn [Player.facing_direction Player.set_attack_start_time
       Player.set_is_attacking].
  unfold Player.on_sword_sprite, zoom.
  cbn [Player.sword_sprite Player.set_attack_start_time
       Player.set_is_attacking].
  destruct (Player.facing_direction p); cbn [attack_clip_name];
    by destruct (AnimatedSprite.play_animation _ true _ _) as [[[[]|e] s'] w'].
Qed.

(** X15.  [start_attack] by cases.  While the player attacks or is hurt
    it answers false and changes nothing.  Otherwise the player attacks
    from the time read, the sword sound is asked for, and body, position
    and health are as they were; the answer is true unless the sound
    raised, in which case the exception leaves the player attacking
    with the sword clip as it was; when the sound played and the sword
    has the attack clip of the facing, that clip starts at frame 0. *)
Theorem start_attack_effect (p : Player.t) (w : World) :
  let run := Player.start_attack p w in
  let p' := state_of run in
  (Player.is_attacking p || Player.is_hurt p = true ->
   run = (Ok false, p, w))
  /\ (Player.is_attacking p || Player.is_hurt p = false ->
      Player.is_attacking p' = true
      /\ Player.attack_start_time p' = wall_clock w 0%nat
      /\ audio (world_of run) = audio w ++ [SoundPlay "sword_2"]
      /\ (placement p', vitals p', shield p', Player.sprite p')
         = (placement p, vitals p, shield p, Player.sprite p)
      /\ match audio_backend w (SoundPlay "sword_2") with
         | Raise e =>
             result_of run = Raise e
             /\ Player.sword_sprite p' = Player.sword_sprite p
         | Ok _ =>
             result_of run = Ok true
             /\ (is_Some (AnimatedSprite.animations (Player.sword_sprite p)
                            !! attack_clip_name (Player.facing_direction p)) ->
                 Player.sword_sprite p'
                 = started (attack_clip_name (Player.facing_direction p))
                     (wall_clock w 1%nat) (Player.sword_sprite p))
         end).
Proof.
  intros run p'. subst run p'. split.
  { intros H. unfold Player.start_attack. msimpl. by rewrite H. }
  intros H. rewrite (start_attack_accepted p w H).
  destruct (audio_backend w (SoundPlay "sword_2")) as [[]|e];
    [|by destruct p].
  set (n := attack_clip_name (Player.facing_direction p)).
  set (w1 := sounded (SoundPlay "sword_2") (wall_read w)).
  assert (Hn :
    result_of (AnimatedSprite.play_animation n true (Player.sword_sprite p) w1)
    = Ok tt
    /\ audio (world_of (AnimatedSprite.play_animation n true
                          (Player.sword_sprite p) w1))
       = audio w ++ [SoundPlay "sword_2"]
    /\ (is_Some (AnimatedSprite.animations (Player.sword_sprite p) !! n) ->
        state_of (AnimatedSprite.play_animation n true
                    (Player.sword_sprite p) w1)
        = started n (wall_clock w 1%nat) (Player.sword_sprite p))).
  { destruct (AnimatedSprite.animations (Player.sword_sprite p) !! n)
      as [d|] eqn:Hd.
    - rewrite play_animation_starts by (by rewrite ?Hd; auto). done.
    - rewrite play_animation_unknown by done.
      split; [done|]. split; [done|]. by intros [? ?]. }
  destruct Hn as (Hr & Ha & Hs).
  unfold result_of, state_of, world_of in *.
  destruct (AnimatedSprite.play_animation n true _ w1) as [[r s'] w'].
  cbn [fst snd] in *. subst r. cbn.
  repeat split; try done; by destruct p.
Qed.

Lemma start_attack_effect_witness :
  let run := Player.start_attack sample_player (world_at 2) in
  result_of run = Ok true
  /\ Player.is_attacking (state_of run) = true
  /\ audio (world_of run) = [SoundPlay "sword_2"].
Proof.
  intros run.
  pose proof (start_attack_effect sample_player (world_at 2)) as H.
  cbv zeta in H. destruct H as (_ & H).
  destruct (H eq_refl) as (Ha & _ & Hs & _ & Hr).
  split; [exact (proj1 Hr)|]. split; [exact Ha | exact Hs].
Defined.

Lemma update_states_attack now q v :
  wp (Player.update_states now)
    (fun _ p' _ =>
       attack p'
       = (Player.is_attacking q
          && negb (Qge_bool (now - Player.attack_start_time q)
                     (Player.attack_duration q)),
          Player.attack_start_time q, Player.attack_duration q))
    q v.
Proof.
  unfold Player.update_states. do 3 wp_step.
  assert (Hrest : forall (q1 : Player.t) v1 (b : bool),
    attack q1 = (b, Player.attack_start_time q, Player.attack_duration q) ->
    wp (self ← get;
        (if Player.is_moving self
         then modify (Player.set_movement_timer (now + 0.3))
         else mret tt);;
        self ← get;
        let show_walking := Qlt_bool now (Player.movement_timer self) in
        (if negb (Player.is_attacking self) && negb (Player.is_hurt self) then
           match show_walking, Player.facing_direction self with
           | true, right =>
               Player.on_sprite
                 (AnimatedSprite.play_animation "walk_right" false)
           | true, left =>
               Player.on_sprite
                 (AnimatedSprite.play_animation "walk_left" false)
           | false, right =>
               Player.on_sprite
                 (AnimatedSprite.play_animation "idle_right" false)
           | false, left =>
               Player.on_sprite
                 (AnimatedSprite.play_animation "idle_left" false)
           end
         else mret tt);;
        Player.on_sprite AnimatedSprite.update;;
        modify (Player.set_is_moving false))
      (fun _ p' _ =>
         attack p'
         = (b, Player.attack_start_time q, Player.attack_duration q))
      q1 v1).
  { intros q1 v1 b Hq1. apply (wp_stable attack).
    - unfold Player.on_sprite. stable_body.
    - by intros ? p' ? ->. }
  assert (Hatk : forall (q0 : Player.t) v0,
    attack q0 = attack q ->
    wp (self ← get;
        (if Player.is_attacking self then
           if Qge_bool (now - Player.attack_start_time self)
                (Player.attack_duration self)
           then modify (Player.set_is_attacking false)
           else Player.on_sword_sprite AnimatedSprite.update
         else mret tt);;
        self ← get;
        (if Player.is_moving self
         then modify (Player.set_movement_timer (now + 0.3))
         else mret tt);;
        self ← get;
        let show_walking := Qlt_bool now (Player.movement_timer self) in
        (if negb (Player.is_attacking self) && negb (Player.is_hurt self) then
           match show_walking, Player.facing_direction self with
           | true, right =>
               Player.on_sprite
                 (AnimatedSprite.play_animation "walk_right" false)
           | true, left =>
               Player.on_sprite
                 (AnimatedSprite.play_animation "walk_left" false)
           | false, right =>
               Player.on_sprite
                 (AnimatedSprite.play_animation "idle_right" false)
           | false, left =>
               Player.on_sprite
                 (AnimatedSprite.play_animation "idle_left" false)
           end
         else mret tt);;
        Player.on_sprite AnimatedSprite.update;;
        modify (Player.set_is_moving false))
      (fun _ p' _ =>
         attack p'
         = (Player.is_attacking q
            && negb (Qge_bool (now - Player.attack_start_time q)
                       (Player.attack_duration q)),
            Player.attack_start_time q, Player.attack_duration q))
      q0 v0).
  { intros q0 v0 Hq0. injection Hq0 as Ha Hs Hd.
    do 3 wp_step. rewrite Ha, Hs, Hd.
    destruct (Player.is_attacking q) eqn:Hatt;
      [destruct (Qge_bool _ _) eqn:Hover|].
    - wp_step. apply Hrest. unfold attack. simpl. by rewrite Hs, Hd.
    - apply (wp_stable attack).
      { unfold Player.on_sword_sprite. stable_body. }
      intros [[]|e] s' w' Hs'; [|by rewrite Hs'; unfold attack; simpl;
                                   rewrite Ha, Hs, Hd].
      apply Hrest. rewrite Hs'. unfold attack. by rewrite Ha, Hs, Hd.
    - wp_step. apply Hrest. unfold attack. by rewrite Ha, Hs, Hd. }
  destruct (Player.is_invincible q);
    [destruct (Qge_bool (now - Player.invincibility_start_time q) _)|];
    wp_step; by apply Hatk.
Qed.

(** What one [update] does to the attack, given the time it reads. *)
Lemma update_attack (p : Player.t) (w : World) :
  let now := wall_clock w 0%nat in
  let hurt_over :=
    Qge_bool (now - Player.hurt_start_time p) (Player.hurt_duration p) in
  let attack_over :=
    Qge_bool (now - Player.attack_start_time p) (Player.attack_duration p) in
  attack (state_of (Player.update p w))
  = (if Player.is_hurt p && negb hurt_over then Player.is_attacking p
     else Player.is_attacking p && negb attack_over,
     Player.attack_start_time p, Player.attack_duration p).
Proof.
  intros now hurt_over attack_over.
  change (wp Player.update
            (fun _ p' _ =>
               attack p'
               = (if Player.is_hurt p && negb hurt_over
                  then Player.is_attacking p
                  else Player.is_attacking p && negb attack_over,
                  Player.attack_start_time p, Player.attack_duration p))
            p w).
  unfold Player.update. repeat wp_step. fold now.
  destruct (Player.is_hurt p) eqn:Hh; fold hurt_over.
  - destruct hurt_over; simpl.
    + repeat wp_step.
      eapply wp_mono; [apply update_states_attack|].
      by intros ? p' ? ->.
    + apply (wp_stable attack).
      { unfold Player.on_sprite. stable_body. }
      by intros ? p' ? ->.
  - simpl. eapply wp_mono; [apply update_states_attack|].
    by intros ? p' ? ->.
Qed.

(** X16.  How long an attack lasts.  For a player that is not hurt, or
    whose hurt time is over, [update] keeps the attack on while the time
    it reads is less than [attack_duration] past the start of the attack
    and ends it at the first reading that is not; it never starts one;
    and while the player is still hurt it returns before it looks at the
    attack.  The start and the duration of the attack are left alone.
    All of this holds as well when the call raises. *)
Theorem attack_lasts_its_duration (p : Player.t) (w : World) :
  let now := wall_clock w 0%nat in
  let p' := state_of (Player.update p w) in
  (Player.is_attacking p = false -> Player.is_attacking p' = false)
  /\ (Player.is_attacking p = true ->
      Player.is_hurt p = false
      \/ (Player.hurt_duration p <= now - Player.hurt_start_time p)%Q ->
      ((now - Player.attack_start_time p < Player.attack_duration p)%Q ->
       Player.is_attacking p' = true)
      /\ ((Player.attack_duration p <= now - Player.attack_start_time p)%Q ->
          Player.is_attacking p' = false))
  /\ (Player.is_hurt p = true ->
      (now - Player.hurt_start_time p < Player.hurt_duration p)%Q ->
      Player.is_attacking p' = Player.is_attacking p)
  /\ (Player.attack_start_time p', Player.attack_duration p')
     = (Player.attack_start_time p, Player.attack_duration p).
Proof.
  intros now p'. pose proof (update_attack p w) as H. cbv zeta in H.
  fold now p' in H. unfold attack in H. injection H as Ha Hs Hd.
  split; [|split; [|split]].
  - intros Hoff. rewrite Ha, Hoff. by destruct (_ && _).
  - intros Hon Hfree.
    assert (Hnot : Player.is_hurt p
                   && negb (Qge_bool (now - Player.hurt_start_time p)
                              (Player.hurt_duration p)) = false).
    { destruct Hfree as [->|Hover]; [done|].
      rewrite (Qge_bool_true _ _ Hover). apply andb_false_r. }
    rewrite Ha, Hnot, Hon. split; intros Ht.
    + by rewrite (Qge_bool_false _ _ Ht).
    + by rewrite (Qge_bool_true _ _ Ht).
  - intros Hh Ht. by rewrite Ha, Hh, (Qge_bool_false _ _ Ht).
  - by rewrite Hs, Hd.
Qed.

Lemma attack_lasts_its_duration_witness :
  let p := state_of (Player.start_attack sample_player (world_at 2)) in
  Player.is_attacking (state_of (Player.update p (world_at 2.4))) = true
  /\ Player.is_attacking (state_of (Player.update p (world_at 2.5))) = false.
Proof.
  intros p.
  pose proof (attack_lasts_its_duration p (world_at 2.4)) as H1.
  pose proof (attack_lasts_its_duration p (world_at 2.5)) as H2.
  cbv zeta in H1, H2.
  destruct H1 as (_ & H1 & _). destruct H2 as (_ & H2 & _).
  split.
  - apply H1; [reflexivity | left; reflexivity |].
    apply Qlt_by_bool. vm_compute. reflexivity.
  - apply H2; [reflexivity | left; reflexivity |].
    apply Qle_by_bool. vm_compute. reflexivity.
Defined.

Lemma rooted_cannot_move hi p t :
  rooted hi p -> Player.can_move p t = false.
Proof.
  unfold Player.can_move.
  intros [[-> _]|[-> _]]; [done|by rewrite orb_true_r].
Qed.

(** A call made in the window leaves a rooted player rooted and where it
    stands. *)
Lemma call_keeps_rooted lo hi c p w :
  (lo <= wall_clock w 0)%Q -> (wall_clock w 0 < hi)%Q ->
  (hi - lo <= Player.hurt_duration p)%Q ->
  rooted hi p ->
  rooted hi (state_of (call c p w))
  /\ (Player.x (state_of (call c p w)), Player.y (state_of (call c p w)))
     = (Player.x p, Player.y p)
  /\ Player.hurt_duration (state_of (call c p w)) = Player.hurt_duration p.
Proof.
  intros Hlo Hhi Hlen Hroot.
  destruct c as [|dx dy lw lh t| |d]; simpl.
  - pose proof (update_attack p w) as Ha. cbv zeta in Ha.
    pose proof (update_shield p w) as Hs. cbv zeta in Hs.
    pose proof (update_keeps_vitals p w) as Hv.
    pose proof (update_keeps_placement p w) as Hp.
    revert Ha Hs Hv Hp. generalize (state_of (Player.update p w)).
    intros p' Ha Hs Hv Hp.
    injection Ha as Ha Hst Hd. injection Hs as Hh _.
    injection Hv as _ _ Hhd _ Hhs _. injection Hp as Hx Hy _ _.
    split; [|by rewrite Hx, Hy, Hhd].
    destruct (Player.is_hurt p
              && negb (Qge_bool (wall_clock w 0 - Player.hurt_start_time p)
                         (Player.hurt_duration p))) eqn:Hstill.
    + apply andb_prop in Hstill as [Hhurt Hnot].
      destruct Hroot as [[Hatt Ht]|[_ Ht]].
      * left. by rewrite Ha, Hst, Hd.
      * right. by rewrite Hh, Hhs, Hhd.
    + destruct Hroot as [[Hatt Ht]|[Hhurt Ht]].
      * left. rewrite Ha, Hst, Hd, Hatt. split; [|done].
        rewrite Qge_bool_false; [done|]. lra.
      * rewrite Hhurt in Hstill. simpl in Hstill.
        rewrite Qge_bool_false in Hstill; [done|]. lra.
  - unfold mbind, M_bind.
    rewrite move_cannot by by eapply rooted_cannot_move. done.
  - assert (E : Player.start_attack p w = (Ok false, p, w)).
    { unfold Player.start_attack. msimpl.
      destruct Hroot as [[-> _]|[-> _]]; [done|by rewrite orb_true_r]. }
    unfold mbind, M_bind. by rewrite E.
  - destruct (Player.is_invincible p || Player.is_hurt p) eqn:Hrej.
    { unfold mbind, M_bind. by rewrite take_damage_rejected. }
    apply orb_false_elim in Hrej as [Hi Hh].
    pose proof (take_damage_accepted d p w Hi Hh) as H. unfold wp in H.
    assert (Hsame : state_of ((Player.take_damage d ≫= fun _ => mret tt) p w)
                    = state_of (Player.take_damage d p w)).
    { unfold mbind, M_bind, state_of.
      by destruct (Player.take_damage d p w) as [[[b|e] p'] w']. }
    rewrite Hsame. revert H. generalize (state_of (Player.take_damage d p w)).
    intros p' (_ & _ & Hhurt & _ & _ & Hhs & _ & Hdur & Hp).
    injection Hdur as _ Hhd _. injection Hp as Hx Hy _ _.
    split; [|by rewrite Hx, Hy, Hhd].
    right. split; [done|]. rewrite Hhs, Hhd. lra.
Qed.

(** X17.  An attack roots the player.  From a [start_attack] that is
    accepted at time [t0], no call made while the clock reads from [t0]
    to less than [attack_duration] later moves the player, whatever the
    calls are: a step is refused while the attack is on, and a hit taken
    in that time ends the attack but leaves the player hurt for longer
    than the attack would have lasted, as long as [hurt_duration] is not
    the shorter of the two. *)
Theorem attack_roots_player (p0 p' : Player.t) (w0 : World) :
  Player.is_attacking p0 || Player.is_hurt p0 = false ->
  (Player.attack_duration p0 <= Player.hurt_duration p0)%Q ->
  plays_within (wall_clock w0 0)
    (wall_clock w0 0 + Player.attack_duration p0)
    (state_of (Player.start_attack p0 w0)) p' ->
  (Player.x p', Player.y p') = (Player.x p0, Player.y p0)
  /\ Player.is_attacking p' || Player.is_hurt p' = true.
Proof.
  intros Hfree Hdur Hplays.
  set (lo := wall_clock w0 0%nat) in *.
  set (hi := (lo + Player.attack_duration p0)%Q) in *.
  assert (H1 : rooted hi (state_of (Player.start_attack p0 w0))
               /\ (Player.x (state_of (Player.start_attack p0 w0)),
                   Player.y (state_of (Player.start_attack p0 w0)))
                  = (Player.x p0, Player.y p0)
               /\ (hi - lo
                   <= Player.hurt_duration
                        (state_of (Player.start_attack p0 w0)))%Q).
  { rewrite (start_attack_accepted p0 w0 Hfree). cbv zeta.
    destruct (audio_backend w0 _) as [[]|e].
    - destruct (AnimatedSprite.play_animation _ true _ _)
        as [[[[]|e] s'] w']; (split; [left; split; [done|]|split; [done|]]);
        simpl; fold lo; unfold hi; lra.
    - split; [left; split; [done|]|split; [done|]];
        simpl; fold lo; unfold hi; lra. }
  revert H1. generalize (Player.x p0, Player.y p0). intros pos.
  clearbody lo hi.
  induction Hplays as [p|p c w p' Hlo Hhi Hplays IH]; intros (Hr & Hp & Hl).
  - split; [done|].
    destruct Hr as [[-> _]|[-> _]]; [done|by rewrite orb_true_r].
  - destruct (call_keeps_rooted lo hi c p w Hlo Hhi Hl Hr) as (Hr' & Hp' & Hd').
    apply IH. split; [done|]. split; [by rewrite Hp'|by rewrite Hd'].
Qed.

Lemma attack_roots_player_witness :
  let p1 := state_of (Player.start_attack sample_player (world_at 2)) in
  let p2 := state_of (call (CallMove 1 0 128 96 (12 # 5)) p1 (world_at 2.4)) in
  (Player.x p2, Player.y p2) = (Player.x sample_player, Player.y sample_player).
Proof.
  intros p1 p2.
  apply (attack_roots_player sample_player p2 (world_at 2)).
  - reflexivity.
  - apply Qle_by_bool. vm_compute. reflexivity.
  - apply (plays_within_call _ _ _ (CallMove 1 0 128 96 (12 # 5))
             (world_at 2.4)).
    + apply Qle_by_bool. vm_compute. reflexivity.
    + apply Qlt_by_bool. vm_compute. reflexivity.
    + apply plays_within_nil.
Defined.

(** ** Player.update: the clip of the body *)

Lemma sprite_update_keeps_clip :
  stable (fun s => (AnimatedSprite.current_animation s,
                    AnimatedSprite.animations s))
    AnimatedSprite.update.
Proof. unfold AnimatedSprite.update. stable_body. Qed.

Lemma sprite_update_known s w n d :
  AnimatedSprite.current_animation s = Some n ->
  AnimatedSprite.animations s !! n = Some d ->
  result_of (AnimatedSprite.update s w) = Ok tt.
Proof.
  intros Hc Hd. unfold AnimatedSprite.update. msimpl. rewrite Hc.
  destruct (_ || _); [done|]. simpl. rewrite Hd.
  destruct (Qge_bool _ _); [|done]. cbn.
  destruct (_ >=? _); [|done].
  by destruct (default true (AnimatedSprite.loop d)).
Qed.

(** [play_animation] of a clip the body has, then [update] of the
    sprite: both return and the clip is the current one. *)
Lemma wp_player_show {A} n (k : M Player.t A)
    (Q : result A -> Player.t -> World -> Prop) p w :
  is_Some (AnimatedSprite.animations (Player.sprite p) !! n) ->
  (forall s' w',
     AnimatedSprite.current_animation s' = Some n ->
     wp k Q (Player.set_sprite s' p) w') ->
  wp (Player.on_sprite (AnimatedSprite.play_animation n false);;
      Player.on_sprite AnimatedSprite.update;; k) Q p w.
Proof.
  intros [d Hd] HQ. unfold wp, Player.on_sprite, zoom, mbind, M_bind.
  assert (Hplay : exists s1 w1,
    AnimatedSprite.play_animation n false (Player.sprite p) w = (Ok tt, s1, w1)
    /\ AnimatedSprite.current_animation s1 = Some n
    /\ AnimatedSprite.animations s1 !! n = Some d).
  { destruct (decide (AnimatedSprite.current_animation (Player.sprite p)
                      = Some n)) as [Hc|Hc].
    - rewrite play_animation_running by eauto. eauto.
    - rewrite play_animation_starts by eauto. eauto. }
  destruct Hplay as (s1 & w1 & -> & Hc1 & Hd1). cbn [Player.sprite Player.set_sprite].
  pose proof (sprite_update_known s1 w1 n d Hc1 Hd1) as Hr.
  pose proof (sprite_update_keeps_clip s1 w1) as Hk.
  unfold result_of, state_of, world_of in *.
  destruct (AnimatedSprite.update s1 w1) as [[r s2] w2].
  cbn [fst snd] in *. subst r. injection Hk as Hc2 _.
  replace (Player.set_sprite s2 (Player.set_sprite s1 p))
    with (Player.set_sprite s2 p) by by destruct p.
  by apply HQ; rewrite Hc2.
Qed.

(** X18.  The clip of the body follows the steps.  For a player that
    neither attacks nor is hurt, [update] shows the walk clip of the
    facing when the player stepped since the last [update], and for
    0.3 s after such an [update]; otherwise the idle clip.  When the
    body's sprite has that clip, [update] returns, the clip is the
    current one, the walk timer is set 0.3 s ahead of the time read if
    the player stepped and left alone if not, and the step flag is
    lowered. *)
Theorem walk_clip_follows_steps (p : Player.t) (w : World) :
  Player.is_hurt p = false -> Player.is_attacking p = false ->
  let now := wall_clock w 0%nat in
  let timer :=
    if Player.is_moving p then (now + 0.3)%Q else Player.movement_timer p in
  let n := body_clip_name (Qlt_bool now timer) (Player.facing_direction p) in
  is_Some (AnimatedSprite.animations (Player.sprite p) !! n) ->
  let run := Player.update p w in
  result_of run = Ok tt
  /\ AnimatedSprite.current_animation (Player.sprite (state_of run)) = Some n
  /\ Player.movement_timer (state_of run) = timer
  /\ Player.is_moving (state_of run) = false.
Proof.
  intros Hh Ha now timer n Hn run. subst run.
  change (wp Player.update
            (fun r p' _ =>
               r = Ok tt
               /\ AnimatedSprite.current_animation (Player.sprite p') = Some n
               /\ Player.movement_timer p' = timer
               /\ Player.is_moving p' = false) p w).
  assert (Hq : exists b, Qlt_bool now timer = b
                         /\ n = body_clip_name b (Player.facing_direction p))
    by by exists (Qlt_bool now timer).
  destruct Hq as (b & Hq & Hb). clearbody n. subst n.
  unfold Player.update. repeat wp_step. fold now. rewrite Hh.
  unfold Player.update_states. do 3 wp_step.
  assert (Hshow : forall (q : Player.t) v,
    (Player.facing_direction q, Player.sprite q, Player.movement_timer q)
    = (Player.facing_direction p, Player.sprite p, timer) ->
    wp ((match b, Player.facing_direction p with
         | true, right =>
             Player.on_sprite
               (AnimatedSprite.play_animation "walk_right" false)
         | true, left =>
             Player.on_sprite
               (AnimatedSprite.play_animation "walk_left" false)
         | false, right =>
             Player.on_sprite
               (AnimatedSprite.play_animation "idle_right" false)
         | false, left =>
             Player.on_sprite
               (AnimatedSprite.play_animation "idle_left" false)
         end);;
        Player.on_sprite AnimatedSprite.update;;
        modify (Player.set_is_moving false))
      (fun r p' _ =>
         r = Ok tt
         /\ AnimatedSprite.current_animation (Player.sprite p')
            = Some (body_clip_name b (Player.facing_direction p))
         /\ Player.movement_timer p' = timer
         /\ Player.is_moving p' = false) q v).
  { intros q v [= Hf Hs Ht].
    assert (Hn' : is_Some (AnimatedSprite.animations (Player.sprite q)
                    !! body_clip_name b (Player.facing_direction p)))
      by by rewrite Hs.
    destruct b, (Player.facing_direction p); cbn [body_clip_name] in *;
      (apply wp_player_show; [done|]; intros s' w' Hc; wp_step; by simpl). }
  destruct (Player.is_invincible p);
    [destruct (Qge_bool (now - Player.invincibility_start_time p) _)|];
    wp_step; do 3 wp_step;
    cbn [Player.is_attacking Player.set_is_invincible]; rewrite Ha;
    wp_step; do 3 wp_step;
    cbn [Player.is_moving Player.set_is_invincible];
    subst timer;
    (destruct (Player.is_moving p); wp_step; do 2 wp_step;
     cbn [Player.is_attacking Player.is_hurt Player.movement_timer
          Player.facing_direction Player.set_movement_timer
          Player.set_is_invincible];
     rewrite Ha, Hh, Hq; cbn [negb andb]; by apply Hshow).
Qed.

Lemma walk_clip_follows_steps_witness :
  let stepped := state_of (Player.move 1 0 128 96 1 sample_player
                             sample_world) in
  let shown := state_of (Player.update stepped (world_at 1)) in
  AnimatedSprite.current_animation (Player.sprite shown) = Some "walk_right"%string
  /\ AnimatedSprite.current_animation
       (Player.sprite (state_of (Player.update shown (world_at 1.4))))
     = Some "idle_right"%string.
Proof.
  intros stepped shown.
  pose proof (walk_clip_follows_steps stepped (world_at 1)) as H1.
  pose proof (walk_clip_follows_steps shown (world_at 1.4)) as H2.
  cbv zeta in H1, H2. split.
  - apply H1; [reflexivity | reflexivity | vm_compute; eauto].
  - apply H2; [reflexivity | reflexivity | vm_compute; eauto].
Defined.

(** ** UI.draw *)

(** A loop of conditional mutations is a fold over the elements that pass
    the test. *)
Lemma for_each_filter {S A} (c : A -> bool) (g : A -> S -> S) xs (s : S) w :
  for_each xs (fun i => if c i then modify (g i) else mret tt) s w
  = (Ok tt, foldl (fun s i => g i s) s (List.filter c xs), w).
Proof.
  revert s. induction xs as [|x xs IH]; intros s; [done|].
  cbn [for_each List.filter]. unfold mbind at 1, M_bind at 1.
  destruct (c x); cbn; apply IH.
Qed.

Lemma range_below (n : nat) (k : Z) :
  List.filter (fun i => i <? k) (map Z.of_nat (seq 0 n))
  = map Z.of_nat (seq 0 (Z.to_nat (Z.min k (Z.of_nat n)))).
Proof.
  induction n as [|n IH].
  { replace (Z.to_nat (Z.min k (Z.of_nat 0))) with 0%nat by lia. done. }
  rewrite seq_S, map_app, List.filter_app, IH. cbn [map List.filter plus].
  destruct (Z.ltb_spec (Z.of_nat n) k).
  - replace (Z.to_nat (Z.min k (Z.of_nat (S n)))) with (S n) by lia.
    replace (Z.to_nat (Z.min k (Z.of_nat n))) with n by lia.
    by rewrite seq_S, map_app.
  - replace (Z.min k (Z.of_nat (S n))) with (Z.min k (Z.of_nat n)) by lia.
    by rewrite app_nil_r.
Qed.

(** X19.  The hearts.  [draw] never raises and blits the full heart
    once for each point of health the player has, no more than
    [max_health] times and not at all for a health of 0 or less, from
    left to right: heart [i] goes to [heart_start_x + i * heart_spacing]
    on the line [heart_start_y].  Nothing else is drawn. *)
Theorem ui_draws_one_heart_per_health (self : UI.t) (player : Player.t)
    (screen : Surface) (w : World) :
  UI.draw self player screen w
  = (Ok tt,
     foldl (fun scr i =>
              blit (UI.full_heart self)
                (UI.heart_start_x self + i * UI.heart_spacing self,
                 UI.heart_start_y self) scr)
       screen
       (range (Z.min (Player.current_health player)
                 (Player.max_health player))),
     w).
Proof.
  unfold UI.draw. cbv zeta.
  rewrite (for_each_filter
             (fun i => i <? Player.current_health player)
             (fun i => blit (UI.full_heart self)
                         (UI.heart_start_x self + i * UI.heart_spacing self,
                          UI.heart_start_y self))).
  unfold range. rewrite range_below.
  by replace (Z.to_nat (Z.min (Player.current_health player)
                          (Z.of_nat (Z.to_nat (Player.max_health player)))))
    with (Z.to_nat (Z.min (Player.current_health player)
                      (Player.max_health player))) by lia.
Qed.

(** ** AnimatedTile *)

(** X20.  [AnimatedTile.update] never raises and never touches the
    frames.  A tile with one frame or none is left alone and the clock is
    not read.  A tile with more frames is left alone until
    [frame_duration] has passed since the last change; then it shows the
    next frame, the first after the last, and whatever index it had
    before, the new one is inside the frames, so that [get_current_frame]
    has a frame to give. *)
Theorem animated_tile_update_cycles (tile : AnimatedTile.t) (w : World) :
  let now := wall_clock w 0%nat in
  let n := len (AnimatedTile.frames tile) in
  let run := AnimatedTile.update tile w in
  result_of run = Ok tt
  /\ AnimatedTile.frames (state_of run) = AnimatedTile.frames tile
  /\ (n <= 1 -> run = (Ok tt, tile, w))
  /\ (1 < n ->
      (now - AnimatedTile.last_frame_time tile
         < AnimatedTile.frame_duration tile)%Q ->
      run = (Ok tt, tile, wall_read w))
  /\ (1 < n ->
      (AnimatedTile.frame_duration tile
         <= now - AnimatedTile.last_frame_time tile)%Q ->
      AnimatedTile.current_frame (state_of run)
      = (AnimatedTile.current_frame tile + 1) `mod` n
      /\ AnimatedTile.last_frame_time (state_of run) = now
      /\ 0 <= AnimatedTile.current_frame (state_of run) < n
      /\ exists frame,
           AnimatedTile.get_current_frame (state_of run) = Ok (Some frame)).
Proof.
  intros now n run. subst run now. unfold AnimatedTile.update.
  cbv [mbind M_bind get time_time modify mret M_ret]. fold n.
  destruct (Z.leb_spec n 1) as [Hn|Hn].
  { repeat split; try done; lia. }
  destruct (Qge_bool (wall_clock w 0 - AnimatedTile.last_frame_time tile)
              (AnimatedTile.frame_duration tile)) eqn:Hdue.
  - cbn. split; [done|]. split; [done|]. split; [lia|]. split.
    { intros _ Hlt. by rewrite (Qge_bool_false _ _ Hlt) in Hdue. }
    intros _ _. split; [done|]. split; [done|].
    pose proof (Z.mod_pos_bound (AnimatedTile.current_frame tile + 1) n
                  ltac:(lia)) as Hb.
    split; [done|]. unfold AnimatedTile.get_current_frame. cbn.
    destruct (AnimatedTile.frames tile) as [|f fs] eqn:Hf.
    { unfold n, len in Hn. simpl in Hn. lia. }
    unfold py_index.
    destruct (Z.ltb_spec ((AnimatedTile.current_frame tile + 1) `mod` n) 0);
      [lia|].
    destruct (Z.ltb_spec ((AnimatedTile.current_frame tile + 1) `mod` n) 0);
      [lia|].
    destruct ((f :: fs) !! _) as [frame|] eqn:Hl; [by exists frame|].
    apply lookup_ge_None in Hl. unfold n, len in *. lia.
  - cbn. split; [done|]. split; [done|]. split; [lia|]. split; [done|].
    intros _ Hge. by rewrite (Qge_bool_true _ _ Hge) in Hdue.
Qed.

Lemma animated_tile_update_cycles_witness :
  let tile :=
    {| AnimatedTile.x := 0; AnimatedTile.y := 0; AnimatedTile.tile_gid := 7;
       AnimatedTile.tmx_data := sample_map;
       AnimatedTile.current_frame := 1; AnimatedTile.last_frame_time := 0;
       AnimatedTile.frames := [Canvas 16 16; Canvas 16 16];
       AnimatedTile.frame_duration := 0.5 |} in
  AnimatedTile.current_frame
    (state_of (AnimatedTile.update tile (world_at 1))) = 0.
Proof.
  intros tile.
  pose proof (animated_tile_update_cycles tile (world_at 1)) as H.
  cbv zeta in H. destruct H as (_ & _ & _ & _ & H).
  destruct H as (H & _).
  - reflexivity.
  - apply Qle_by_bool. vm_compute. reflexivity.
  - exact H.
Defined.

Lemma load_frames_stable {X} (f : AnimatedTile.t -> X) i fs :
  (forall v t, f (AnimatedTile.set_frames v t) = f t) ->
  (forall v t, f (AnimatedTile.set_frame_duration v t) = f t) ->
  stable f (AnimatedTile.load_frames i fs).
Proof.
  intros H1 H2. revert i. induction fs as [|fr fs IH]; intros i; simpl.
  - apply stable_ret.
  - apply stable_bind; [apply stable_print|intros _].
    apply stable_bind; [apply stable_get|intros self].
    apply stable_bind; [apply stable_lift|intros surf].
    apply stable_bind; [|intros _; apply IH].
    destruct surf; [|apply stable_print].
    apply stable_bind; [apply stable_modify; intros; apply H1|intros _].
    apply stable_bind; [apply stable_modify; intros; apply H2|intros _].
    apply stable_bind; [apply stable_get|intros ?]. apply stable_print.
Qed.

(** X21.  A tile whose own image the map can give always gets a frame.
    The constructor then returns, whatever happens while the animation
    data is read: the tile stands where it was put and has at least one
    frame, and [get_current_frame] gives one. *)
Theorem animated_tile_always_gets_a_frame {S} (x0 y0 gid : Z)
    (tmx : TiledMap) (st : S) (w : World) (surf : Surface) :
  get_tile_image_by_gid tmx gid = Ok (Some surf) ->
  exists tile w',
    AnimatedTile.__init__ x0 y0 gid tmx st w = (Ok tile, st, w')
    /\ (AnimatedTile.x tile, AnimatedTile.y tile) = (x0, y0)
    /\ AnimatedTile.frames tile <> []
    /\ exists frame, AnimatedTile.get_current_frame tile = Ok (Some frame).
Proof.
  intros Himg. unfold AnimatedTile.__init__.
  unfold mbind at 1, M_bind at 1, time_time at 1.
  set (t0 := {| AnimatedTile.x := x0; AnimatedTile.frames := [] |}).
  set (w0 := wall_read w).
  set (src := fun t => (AnimatedTile.tile_gid t, AnimatedTile.tmx_data t,
                        AnimatedTile.x t, AnimatedTile.y t)).
  set (cur := fun t => AnimatedTile.current_frame t).
  assert (H : exists t1 w1,
    AnimatedTile._load_animation_data t0 w0 = (Ok tt, t1, w1)
    /\ src t1 = src t0 /\ cur t1 = 0 /\ AnimatedTile.frames t1 <> []).
  { assert (Hfall : forall t w,
      src t = src t0 ->
      exists t1 w1, AnimatedTile.load_static_tile t w = (Ok tt, t1, w1)
        /\ src t1 = src t /\ cur t1 = cur t /\ AnimatedTile.frames t1 <> []).
    { intros t v [= Hg Ht _ _]. unfold AnimatedTile.load_static_tile.
      cbv [mbind M_bind print get lift]. rewrite Hg, Ht. simpl.
      rewrite Himg. eexists _, _. split; [reflexivity|]. done. }
    assert (Hhandler : forall e t w,
      src t = src t0 ->
      exists t1 w1,
        (self ← get;
         print (ErrorLoadingAnimation (AnimatedTile.tile_gid self) e);;
         print (Traceback e);;
         static_tile ←
           lift (get_tile_image_by_gid (AnimatedTile.tmx_data self)
                   (AnimatedTile.tile_gid self));
         match static_tile with
         | Some surf => modify (AnimatedTile.set_frames [surf])
         | None => mret tt
         end) t w = (Ok tt, t1, w1)
        /\ src t1 = src t /\ cur t1 = cur t /\ AnimatedTile.frames t1 <> []).
    { intros e t v [= Hg Ht _ _].
      cbv [mbind M_bind print get lift]. rewrite Hg, Ht. simpl.
      rewrite Himg. eexists _, _. split; [reflexivity|]. done. }
    unfold AnimatedTile._load_animation_data, try_except.
    unfold mbind at 1, M_bind at 1, get at 1.
    unfold mbind at 1, M_bind at 1, print at 1.
    unfold mbind at 1, M_bind at 1, lift at 1.
    destruct (get_tile_properties_by_gid _ _) as [[fs|]|e].
    - unfold mbind at 1, M_bind at 1, print at 1.
      unfold mbind at 1, M_bind at 1, print at 1.
      unfold mbind at 1, M_bind at 1.
      set (w1 := printed _ _).
      pose proof (load_frames_stable src 0 fs (fun _ _ => eq_refl)
                    (fun _ _ => eq_refl) t0 w1) as Hsrc.
      pose proof (load_frames_stable cur 0 fs (fun _ _ => eq_refl)
                    (fun _ _ => eq_refl) t0 w1) as Hcur.
      unfold state_of in Hsrc, Hcur.
      destruct (AnimatedTile.load_frames 0 fs t0 w1) as [[[[]|e] t1] w2];
        cbn [fst snd] in Hsrc, Hcur.
      + unfold mbind at 1, M_bind at 1, get at 1.
        destruct (AnimatedTile.frames t1) as [|f1 fs1] eqn:Hf1.
        * destruct (Hfall t1 w2 Hsrc) as (t2 & w3 & E & Hs2 & Hc2 & Hne).
          rewrite E.
          exists t2, w3. split; [done|]. split; [by rewrite Hs2|].
          split; [by rewrite Hc2|done].
        * unfold print. eexists t1, _.
          split; [done|]. split; [done|]. split; [done|]. by rewrite Hf1.
      + destruct (Hhandler e t1 w2 Hsrc) as (t2 & w3 & -> & Hs2 & Hc2 & Hne).
        exists t2, w3. split; [done|]. split; [by rewrite Hs2|].
        split; [by rewrite Hc2|done].
    - unfold mbind at 1, M_bind at 1, print at 1.
      destruct (Hfall t0 (printed (TileProperties None)
                  (printed (LoadingAnimationData (AnimatedTile.tile_gid t0))
                     w0)) eq_refl)
        as (t2 & w2 & -> & Hs2 & Hc2 & Hne).
      by exists t2, w2.
    - destruct (Hhandler e t0
                  (printed (LoadingAnimationData (AnimatedTile.tile_gid t0))
                     w0) eq_refl)
        as (t2 & w2 & -> & Hs2 & Hc2 & Hne).
      by exists t2, w2. }
  destruct H as (t1 & w1 & E & Hs & Hc & Hne).
  unfold construct. rewrite E. exists t1, w1. split; [done|].
  injection Hs as _ _ Hx Hy. split; [by rewrite Hx, Hy|]. split; [done|].
  unfold AnimatedTile.get_current_frame. unfold cur in Hc. rewrite Hc.
  destruct (AnimatedTile.frames t1) as [|f fs]; [done|]. by exists f.
Qed.

Lemma animated_tile_always_gets_a_frame_witness :
  exists tile w',
    AnimatedTile.__init__ 32 16 1 sample_map tt sample_world
    = (Ok tile, tt, w')
    /\ AnimatedTile.frames tile <> [].
Proof.
  destruct (animated_tile_always_gets_a_frame 32 16 1 sample_map tt
              sample_world (TileImage 1 16 16))
    as (tile & w' & E & _ & Hne & _).
  - reflexivity.
  - exists tile, w'. split; [exact E | exact Hne].
Defined.

(** ** LevelLoader.update: where the enemies go *)

(** Walking a list of objects: each one is as it was, or as one run of
    the method left it. *)
Lemma traverse_each {T} (m : M T unit) (l : list T) w :
  length (state_of (traverse m l w)) = length l
  /\ forall j o',
       state_of (traverse m l w) !! j = Some o' ->
       exists o, l !! j = Some o /\ (o' = o \/ exists v, o' = state_of (m o v)).
Proof.
  revert w. induction l as [|o rest IH]; intros w; [done|].
  cbn [traverse].
  destruct (m o w) as [[[[]|e] o1] w1] eqn:E.
  - destruct (IH w1) as [Hlen Hall]. unfold state_of in *.
    destruct (traverse m rest w1) as [[r rest'] w2]. cbn [fst snd] in *.
    split; [cbn; by rewrite Hlen|]. intros [|j] o'; simpl.
    + intros [= <-]. exists o. split; [done|]. right. exists w.
      by rewrite E.
    + apply Hall.
  - split; [done|]. intros [|j] o'; simpl.
    + intros [= <-]. exists o. split; [done|]. right. exists w.
      by rewrite E.
    + intros Hj. exists o'. by split; [|left].
Qed.

Lemma is_position_blocked_grid (s s' : LevelLoader.t) px py :
  LevelLoader.collision_grid s' = LevelLoader.collision_grid s ->
  LevelLoader.is_position_blocked s' px py
  = LevelLoader.is_position_blocked s px py.
Proof.
  intros H. unfold LevelLoader.is_position_blocked,
    LevelLoader.is_tile_blocked. by rewrite H.
Qed.

Lemma same_enemies_refl s : same_enemies s s.
Proof. done. Qed.

Lemma on_player_same_enemies {A} (m : M Player.t A) s0 :
  keeps (same_enemies s0) (LevelLoader.on_player m).
Proof.
  intros s w (Hlen & Hgrid & Hen). unfold LevelLoader.on_player.
  destruct (LevelLoader.player s) as [i|] eqn:Hi; [|done].
  destruct (LevelLoader.the_player s) as [p|] eqn:Hp; [|done].
  destruct (m p w) as [[r p'] w']. unfold same_enemies, state_of. simpl.
  split; [by rewrite length_insert|]. split; [done|].
  intros j e Hj. apply Hen.
  destruct (decide (i = j)) as [->|Hne].
  - unfold LevelLoader.the_player in Hp. rewrite Hi in Hp.
    destruct (LevelLoader.entities s !! j) as [[q|e0]|] eqn:Hl; try done.
    rewrite list_lookup_insert_eq in Hj by by eapply lookup_lt_Some.
    done.
  - by rewrite list_lookup_insert_ne in Hj.
Qed.

Lemma check_collisions_same_enemies s0 :
  keeps (same_enemies s0) LevelLoader.check_player_enemy_collisions.
Proof.
  unfold LevelLoader.check_player_enemy_collisions.
  apply keeps_bind; [by intros ? ?|intros self].
  destruct (LevelLoader.the_player self) as [p|]; [|by intros ? ?].
  destruct (Player.is_invincible p); [by intros ? ?|].
  rewrite collision_loop_first.
  destruct (existsb _ _); [|by intros ? ?].
  unfold damage_event.
  apply keeps_bind; [apply on_player_same_enemies|intros [|]];
    [|by intros ? ?].
  apply keeps_bind; [by intros ? ?|intros _].
  apply keeps_bind; [by intros ? ?|intros self'].
  destruct (LevelLoader.the_player self') as [q|]; [|by intros ? ?].
  by destruct (Player.is_dead q); intros ? ?.
Qed.

(** X22.  No enemy walks into a wall.  After [LevelLoader.update],
    whether it returned or raised, the collision grid is as it was, the
    entities are as many as before, and every enemy stands where it stood
    or one step further along its way, on a position that
    [is_position_blocked] reports free. *)
Theorem enemies_keep_to_free_tiles (self : LevelLoader.t) (w : World) :
  let self' := state_of (LevelLoader.update self w) in
  LevelLoader.collision_grid self' = LevelLoader.collision_grid self
  /\ length (LevelLoader.entities self') = length (LevelLoader.entities self)
  /\ forall j e',
       LevelLoader.entities self' !! j = Some (an_enemy e') ->
       exists e,
         LevelLoader.entities self !! j = Some (an_enemy e)
         /\ ((Enemy.x e', Enemy.y e') = (Enemy.x e, Enemy.y e)
             \/ ((Enemy.x e', Enemy.y e') = next_step e
                 /\ LevelLoader.is_position_blocked self'
                      (Enemy.x e') (Enemy.y e') = Ok false)).
Proof.
  intros self'. subst self'.
  assert (Erun :
    LevelLoader.update self w
    = match traverse AnimatedTile.update
              (LevelLoader.animated_tiles self) w with
      | (Ok _, tiles, w1) =>
          (self ← get;
           zoom LevelLoader.entities LevelLoader.set_entities
             (traverse (LevelLoader.update_entity self));;
           LevelLoader.check_player_enemy_collisions)
            (LevelLoader.set_animated_tiles tiles self) w1
      | (Raise err, tiles, w1) =>
          (Raise err, LevelLoader.set_animated_tiles tiles self, w1)
      end).
  { unfold LevelLoader.update. unfold mbind at 1, M_bind at 1, zoom at 1.
    by destruct (traverse AnimatedTile.update _ w) as [[[[]|err] tiles] w1]. }
  rewrite Erun. clear Erun.
  destruct (traverse AnimatedTile.update _ w) as [[r tiles] w1].
  set (s1 := LevelLoader.set_animated_tiles tiles self).
  assert (Hs1 : LevelLoader.collision_grid s1 = LevelLoader.collision_grid self
                /\ LevelLoader.entities s1 = LevelLoader.entities self)
    by done.
  destruct Hs1 as [Hg1 He1]. rewrite <- Hg1, <- He1.
  assert (Hgoal : forall v,
    let s' := state_of
      ((self ← get;
        zoom LevelLoader.entities LevelLoader.set_entities
          (traverse (LevelLoader.update_entity self));;
        LevelLoader.check_player_enemy_collisions) s1 v) in
    LevelLoader.collision_grid s' = LevelLoader.collision_grid s1
    /\ length (LevelLoader.entities s') = length (LevelLoader.entities s1)
    /\ forall j e',
         LevelLoader.entities s' !! j = Some (an_enemy e') ->
         exists e,
           LevelLoader.entities s1 !! j = Some (an_enemy e)
           /\ ((Enemy.x e', Enemy.y e') = (Enemy.x e, Enemy.y e)
               \/ ((Enemy.x e', Enemy.y e') = next_step e
                   /\ LevelLoader.is_position_blocked s'
                        (Enemy.x e') (Enemy.y e') = Ok false))).
  { clearbody s1. clear. intros v s'. subst s'.
    assert (Erun :
      (self ← get;
       zoom LevelLoader.entities LevelLoader.set_entities
         (traverse (LevelLoader.update_entity self));;
       LevelLoader.check_player_enemy_collisions) s1 v
      = match traverse (LevelLoader.update_entity s1)
                (LevelLoader.entities s1) v with
        | (Ok _, es, v1) =>
            LevelLoader.check_player_enemy_collisions
              (LevelLoader.set_entities es s1) v1
        | (Raise err, es, v1) =>
            (Raise err, LevelLoader.set_entities es s1, v1)
        end).
    { cbv [mbind M_bind get zoom].
      by destruct (traverse _ (LevelLoader.entities s1) v)
        as [[[[]|err] es] v1]. }
    rewrite Erun. clear Erun.
    destruct (traverse_each (LevelLoader.update_entity s1)
                (LevelLoader.entities s1) v) as [Hlen Heach].
    unfold state_of in Hlen, Heach.
    destruct (traverse _ (LevelLoader.entities s1) v) as [[r es] v1].
    cbn [fst snd] in Hlen, Heach.
    set (s2 := LevelLoader.set_entities es s1).
    assert (Hstep : forall j e',
      LevelLoader.entities s2 !! j = Some (an_enemy e') ->
      exists e,
        LevelLoader.entities s1 !! j = Some (an_enemy e)
        /\ ((Enemy.x e', Enemy.y e') = (Enemy.x e, Enemy.y e)
            \/ ((Enemy.x e', Enemy.y e') = next_step e
                /\ LevelLoader.is_position_blocked s1
                     (Enemy.x e') (Enemy.y e') = Ok false))).
    { intros j e' Hj. destruct (Heach j _ Hj) as (o & Ho & [<-|[v0 Hrun]]).
      - exists e'. split; [done|]. by left.
      - destruct o as [p|e]; unfold LevelLoader.update_entity in Hrun.
        + unfold state_of in Hrun.
          by destruct (Player.update p v0) as [[? ?] ?].
        + exists e. split; [done|].
          pose proof (enemy_stays_or_steps
                        (LevelLoader.is_position_blocked s1) e v0) as Hpos.
          unfold state_of in Hrun, Hpos.
          destruct (Enemy.update _ e v0) as [[r0 e1] v2].
          cbn [fst snd] in Hrun, Hpos. injection Hrun as ->.
          destruct Hpos as [Hp|[Hp Hfree]]; [by left|right].
          split; [done|]. by rewrite <- Hp in Hfree. }
    assert (Hk : same_enemies s2
                   (state_of (LevelLoader.check_player_enemy_collisions
                                s2 v1))).
    { apply check_collisions_same_enemies, same_enemies_refl. }
    destruct r as [[]|err].
    - destruct Hk as (Hlen' & Hgrid' & Hen').
      split; [by rewrite Hgrid'|]. split; [by rewrite Hlen', <- Hlen|].
      intros j e' Hj. destruct (Hstep j e' (Hen' j e' Hj)) as (e & He & Hpos).
      exists e. split; [done|].
      destruct Hpos as [Hp|[Hp Hfree]]; [by left|right]. split; [done|].
      by rewrite (is_position_blocked_grid s1).
    - cbn [state_of fst snd]. split; [done|]. split; [done|].
      intros j e' Hj. destruct (Hstep j e' Hj) as (e & He & Hpos).
      exists e. split; [done|].
      destruct Hpos as [Hp|[Hp Hfree]]; [by left|right]. done. }
  destruct r as [[]|err]; [apply Hgoal|]. cbn [state_of fst snd].
  split; [done|]. split; [done|]. intros j e' Hj. exists e'.
  split; [done|]. by left.
Qed.

Lemma enemies_keep_to_free_tiles_witness :
  let self' := state_of (LevelLoader.update sample_loader
                           sample_level_world) in
  exists e' e,
    LevelLoader.entities self' !! 1%nat = Some (an_enemy e')
    /\ LevelLoader.entities sample_loader !! 1%nat = Some (an_enemy e)
    /\ ((Enemy.x e', Enemy.y e') = (Enemy.x e, Enemy.y e)
        \/ ((Enemy.x e', Enemy.y e') = next_step e
            /\ LevelLoader.is_position_blocked self'
                 (Enemy.x e') (Enemy.y e') = Ok false)).
Proof.
  intros self'.
  destruct (LevelLoader.entities self' !! 1%nat) as [[p|e']|] eqn:E;
    [exfalso; vm_compute in E; discriminate E
    | | exfalso; vm_compute in E; discriminate E].
  destruct (proj2 (proj2 (enemies_keep_to_free_tiles sample_loader
                            sample_level_world)) 1%nat e' E)
    as (e & He & Hpos).
  exists e', e. split; [reflexivity|]. split; [exact He | exact Hpos].
Defined.

(** ** The update hook *)

(** X23.  One direction at a time.  With two or more arrow keys held,
    the frame is the frame with no arrow held: the level is updated, the
    debug and attack keys are served, and no step is asked for. *)
Theorem one_direction_at_a_time (keyboard : Main.Keyboard) (s : Main.t)
    (w : World) :
  (2 <= arrows_held keyboard)%nat ->
  Main.update keyboard s w = Main.update (no_arrows keyboard) s w.
Proof.
  destruct keyboard as [kd ks kl kr ku kdn]. unfold arrows_held, no_arrows.
  cbn [Main.d Main.space Main.left_key Main.right_key Main.up Main.down].
  intros H. unfold Main.update.
  cbn [Main.d Main.space Main.left_key Main.right_key Main.up Main.down].
  destruct kl, kr, ku, kdn; simpl in H; try lia; reflexivity.
Qed.

Lemma one_direction_at_a_time_witness :
  let keyboard :=
    {| Main.d := false; Main.space := false; Main.left_key := true;
       Main.right_key := false; Main.up := true; Main.down := false |} in
  let s := {| Main.level_loader := sample_loader;
              Main.DEBUG_MODE_ON := false |} in
  Main.update keyboard s (tick_read sample_level_world)
  = Main.update (no_arrows keyboard) s (tick_read sample_level_world).
Proof.
  intros keyboard s.
  apply (one_direction_at_a_time keyboard s (tick_read sample_level_world)).
  vm_compute. lia.
Defined.

Lemma move_player_keeps_attack dx dy (s : LevelLoader.t) w :
  (Player.is_attacking
     <$> LevelLoader.the_player
           (state_of (LevelLoader.move_player dx dy s w)))
  = (Player.is_attacking <$> LevelLoader.the_player s).
Proof.
  rewrite move_player_cases.
  destruct (LevelLoader.the_player s) as [p|] eqn:Hp;
    [|by cbn [state_of fst snd]; rewrite Hp].
  destruct (LevelLoader.is_position_blocked s _ _) as [[|]|err];
    try by cbn [state_of fst snd]; rewrite Hp.
  destruct (on_player_state
              (Player.move dx dy (LevelLoader.get_level_size s).1
                 (LevelLoader.get_level_size s).2
                 (inject_Z (tick_clock w 0) / 1000)%Q) s (tick_read w) p Hp)
    as (Hs & _). rewrite Hs. simpl. f_equal.
  destruct (move_outcome p (tick_read w) dx dy
              (LevelLoader.get_level_size s).1
              (LevelLoader.get_level_size s).2
              (inject_Z (tick_clock w 0) / 1000)%Q)
    as (b & p' & E & Hflags & _).
  rewrite E. cbn [state_of fst snd]. by injection Hflags.
Qed.

(** X24.  An attack comes before a step.  If the player is attacking
    when the frame ends, no step was taken in it whatever arrows were
    held: in particular the frame in which the attack key starts an
    attack moves nobody. *)
Theorem attack_preempts_step (keyboard : Main.Keyboard) (s : Main.t)
    (w : World) :
  player_attacking (state_of (Main.update keyboard s w)) = true ->
  Main.update keyboard s w = Main.update (no_arrows keyboard) s w.
Proof.
  destruct keyboard as [kd ks kl kr ku kdn]. unfold no_arrows.
  cbn [Main.d Main.space Main.left_key Main.right_key Main.up Main.down].
  unfold Main.update.
  cbn [Main.d Main.space Main.left_key Main.right_key Main.up Main.down].
  assert (Hmove : forall dx dy s1 w1,
    player_attacking s1 = false ->
    player_attacking
      (state_of ((Main.on_loader (LevelLoader.move_player dx dy);; mret tt)
                   s1 w1)) = true ->
    False).
  { intros dx dy s1 w1 Hoff. unfold player_attacking in *.
    unfold Main.on_loader, zoom, mbind, M_bind, mret, M_ret.
    pose proof (move_player_keeps_attack dx dy (Main.level_loader s1) w1)
      as Hk. unfold state_of in *.
    destruct (LevelLoader.move_player dx dy (Main.level_loader s1) w1)
      as [[[b|e] l'] w']; cbn [fst snd Main.level_loader Main.set_level_loader]
      in *;
      destruct (LevelLoader.the_player l'),
        (LevelLoader.the_player (Main.level_loader s1));
      simpl in Hk; try done; intros Hon; congruence. }
  revert s w.
  assert (Hcong : forall {A} (m : M Main.t A) (k1 k2 : A -> M Main.t unit) s w,
    (forall a s' w',
       player_attacking (state_of (k1 a s' w')) = true ->
       k1 a s' w' = k2 a s' w') ->
    player_attacking (state_of ((m ≫= k1) s w)) = true ->
    (m ≫= k1) s w = (m ≫= k2) s w).
  { intros A m k1 k2 s w Hk. unfold mbind, M_bind.
    destruct (m s w) as [[[a|e] s'] w']; [apply Hk|done]. }
  intros s w. apply Hcong. intros _ s1 w1.
  apply Hcong. intros _ s2 w2.
  apply Hcong. intros _ s3 w3.
  assert (Hget : forall (k1 k2 : Main.t -> M Main.t unit) s w,
    (player_attacking (state_of (k1 s s w)) = true -> k1 s s w = k2 s s w) ->
    player_attacking (state_of ((get ≫= k1) s w)) = true ->
    (get ≫= k1) s w = (get ≫= k2) s w).
  { intros k1 k2 s0 w0 H. exact H. }
  apply Hget. fold (player_attacking s3).
  destruct (player_attacking s3) eqn:Hatt; [done|]. cbn [negb].
  destruct kl, kr, ku, kdn; cbn [andb orb negb]; try done;
    intros Hend; exfalso; by eapply Hmove.
Qed.

Lemma attack_preempts_step_witness :
  let keyboard :=
    {| Main.d := false; Main.space := true; Main.left_key := false;
       Main.right_key := true; Main.up := false; Main.down := false |} in
  let s := {| Main.level_loader := sample_loader;
              Main.DEBUG_MODE_ON := false |} in
  Main.update keyboard s (tick_read sample_level_world)
  = Main.update (no_arrows keyboard) s (tick_read sample_level_world).
Proof.
  intros keyboard s.
  apply (attack_preempts_step keyboard s (tick_read sample_level_world)).
  vm_compute. reflexivity.
Defined.

(** ** The tile grid *)

Lemma snap_to_grid_on_grid v : (TILE_SIZE | snap_to_grid v).
Proof. unfold snap_to_grid. by apply Z.divide_factor_r. Qed.

Lemma step_on_grid x d : (TILE_SIZE | x) -> (TILE_SIZE | x + d * TILE_SIZE).
Proof. intros H. apply Z.divide_add_r; [done|]. by apply Z.divide_factor_r. Qed.



Lemma call_keeps_position_on_grid c p w :
  on_grid (Player.x p) (Player.y p) ->
  on_grid (Player.x (state_of (call c p w)))
    (Player.y (state_of (call c p w))).
Proof.
  intros [Hx Hy].
  assert (Hsame : forall (m : M Player.t unit),
    stable placement m ->
    on_grid (Player.x (state_of (m p w))) (Player.y (state_of (m p w)))).
  { intros m Hm. specialize (Hm p w).
    injection Hm as -> -> _ _. by split. }
  destruct c as [|dx dy lw lh t| |d]; simpl.
  - apply Hsame, update_keeps_placement.
  - destruct (move_outcome p w dx dy lw lh t) as (b & p' & E & _ & H).
    unfold mbind, M_bind, mret, M_ret, state_of. rewrite E. cbn [fst snd].
    destruct b.
    + destruct H as (_ & _ & Hpos & _). injection Hpos as Hx' Hy'.
      rewrite Hx', Hy'. split; by apply step_on_grid.
    + destruct H as (Hpos & _). injection Hpos as Hx' Hy'.
      rewrite Hx', Hy'. by split.
  - apply Hsame. apply stable_bind; [|intros ?; apply stable_ret].
    unfold Player.start_attack, Player.on_sword_sprite. stable_body.
  - destruct (Player.is_invincible p || Player.is_hurt p) eqn:Hrej.
    { unfold mbind, M_bind. by rewrite take_damage_rejected. }
    apply orb_false_elim in Hrej as [Hi Hh].
    pose proof (take_damage_accepted d p w Hi Hh) as H. unfold wp in H.
    destruct H as (_ & _ & _ & _ & _ & _ & _ & _ & Hp).
    unfold mbind, M_bind, mret, M_ret, state_of in *.
    destruct (Player.take_damage d p w) as [[[b|err] p'] w'];
      cbn [fst snd] in *; injection Hp as Hx' Hy' _ _;
      rewrite Hx', Hy'; by split.
Qed.

Lemma enemy_update_on_grid query e w :
  on_grid (Enemy.x e) (Enemy.y e) ->
  on_grid (Enemy.x (state_of (Enemy.update query e w)))
    (Enemy.y (state_of (Enemy.update query e w))).
Proof.
  intros [Hx Hy].
  assert (Hnext : on_grid (next_step e).1 (next_step e).2).
  { unfold next_step.
    destruct (py_eq_str _ "horizontal"); [|destruct (py_eq_str _ "vertical")];
      cbn [fst snd]; split; try done; by apply step_on_grid. }
  pose proof (enemy_update_body query e w) as H.
  unfold enemy_transition in H.
  destruct (Enemy.movement_state e); destruct (Qge_bool _ _).
  - destruct (match query with Some _ => _ | None => _ end) as [[|]|err].
    + apply enemy_body_fields in H as (-> & -> & _). by split.
    + destruct (_ >=? _);
        apply enemy_body_fields in H as (-> & -> & _); exact Hnext.
    + rewrite H. by split.
  - apply enemy_body_fields in H as (-> & -> & _). by split.
  - apply enemy_body_fields in H as (-> & -> & _). by split.
  - apply enemy_body_fields in H as (-> & -> & _). by split.
Qed.

(** X26.  Everything stands on the tile grid, always.  The
    constructors put a player and an enemy on a corner of the grid,
    wherever the map placed them; every call on a player and every
    [update] of an enemy keeps them on one, whether it returns or
    raises. *)
Theorem entities_stay_on_the_grid :
  (forall {S} x0 y0 (st st' : S) w w' p,
     Player.__init__ x0 y0 st w = (Ok p, st', w') ->
     on_grid (Player.x p) (Player.y p))
  /\ (forall {S} x0 y0 a b n (st st' : S) w w' e,
        Enemy.__init__ x0 y0 a b n st w = (Ok e, st', w') ->
        on_grid (Enemy.x e) (Enemy.y e))
  /\ (forall p p',
        plays p p' ->
        on_grid (Player.x p) (Player.y p) ->
        on_grid (Player.x p') (Player.y p'))
  /\ (forall query e w,
        on_grid (Enemy.x e) (Enemy.y e) ->
        on_grid (Enemy.x (state_of (Enemy.update query e w)))
          (Enemy.y (state_of (Enemy.update query e w)))).
Proof.
  split; [|split; [|split]].
  - intros S x0 y0 st st' w w' p H.
    apply player_init_place in H as [= -> ->].
    split; apply snap_to_grid_on_grid.
  - intros S x0 y0 a b n st st' w w' e H.
    apply enemy_init_place in H as [= -> ->].
    split; apply snap_to_grid_on_grid.
  - intros p p' Hplays. induction Hplays as [p|p c w p' _ IH]; [done|].
    intros H. by apply IH, call_keeps_position_on_grid.
  - apply enemy_update_on_grid.
Qed.

Lemma entities_stay_on_the_grid_witness :
  let e := state_of (Enemy.update None sample_enemy (world_at 1)) in
  on_grid (Enemy.x e) (Enemy.y e).
Proof.
  intros e.
  apply (proj2 (proj2 (proj2 entities_stay_on_the_grid)) None sample_enemy
           (world_at 1)).
  split; by exists 5.
Defined.

(** ** LevelLoader._render_background *)

(** X27.  The background is as large as the level.  For a loaded map,
    [_render_background] raises pygame's error and changes nothing when
    the level has a negative width or height in pixels; otherwise it
    replaces the background by a surface of exactly the size
    [get_level_size] reports, whatever is drawn on it and also when a
    tile image cannot be fetched on the way; nothing else of the loader
    changes. *)
Theorem background_has_the_level_size (self : LevelLoader.t) (w : World)
    (tmx : TiledMap) :
  LevelLoader.tmx_data self = Some tmx ->
  let run := LevelLoader._render_background self w in
  let size := LevelLoader.get_level_size self in
  (size.1 < 0 \/ size.2 < 0 -> run = (Raise PygameError, self, w))
  /\ (0 <= size.1 /\ 0 <= size.2 ->
      (surface_size <$> LevelLoader.bg_surface (state_of run)) = Some size
      /\ exists bg,
           state_of run = LevelLoader.set_bg_surface (Some bg) self).
Proof.
  intros Htmx run size. subst run size.
  unfold LevelLoader.get_level_size. rewrite Htmx. cbn [fst snd].
  set (lw := tmx_width tmx * tilewidth tmx).
  set (lh := tmx_height tmx * tileheight tmx).
  set (loops := (for_each ["background"%string; "colliders"%string] (fun name =>
       match LevelLoader.find_layer name true tmx with
       | None => print (WarnLayerNotFound name)
       | Some layer =>
           for_each (LevelLoader.layer_cells layer) (fun '(x, y, gid) =>
             if negb (gid =? 0) then
               tile ← lift (get_tile_image_by_gid tmx gid);
               match tile with
               | Some img =>
                   modify (fun s =>
                     LevelLoader.set_bg_surface
                       (blit img (x * tilewidth tmx, y * tileheight tmx)
                          <$> LevelLoader.bg_surface s) s)
               | None => mret tt
               end
             else mret tt)
       end))).
  set (f := fun s : LevelLoader.t =>
    (surface_size <$> LevelLoader.bg_surface s,
     match LevelLoader.bg_surface s with Some _ => true | None => false end,
     LevelLoader.set_bg_surface None s)).
  assert (Hloops : stable f loops).
  { apply stable_for_each. intros name.
    destruct (LevelLoader.find_layer name true tmx); [|apply stable_print].
    apply stable_for_each. intros [[x y] gid].
    destruct (negb _); [|apply stable_ret].
    apply stable_bind; [apply stable_lift|intros [img|]];
      [|apply stable_ret].
    apply stable_modify. intros s0. unfold f.
    by destruct s0 as [? ? ? [bg|] ? ? ? ? ? ? ?]. }
  assert (Erun :
    LevelLoader._render_background self w
    = if (lw <? 0) || (lh <? 0) then (Raise PygameError, self, w)
      else loops (LevelLoader.set_bg_surface (Some (Canvas lw lh)) self) w).
  { unfold LevelLoader._render_background.
    unfold mbind at 1, M_bind at 1, get at 1. rewrite Htmx.
    fold lw lh loops. unfold new_surface.
    by destruct ((lw <? 0) || (lh <? 0)). }
  rewrite Erun. clear Erun.
  destruct (Z.ltb_spec lw 0) as [Hw|Hw].
  { split; [done|]. lia. }
  destruct (Z.ltb_spec lh 0) as [Hh|Hh].
  { split; [done|]. lia. }
  split; [lia|]. intros _. cbn [orb].
  specialize (Hloops (LevelLoader.set_bg_surface (Some (Canvas lw lh)) self) w).
  revert Hloops.
  generalize (state_of
    (loops (LevelLoader.set_bg_surface (Some (Canvas lw lh)) self) w)).
  intros s' [= Hsize Hsome Hrest]. split; [done|].
  destruct (LevelLoader.bg_surface s') as [bg|] eqn:Hbg; [|done].
  exists bg. destruct s', self. simpl in *. by simplify_eq.
Qed.

Lemma background_has_the_level_size_witness :
  surface_size
    <$> LevelLoader.bg_surface
          (state_of (LevelLoader._render_background sample_loader
                       sample_level_world))
  = Some (128, 96).
Proof.
  pose proof (background_has_the_level_size sample_loader sample_level_world
                sample_map eq_refl) as H.
  cbv zeta in H. destruct H as [_ H].
  destruct H as [H _]; [split; vm_compute; discriminate|exact H].
Defined.

(** ** Running without exceptions *)

Section Safe.
Context {S : Type} (I : S -> Prop).

Lemma safe_ret {A} (a : A) : safe I (mret a).
Proof. intros s w Hs. split; [done|by exists a]. Qed.

Lemma safe_bind {A B} (m : M S A) (k : A -> M S B) :
  safe I m -> (forall a, safe I (k a)) -> safe I (m ≫= k).
Proof.
  intros Hm Hk s w Hs. destruct (Hm s w Hs) as [Hs' [a Ha]].
  unfold mbind, M_bind, state_of, result_of in *.
  destruct (m s w) as [[r s'] w']. cbn [fst snd] in *. subst r.
  by apply Hk.
Qed.

Lemma safe_get : safe I get.
Proof. intros s w Hs. split; [done|by exists s]. Qed.

Lemma safe_time : safe I time_time.
Proof. intros s w Hs. split; [done|by eexists]. Qed.

Lemma safe_ticks : safe I get_ticks.
Proof. intros s w Hs. split; [done|by eexists]. Qed.

Lemma safe_print l : safe I (print l).
Proof. intros s w Hs. split; [done|by exists tt]. Qed.

Lemma safe_lift {A} (a : A) : safe I (lift (Ok a)).
Proof. intros s w Hs. split; [done|by exists a]. Qed.

Lemma safe_modify (g : S -> S) :
  (forall s, I s -> I (g s)) -> safe I (modify g).
Proof. intros H s w Hs. split; [by apply H|by exists tt]. Qed.

Lemma safe_zoom {T A} (J : T -> Prop) (view : S -> T) (update : T -> S -> S)
    (m : M T A) :
  safe J m ->
  (forall s, I s -> J (view s)) ->
  (forall s t, I s -> J t -> I (update t s)) ->
  safe I (zoom view update m).
Proof.
  intros Hm Hview Hupd s w Hs.
  destruct (Hm (view s) w (Hview s Hs)) as [Ht [a Ha]].
  unfold zoom, state_of, result_of in *.
  destruct (m (view s) w) as [[r t'] w']. cbn [fst snd] in *.
  split; [by apply Hupd|by exists a].
Qed.

Lemma safe_keeps {A} (m : M S A) : safe I m -> keeps I m.
Proof. intros H s w Hs. by apply H. Qed.
End Safe.

(** Walks a method body and closes [safe] goals whose mutations keep the
    invariant by computation. *)
Ltac safe_body :=
  repeat first
    [ apply safe_ret | apply safe_get | apply safe_time | apply safe_ticks
    | apply safe_print | apply safe_lift
    | apply safe_modify; intros ? ?; assumption
    | apply safe_bind; [|intros ?]
    | match goal with
      | |- safe _ (if ?b then _ else _) => destruct b
      | |- safe _ (match ?x with _ => _ end) => destruct x
      end ].

Lemma play_animation_playing n reset :
  n <> EmptyString ->
  safe sprite_playing (AnimatedSprite.play_animation n reset).
Proof.
  intros Hn s w [Hs Hp].
  destruct (play_animation_sound s w n reset Hs) as [Hr Hs'].
  split; [|by exists tt]. split; [done|].
  destruct (AnimatedSprite.animations s !! n) as [d|] eqn:Hd.
  2:{ by rewrite play_animation_unknown. }
  destruct (decide (AnimatedSprite.current_animation s = Some n)) as [Hc|Hc];
    [destruct reset|].
  - rewrite play_animation_starts by eauto. cbn.
    by apply String.eqb_neq.
  - by rewrite play_animation_running by eauto.
  - rewrite play_animation_starts by eauto. cbn.
    by apply String.eqb_neq.
Qed.

Lemma sprite_update_playing : safe sprite_playing AnimatedSprite.update.
Proof.
  intros s w [Hs Hp].
  destruct (sprite_update_sound s w Hs) as [Hr Hs'].
  split; [|by exists tt]. split; [done|].
  pose proof (sprite_update_keeps_clip s w) as Hk.
  injection Hk as Hc _. by rewrite Hc.
Qed.

Lemma enemy_on_sprite_safe {A} (m : M AnimatedSprite.t A) :
  safe sprite_playing m -> safe enemy_sound (Enemy.on_sprite m).
Proof.
  intros Hm. unfold Enemy.on_sprite.
  by apply (safe_zoom enemy_sound sprite_playing).
Qed.

Lemma play_facing_safe a b r :
  a <> EmptyString -> b <> EmptyString ->
  safe enemy_sound (Enemy.play_facing a b r).
Proof.
  intros Ha Hb. unfold Enemy.play_facing.
  apply safe_bind; [apply safe_get|intros self].
  destruct (py_eq_str _ "horizontal"); [|destruct (py_eq_str _ "vertical")];
    try apply safe_ret;
    destruct (Enemy.facing_direction self);
    by apply enemy_on_sprite_safe, play_animation_playing.
Qed.

Lemma enemy_update_safe query :
  answers query -> safe enemy_sound (Enemy.update query).
Proof.
  intros Hq. unfold Enemy.update.
  apply safe_bind; [apply safe_time|intros now].
  apply safe_bind; [apply safe_get|intros self].
  apply safe_bind;
    [|intros _; apply enemy_on_sprite_safe, sprite_update_playing].
  destruct (Enemy.movement_state self).
  - destruct (Qge_bool _ _); [|by apply play_facing_safe]. cbv zeta.
    apply safe_bind.
    { destruct query as [blocked|]; [|apply safe_ret].
      match goal with
      | |- safe _ (lift (blocked ?px ?py) ≫= _) =>
          destruct (Hq px py) as [b ->]
      end.
      apply safe_bind; [apply safe_lift|intros ?; apply safe_ret]. }
    intros [|].
    + do 4 (apply safe_bind; [by apply safe_modify|intros _]).
      apply safe_bind; [apply safe_get|intros self'].
      destruct (_ >=? _); [|apply safe_ret].
      do 3 (apply safe_bind; [by apply safe_modify|intros _]).
      by apply play_facing_safe.
    + do 3 (apply safe_bind; [by apply safe_modify|intros _]).
      by apply play_facing_safe.
  - destruct (Qge_bool _ _); [|apply safe_ret].
    do 3 (apply safe_bind; [by apply safe_modify|intros _]).
    by apply play_facing_safe.
Qed.

(** With a query that raises, the enemy is left as it was; otherwise the
    query might as well always answer. *)
Lemma enemy_update_keeps_sound query :
  keeps enemy_sound (Enemy.update query).
Proof.
  intros e w He.
  destruct query as [blocked|]; [|by apply (enemy_update_safe None)].
  set (total := fun px py =>
         match blocked px py with
         | Ok c => Ok c
         | Raise _ => Ok false
         end).
  assert (Htotal : answers (Some total)).
  { intros px py. unfold total. destruct (blocked px py); by eexists. }
  assert (Hdone : Enemy.update (Some blocked) e w
                  = Enemy.update (Some total) e w ->
                  enemy_sound (state_of (Enemy.update (Some blocked) e w))).
  { intros ->. by apply (enemy_update_safe (Some total)). }
  destruct (Enemy.movement_state e) eqn:Hm.
  - destruct (Qge_bool (wall_clock w 0 - Enemy.last_move_time e)
                (Enemy.move_cooldown e)) eqn:Hdue.
    + destruct (blocked (next_step e).1 (next_step e).2) as [b|err] eqn:Hb.
      * apply Hdone. rewrite <- (next_step_code e) in Hb.
        cbn [fst snd] in Hb.
        unfold Enemy.update. cbv [mbind M_bind time_time get lift].
        rewrite Hm, Hdue. unfold total. by rewrite Hb.
      * pose proof (enemy_update_body (Some blocked) e w) as H.
        unfold enemy_transition in H. rewrite Hm, Hdue, Hb in H.
        by rewrite H.
    + apply Hdone. unfold Enemy.update. cbv [mbind M_bind time_time get].
      by rewrite Hm, Hdue.
  - apply Hdone. unfold Enemy.update. cbv [mbind M_bind time_time get].
    by rewrite Hm.
Qed.

Lemma enemy_clips_nonempty : clips_nonempty Enemy.enemy_animations.
Proof.
  unfold clips_nonempty.
  apply (bool_decide_unpack
           (map_Forall (fun _ d => AnimatedSprite.frames d <> [])
              Enemy.enemy_animations)).
  vm_compute. exact I.
Qed.

Lemma enemy_init_sound {S} x0 y0 a b n (st st' : S) w w' e :
  Enemy.__init__ x0 y0 a b n st w = (Ok e, st', w') -> enemy_sound e.
Proof.
  unfold Enemy.__init__. unfold mbind at 1, M_bind at 1.
  destruct (AnimatedSprite.__init__ _ _ _ st w) as [[[sp|err] st1] w1] eqn:E;
    [|done].
  apply sprite_init_ok in E as (Hanims & Hcur & Hcache).
  assert (Hs : sprite_sound sp).
  { split; [|split; [|split]].
    - intros m Hm. by rewrite Hcur in Hm.
    - intros m d Hm. by rewrite Hcur in Hm.
    - done.
    - rewrite Hanims. apply enemy_clips_nonempty. }
  unfold construct, Enemy.on_sprite, zoom. cbn [Enemy.sprite].
  assert (Hd : is_Some (AnimatedSprite.animations sp !! "walk_right"%string)).
  { rewrite Hanims. vm_compute. eauto. }
  destruct (play_animation_sound sp w1 "walk_right" true Hs) as [_ Hs'].
  revert Hs'. rewrite play_animation_starts by auto.
  cbn [state_of fst snd]. intros Hs' [= <- _ _].
  split; [exact Hs'|done].
Qed.

(** X28.  An enemy never fails.  An enemy that its constructor returned
    and that has been updated any number of times, with whatever loaders,
    is updated without an exception by any loader whose query answers
    (and with no loader), and is drawn without one: [draw] blits exactly
    one frame, at the enemy's position less the camera's. *)
Theorem enemy_never_fails {S} (x0 y0 : Q) (etype emovement : pyval)
    (nblocks : Z) (st st' : S) (w w' : World) (e e' : Enemy.t) :
  Enemy.__init__ x0 y0 etype emovement nblocks st w = (Ok e, st', w') ->
  patrols e e' ->
  (forall query v,
     answers query -> result_of (Enemy.update query e' v) = Ok tt)
  /\ (forall camera_x camera_y screen v,
        exists frame,
          Enemy.draw e' camera_x camera_y screen v
          = (Ok tt,
             blit frame (Enemy.x e' - camera_x, Enemy.y e' - camera_y)
               screen,
             v)).
Proof.
  intros Hinit Hrun. apply enemy_init_sound in Hinit.
  assert (He' : enemy_sound e').
  { clear -Hinit Hrun. induction Hrun as [e|e query w e' _ IH]; [done|].
    by apply IH, enemy_update_keeps_sound. }
  split.
  - intros query v Hq.
    destruct (enemy_update_safe query Hq e' v He') as [_ [[] Hr]]. exact Hr.
  - intros cx cy screen v. destruct He' as [Hs Hp].
    destruct (get_current_frame_sound _ Hs) as (frame & Hf & Hsome).
    destruct (Hsome Hp) as [fr ->].
    exists fr. unfold Enemy.draw. cbv [mbind M_bind lift modify].
    by rewrite Hf.
Qed.

Lemma enemy_never_fails_witness :
  let e' := state_of (Enemy.update None sample_enemy (world_at 1)) in
  exists frame,
    Enemy.draw e' 0 0 (Canvas 320 240) sample_world
    = (Ok tt, blit frame (Enemy.x e', Enemy.y e') (Canvas 320 240),
       sample_world).
Proof.
  intros e'.
  destruct (enemy_never_fails 80 80 (PStr "rat") (PStr "horizontal") 2
              tt tt sample_world sample_world sample_enemy e')
    as [_ H].
  - vm_compute. reflexivity.
  - apply (patrols_update _ None (world_at 1)). apply patrols_nil.
  - destruct (H 0 0 (Canvas 320 240) sample_world) as [frame Hf].
    exists frame. rewrite Hf. do 3 f_equal; lia.
Defined.

(** ** The player never fails *)

Lemma play_animation_safe n reset :
  safe sprite_sound (AnimatedSprite.play_animation n reset).
Proof.
  intros s w Hs. destruct (play_animation_sound s w n reset Hs) as [Hr Hs'].
  split; [done|by exists tt].
Qed.

Lemma sprite_update_safe : safe sprite_sound AnimatedSprite.update.
Proof.
  intros s w Hs. destruct (sprite_update_sound s w Hs) as [Hr Hs'].
  split; [done|by exists tt].
Qed.

Lemma player_on_sprite_safe {A} (m : M AnimatedSprite.t A) :
  safe sprite_sound m -> safe player_sound (Player.on_sprite m).
Proof.
  intros Hm. unfold Player.on_sprite.
  apply (safe_zoom player_sound sprite_sound); [done| |].
  - by intros s [H _].
  - by intros s t [_ H] Ht.
Qed.

Lemma player_on_sword_sprite_safe {A} (m : M AnimatedSprite.t A) :
  safe sprite_sound m -> safe player_sound (Player.on_sword_sprite m).
Proof.
  intros Hm. unfold Player.on_sword_sprite.
  apply (safe_zoom player_sound sprite_sound); [done| |].
  - by intros s [_ H].
  - by intros s t [H _] Ht.
Qed.

Ltac player_safe :=
  repeat first
    [ apply safe_ret | apply safe_get | apply safe_time | apply safe_print
    | apply safe_modify; intros ? ?; assumption
    | apply player_on_sprite_safe; first
        [apply play_animation_safe | apply sprite_update_safe]
    | apply player_on_sword_sprite_safe; first
        [apply play_animation_safe | apply sprite_update_safe]
    | apply safe_bind; [|intros ?]
    | match goal with
      | |- safe _ (if ?b then _ else _) => destruct b
      | |- safe _ (match ?x with _ => _ end) => destruct x
      end ].

Lemma player_update_safe : safe player_sound Player.update.
Proof. unfold Player.update, Player.update_states. player_safe. Qed.

Lemma take_damage_safe d : safe player_sound (Player.take_damage d).
Proof. unfold Player.take_damage. player_safe. Qed.

Lemma move_safe dx dy lw lh t : safe player_sound (Player.move dx dy lw lh t).
Proof. unfold Player.move. player_safe. Qed.

Lemma start_attack_keeps_sound : keeps player_sound Player.start_attack.
Proof.
  unfold Player.start_attack.
  apply keeps_bind; [by intros ? ?|intros self].
  destruct (_ || _); [by intros ? ?|].
  apply keeps_bind; [by apply keeps_modify|intros _].
  apply keeps_bind; [by intros ? ?|intros now].
  apply keeps_bind; [by apply keeps_modify|intros _].
  apply keeps_bind; [by intros ? ?|intros _].
  apply keeps_bind; [by intros ? ?|intros self'].
  apply keeps_bind; [|by intros ? ? ?].
  destruct (Player.facing_direction self');
    apply safe_keeps, player_on_sword_sprite_safe, play_animation_safe.
Qed.

Lemma call_keeps_sound c : keeps player_sound (call c).
Proof.
  destruct c as [|dx dy lw lh t| |d]; simpl.
  - apply safe_keeps, player_update_safe.
  - apply keeps_bind; [apply safe_keeps, move_safe|by intros ? ? ?].
  - apply keeps_bind; [apply start_attack_keeps_sound|by intros ? ? ?].
  - apply keeps_bind; [apply safe_keeps, take_damage_safe|by intros ? ? ?].
Qed.

Lemma sword_clips_nonempty : clips_nonempty Player.sword_animations.
Proof.
  unfold clips_nonempty.
  apply (bool_decide_unpack
           (map_Forall (fun _ d => AnimatedSprite.frames d <> [])
              Player.sword_animations)).
  vm_compute. exact I.
Qed.

Lemma fresh_sprite_sound {S} path size anims (st st' : S) w w' s :
  AnimatedSprite.__init__ path size anims st w = (Ok s, st', w') ->
  clips_nonempty anims -> sprite_sound s.
Proof.
  intros E Hne. apply sprite_init_ok in E as (Hanims & Hcur & Hcache).
  split; [|split; [|split]].
  - intros m Hm. by rewrite Hcur in Hm.
  - intros m d Hm. by rewrite Hcur in Hm.
  - done.
  - by rewrite Hanims.
Qed.

Lemma player_init_sound {S} x0 y0 (st st' : S) w w' p :
  Player.__init__ x0 y0 st w = (Ok p, st', w') -> player_sound p.
Proof.
  unfold Player.__init__. unfold mbind at 1, M_bind at 1.
  destruct (AnimatedSprite.__init__ _ _ _ st w) as [[[sp|err] st1] w1] eqn:E1;
    [|done].
  unfold mbind at 1, M_bind at 1.
  destruct (AnimatedSprite.__init__ _ _ _ st1 w1)
    as [[[sw|err] st2] w2] eqn:E2; [|done].
  apply fresh_sprite_sound in E1; [|apply player_clips_nonempty].
  apply fresh_sprite_sound in E2; [|apply sword_clips_nonempty].
  unfold construct.
  set (p0 := {| Player.x := snap_to_grid x0; Player.sprite := sp;
                Player.sword_sprite := sw |}).
  assert (H0 : player_sound p0) by done.
  destruct (player_on_sprite_safe
              (AnimatedSprite.play_animation "idle_right" true)
              (play_animation_safe _ _) p0 w2 H0) as [Hs _].
  unfold state_of in Hs.
  destruct (Player.on_sprite _ p0 w2) as [[[[]|err] p1] w3]; [|done].
  by intros [= <- _ _].
Qed.

(** X29.  The player never fails.  On a player that its constructor
    returned, after any calls of its methods, [update], [move] and
    [take_damage] return; and [start_attack] returns unless the sound it
    asks for raises, which can only happen when the attack is accepted,
    and then that exception is what it raises. *)
Theorem player_never_fails {S} (x0 y0 : Q) (st st' : S) (w w' : World)
    (p p' : Player.t) :
  Player.__init__ x0 y0 st w = (Ok p, st', w') ->
  plays p p' ->
  (forall v, result_of (Player.update p' v) = Ok tt)
  /\ (forall dx dy lw lh t v,
        exists b, result_of (Player.move dx dy lw lh t p' v) = Ok b)
  /\ (forall d v, exists b, result_of (Player.take_damage d p' v) = Ok b)
  /\ (forall v,
        match audio_backend v (SoundPlay "sword_2") with
        | Ok _ => exists b, result_of (Player.start_attack p' v) = Ok b
        | Raise e =>
            result_of (Player.start_attack p' v)
            = if Player.is_attacking p' || Player.is_hurt p'
              then Ok false else Raise e
        end).
Proof.
  intros Hinit Hrun. apply player_init_sound in Hinit.
  assert (Hp' : player_sound p').
  { clear -Hinit Hrun. induction Hrun as [p|p c w p' _ IH]; [done|].
    by apply IH, call_keeps_sound. }
  split; [|split; [|split]].
  - intros v. destruct (player_update_safe p' v Hp') as [_ [[] Hr]]. exact Hr.
  - intros dx dy lw lh t v. by apply move_safe.
  - intros d v. by apply take_damage_safe.
  - intros v.
    destruct (Player.is_attacking p' || Player.is_hurt p') eqn:Hbusy.
    + assert (E : Player.start_attack p' v = (Ok false, p', v)).
      { unfold Player.start_attack. msimpl. by rewrite Hbusy. }
      rewrite E. destruct (audio_backend v _); [by exists false|done].
    + rewrite (start_attack_accepted p' v Hbusy). cbv zeta.
      destruct (audio_backend v _) as [[]|e]; [|done].
      destruct (play_animation_returns
                  (attack_clip_name (Player.facing_direction p')) true
                  (Player.sword_sprite p')
                  (sounded (SoundPlay "sword_2") (wall_read v)))
        as (s' & v' & ->).
      by exists true.
Qed.

Lemma player_never_fails_witness :
  let p' := state_of (call (CallTakeDamage 1) sample_player (world_at 1)) in
  result_of (Player.update p' (world_at 1.2)) = Ok tt.
Proof.
  intros p'.
  destruct (player_never_fails 16 16 tt tt sample_world sample_world
              sample_player p') as [H _].
  - vm_compute. reflexivity.
  - apply (plays_cons _ (CallTakeDamage 1) (world_at 1)). apply plays_nil.
  - exact (H (world_at 1.2)).
Defined.

(** ** A level that loaded never fails *)

Lemma bind_run {S A B} (m : M S A) (k : A -> M S B) s w b s' w' :
  (m ≫= k) s w = (Ok b, s', w') ->
  exists a s1 w1, m s w = (Ok a, s1, w1) /\ k a s1 w1 = (Ok b, s', w').
Proof.
  unfold mbind, M_bind.
  destruct (m s w) as [[[a|e] s1] w1]; [|done]. intros H. by exists a, s1, w1.
Qed.

Lemma marked_rectangular gw gh cells :
  rectangular
    (foldl (fun g c => mark_cell gw gh c g)
       (replicate (Z.to_nat gh) (replicate (Z.to_nat gw) false)) cells).
Proof.
  exists (Z.to_nat gw). intros j Hj.
  rewrite marked_length, length_replicate in Hj.
  rewrite marked_row_length, lookup_replicate_2 by done.
  simpl. by rewrite length_replicate.
Qed.

Lemma is_position_blocked_answers (self : LevelLoader.t) :
  rectangular (LevelLoader.collision_grid self) ->
  forall px py, exists b, LevelLoader.is_position_blocked self px py = Ok b.
Proof.
  intros [gw Hrect] px py. unfold LevelLoader.is_position_blocked. cbv zeta.
  rewrite (is_tile_blocked_rectangular self gw
             (length (LevelLoader.collision_grid self)) _ _ eq_refl Hrect).
  set (tx := px `div` TILE_SIZE). set (ty := py `div` TILE_SIZE).
  destruct (Z.leb_spec 0 tx); [|by eexists].
  destruct (Z.ltb_spec tx (Z.of_nat gw)); [|by eexists].
  destruct (Z.leb_spec 0 ty); [|by eexists].
  destruct (Z.ltb_spec ty
              (Z.of_nat (length (LevelLoader.collision_grid self))));
    [|by eexists].
  cbn [andb]. unfold grid_cell.
  assert (Hj : (Z.to_nat ty < length (LevelLoader.collision_grid self))%nat)
    by lia.
  specialize (Hrect _ Hj).
  destruct (LevelLoader.collision_grid self !! Z.to_nat ty) as [row|]; [|done].
  injection Hrect as Hlen. simpl.
  destruct (row !! Z.to_nat tx) as [b|] eqn:Hb; [by exists b|].
  apply lookup_ge_None in Hb. lia.
Qed.

Lemma traverse_safe {T} (J : T -> Prop) (m : M T unit) l w :
  (forall o v, J o -> J (state_of (m o v)) /\ result_of (m o v) = Ok tt) ->
  Forall J l ->
  result_of (traverse m l w) = Ok tt
  /\ Forall J (state_of (traverse m l w)).
Proof.
  intros Hm Hl. revert w. induction Hl as [|o rest Ho Hrest IH]; intros w.
  { done. }
  cbn [traverse]. destruct (Hm o w Ho) as [Ho' Hr].
  unfold state_of, result_of in *.
  destruct (m o w) as [[r o1] w1]. cbn [fst snd] in *. subst r.
  destruct (IH w1) as [Hr' Hall].
  destruct (traverse m rest w1) as [[r rest'] w2]. cbn [fst snd] in *.
  split; [done|]. by constructor.
Qed.

Lemma tile_update_returns t w :
  result_of (AnimatedTile.update t w) = Ok tt.
Proof.
  unfold AnimatedTile.update. cbv [mbind M_bind get time_time modify].
  destruct (_ <=? 1); [done|]. by destruct (Qge_bool _ _).
Qed.

Lemma update_entity_safe (self : LevelLoader.t) o v :
  rectangular (LevelLoader.collision_grid self) ->
  entity_sound o ->
  entity_sound (state_of (LevelLoader.update_entity self o v))
  /\ result_of (LevelLoader.update_entity self o v) = Ok tt.
Proof.
  intros Hrect Ho. unfold LevelLoader.update_entity.
  destruct o as [p|e]; simpl in Ho.
  - destruct (player_update_safe p v Ho) as [Hs [[] Hr]].
    unfold state_of, result_of in *.
    by destruct (Player.update p v) as [[r p'] v'].
  - destruct (enemy_update_safe
                (Some (LevelLoader.is_position_blocked self))
                (is_position_blocked_answers self Hrect) e v Ho)
      as [Hs [[] Hr]].
    unfold state_of, result_of in *.
    by destruct (Enemy.update _ e v) as [[r e'] v'].
Qed.

Lemma the_player_sound (s : LevelLoader.t) p :
  Forall entity_sound (LevelLoader.entities s) ->
  LevelLoader.the_player s = Some p -> player_sound p.
Proof.
  intros Hall. unfold LevelLoader.the_player.
  destruct (LevelLoader.player s) as [i|]; [|done].
  destruct (LevelLoader.entities s !! i) as [[q|e]|] eqn:Hl; try done.
  intros [= <-]. by apply (Forall_lookup_1 _ _ _ _ Hall Hl).
Qed.

(** A method that is safe on a sound player, called through the
    loader's reference. *)
Lemma on_player_sound {A} (m : M Player.t A) (s : LevelLoader.t) w p :
  safe player_sound m ->
  loader_sound s ->
  LevelLoader.the_player s = Some p ->
  exists a s' w',
    LevelLoader.on_player m s w = (Ok a, s', w')
    /\ loader_sound s' /\ is_Some (LevelLoader.the_player s').
Proof.
  intros Hm [Hrect Hall] Hp.
  destruct (on_player_state m s w p Hp) as (Hs & Hr & _).
  destruct (Hm p w (the_player_sound s p Hall Hp)) as [Hp' [a Ha]].
  rewrite Ha in Hr. revert Hs Hr.
  unfold LevelLoader.on_player. rewrite Hp.
  destruct (LevelLoader.player s) as [i|]; [|done].
  unfold state_of, result_of in *. destruct (m p w) as [[r p'] w'].
  cbn [fst snd] in *. intros Hs ->. eexists _, _, _. split; [done|].
  split; [|by rewrite Hs]. split; [done|]. simpl. by apply Forall_insert.
Qed.

Lemma check_collisions_sound (s : LevelLoader.t) w :
  loader_sound s ->
  exists s' w',
    LevelLoader.check_player_enemy_collisions s w = (Ok tt, s', w')
    /\ loader_sound s'.
Proof.
  intros Hs. unfold LevelLoader.check_player_enemy_collisions.
  unfold mbind at 1, M_bind at 1, get at 1.
  destruct (LevelLoader.the_player s) as [p|] eqn:Hp; [|by eexists _, _].
  destruct (Player.is_invincible p); [by eexists _, _|].
  rewrite collision_loop_first. destruct (existsb _ _); [|by eexists _, _].
  unfold damage_event.
  destruct (on_player_sound (Player.take_damage 1) s w p
              (take_damage_safe 1) Hs Hp)
    as (b & s1 & w1 & E & Hs1 & [q Hq]).
  unfold mbind at 1, M_bind at 1. rewrite E.
  destruct b; [|by eexists _, _].
  cbv [mbind M_bind print get]. rewrite Hq.
  destruct (Player.is_dead q); by eexists _, _.
Qed.

Lemma loader_update_sound (s : LevelLoader.t) w :
  loader_sound s ->
  exists s' w',
    LevelLoader.update s w = (Ok tt, s', w') /\ loader_sound s'.
Proof.
  intros [Hrect Hall]. unfold LevelLoader.update.
  destruct (traverse_safe (fun _ => True) AnimatedTile.update
              (LevelLoader.animated_tiles s) w) as [Hr1 _].
  { intros o v _. split; [done|apply tile_update_returns]. }
  { by apply Forall_true. }
  unfold mbind at 1, M_bind at 1, zoom at 1.
  unfold result_of in Hr1.
  destruct (traverse AnimatedTile.update _ w) as [[r tiles] w1].
  cbn [fst snd] in Hr1. subst r.
  set (s1 := LevelLoader.set_animated_tiles tiles s).
  unfold mbind at 1, M_bind at 1, get at 1.
  destruct (traverse_safe entity_sound (LevelLoader.update_entity s1)
              (LevelLoader.entities s1) w1) as [Hr2 Hall2].
  { intros o v. by apply update_entity_safe. }
  { done. }
  unfold mbind at 1, M_bind at 1, zoom at 1.
  unfold result_of, state_of in Hr2, Hall2.
  destruct (traverse (LevelLoader.update_entity s1) _ w1) as [[r es] w2].
  cbn [fst snd] in Hr2, Hall2. subst r.
  by apply check_collisions_sound.
Qed.

Lemma move_player_sound dx dy (s : LevelLoader.t) w :
  loader_sound s ->
  exists b s' w',
    LevelLoader.move_player dx dy s w = (Ok b, s', w') /\ loader_sound s'.
Proof.
  intros Hs. rewrite move_player_cases.
  destruct (LevelLoader.the_player s) as [p|] eqn:Hp; [|by eexists _, _, _].
  destruct (is_position_blocked_answers s (proj1 Hs)
              (Player.x p + dx * TILE_SIZE) (Player.y p + dy * TILE_SIZE))
    as [b ->].
  destruct b; [by eexists _, _, _|].
  destruct (on_player_sound
              (Player.move dx dy (LevelLoader.get_level_size s).1
                 (LevelLoader.get_level_size s).2
                 (inject_Z (tick_clock w 0) / 1000)%Q) s (tick_read w) p
              (move_safe _ _ _ _ _) Hs Hp) as (b & s' & w' & E & Hs' & _).
  by exists b, s', w'.
Qed.

Lemma load_entity_keeps_sound obj :
  keeps (fun s => Forall entity_sound (LevelLoader.entities s))
    (LevelLoader.load_entity obj).
Proof.
  unfold LevelLoader.load_entity. cbv zeta.
  assert (Happ : forall ent (s : LevelLoader.t),
    entity_sound ent ->
    Forall entity_sound (LevelLoader.entities s) ->
    Forall entity_sound (LevelLoader.entities s ++ [ent])).
  { intros ent s He Hs. apply Forall_app. split; [done|]. by constructor. }
  destruct (String.eqb _ "player").
  { intros s w Hs. unfold mbind at 1, M_bind at 1.
    pose proof (player_init_stable (fun s : LevelLoader.t => s)
                  (obj_x obj) (obj_y obj) s w) as Hst.
    unfold state_of in *.
    destruct (Player.__init__ _ _ s w) as [[[p|e] s1] w1] eqn:E;
      simpl in Hst; subst s1; simpl; [|done].
    apply player_init_sound in E. by apply Happ. }
  destruct (String.eqb _ "enemy").
  { assert (Hrun : forall a b c,
      keeps (fun s => Forall entity_sound (LevelLoader.entities s))
        (nblocks ← lift (py_int c);
         e ← Enemy.__init__ (obj_x obj) (obj_y obj) a b nblocks;
         modify (fun s => LevelLoader.set_entities
                            (LevelLoader.entities s ++ [an_enemy e]) s);;
         print (CreatedEnemy (obj_x obj) (obj_y obj) a b c))).
    { intros a b c s w Hs. unfold mbind at 1, M_bind at 1, lift at 1.
      destruct (py_int c) as [n|err]; [|done].
      unfold mbind at 1, M_bind at 1.
      pose proof (enemy_init_stable (fun s : LevelLoader.t => s)
                    (obj_x obj) (obj_y obj) a b n s w) as Hst.
      unfold state_of in *.
      destruct (Enemy.__init__ _ _ _ _ _ s w) as [[[e|err] s1] w1] eqn:E;
        simpl in Hst; subst s1; simpl; [|done].
      apply enemy_init_sound in E. by apply Happ. }
    destruct (obj_properties obj !! "enemy_type"); apply Hrun. }
  destruct (String.eqb _ "info"); [|by intros s w].
  destruct (obj_properties obj !! "music") as [v|]; [|by intros s w].
  destruct (truthy v); [|by intros s w].
  apply keeps_bind; [|by intros ? ? ?].
  eapply keeps_stable; [apply (load_level_music_stable (fun s => s))|].
  by intros s s' ->.
Qed.

Lemma load_entities_sound (s : LevelLoader.t) w :
  Forall entity_sound
    (LevelLoader.entities (state_of (LevelLoader._load_entities s w))).
Proof.
  unfold LevelLoader._load_entities.
  unfold mbind at 1, M_bind at 1, modify at 1.
  unfold mbind at 1, M_bind at 1, modify at 1.
  set (s0 := LevelLoader.set_player None (LevelLoader.set_entities [] s)).
  assert (H0 : Forall entity_sound (LevelLoader.entities s0)) by constructor.
  revert H0. generalize s0. clear s s0. intros s Hs.
  unfold mbind at 1, M_bind at 1, get at 1.
  destruct (LevelLoader.tmx_data s) as [tmx|]; [|done].
  destruct (LevelLoader.find_layer "entities" false tmx) as [[n d|n objs|n]|];
    try done.
  - by destruct d.
  - destruct objs as [|o objs]; [done|].
    by apply (keeps_for_each _ (o :: objs) _ load_entity_keeps_sound).
Qed.

Lemma load_attempt_sound path (s s' : LevelLoader.t) w w' b :
  load_attempt path s w = (Ok b, s', w') -> loader_sound s'.
Proof.
  unfold load_attempt. intros H.
  apply bind_run in H as (tmx & s1 & w1 & Hload & H).
  unfold load_pygame in Hload.
  apply bind_run in H as ([] & s2 & w2 & Hset & H).
  unfold modify in Hset. injection Hset as <- <-.
  apply bind_run in H as ([] & s3 & w3 & Hgrid & H).
  destruct (create_collision_grid_run
              (LevelLoader.set_tmx_data (Some tmx) s1) w1 tmx eq_refl)
    as [v Eg].
  rewrite Eg in Hgrid. injection Hgrid as Hs3 _. clear Eg.
  apply bind_run in H as ([] & s4 & w4 & Hbg & H).
  apply bind_run in H as ([] & s5 & w5 & Hents & H).
  apply bind_run in H as ([] & s6 & w6 & Htiles & H).
  injection H as _ <- _.
  pose proof (render_background_stable LevelLoader.collision_grid
                (fun _ _ => eq_refl) s3 w3) as G4.
  rewrite Hbg in G4. cbn [state_of fst snd] in G4.
  pose proof (load_entities_stable LevelLoader.collision_grid
                (fun _ _ => eq_refl) (fun _ _ => eq_refl) s4 w4) as G5.
  rewrite Hents in G5. cbn [state_of fst snd] in G5.
  pose proof (load_animated_tiles_stable
                (fun s => (LevelLoader.collision_grid s,
                           LevelLoader.entities s))
                (fun _ _ => eq_refl) s5 w5) as G6.
  rewrite Htiles in G6. cbn [state_of fst snd] in G6.
  injection G6 as Gg Ge.
  pose proof (load_entities_sound s4 w4) as He.
  rewrite Hents in He. cbn [state_of fst snd] in He.
  split.
  - rewrite Gg, G5, G4, <- Hs3. apply marked_rectangular.
  - by rewrite Ge.
Qed.

(** X30.  A level that loaded never fails.  When [load_current_level]
    answers true, the loader it leaves is in good order: its grid is
    rectangular and every entity's sprites are complete.  On a loader in
    good order [update] and [move_player] return, whatever the clock, the
    keys and the positions are, and leave it in good order: no index is
    out of range in the grid, no clip is missing, and the reference to
    the player is there when the collision is served. *)
Theorem loaded_level_never_fails :
  (forall self w,
     result_of (LevelLoader.load_current_level self w) = Ok true ->
     loader_sound (state_of (LevelLoader.load_current_level self w)))
  /\ (forall self w,
        loader_sound self ->
        result_of (LevelLoader.update self w) = Ok tt
        /\ loader_sound (state_of (LevelLoader.update self w)))
  /\ (forall self w dx dy,
        loader_sound self ->
        (exists b, result_of (LevelLoader.move_player dx dy self w) = Ok b)
        /\ loader_sound (state_of (LevelLoader.move_player dx dy self w))).
Proof.
  split; [|split].
  - intros self w. rewrite load_current_level_cases.
    destruct (_ !! _) as [name|]; [|done].
    destruct (load_attempt (level_path name) self w) as [[[b|e] s'] w'] eqn:E;
      [|done].
    intros _. by eapply load_attempt_sound.
  - intros self w Hs.
    destruct (loader_update_sound self w Hs) as (s' & w' & -> & Hs').
    by split.
  - intros self w dx dy Hs.
    destruct (move_player_sound dx dy self w Hs) as (b & s' & w' & -> & Hs').
    split; [by exists b|done].
Qed.

Lemma loaded_level_never_fails_witness :
  result_of (LevelLoader.update sample_loader (world_at 7)) = Ok tt.
Proof.
  destruct loaded_level_never_fails as (Hload & Hupdate & _).
  apply Hupdate.
  apply (Hload (LevelLoader.set_entities [] sample_loader) sample_level_world).
  vm_compute. reflexivity.
Defined.
